(** * A minimal proof-of-work ledger: blockchain.py

    Shallow embedding of [Blockchain], [PyCryptoSim] and [Ent] and the
    properties established about them.

    Layout:
    - [SHA256]: hashlib.sha256 (FIPS 180-4) on byte lists, with hexdigest;
    - Python text: str(int), encode, slicing, string repetition; json.dumps;
    - the data model and the methods of [Blockchain] that only read;
    - the interpreter state: a store for the list objects the program shares
      by reference, the clock and the uuid source; a state and exception
      monad over it;
    - the methods of [Blockchain] that write, [PyCryptoSim], [Ent];
    - [Blockchain.transaction], [mining_cost] and [valid_vs_invalid];
    - the vocabulary of the statements and a small ledger to evaluate on;
    - the properties: first those of the specification, C1 to C10, with the
      lemmas they rest on; then further properties of the code, X1 to X30,
      method by method. *)

From Stdlib Require Import ZArith List String Ascii Bool Lia DecimalString.
From stdpp Require Import base strings functions list.
Import ListNotations.
Open Scope string_scope.
Open Scope list_scope.
Open Scope Z_scope.

(** ** hashlib.sha256 *)

Module SHA256.

Definition mask32 : Z := 0xffffffff.

Definition add32 (a b : Z) : Z := Z.land (a + b) mask32.

Definition rotr (n x : Z) : Z :=
  Z.lor (Z.shiftr x n) (Z.land (Z.shiftl x (32 - n)) mask32).

Definition shr (n x : Z) : Z := Z.shiftr x n.

Definition Ch (x y z : Z) : Z :=
  Z.lxor (Z.land x y) (Z.land (Z.lxor x mask32) z).

Definition Maj (x y z : Z) : Z :=
  Z.lxor (Z.lxor (Z.land x y) (Z.land x z)) (Z.land y z).

Definition bsig0 (x : Z) : Z := Z.lxor (Z.lxor (rotr 2 x) (rotr 13 x)) (rotr 22 x).
Definition bsig1 (x : Z) : Z := Z.lxor (Z.lxor (rotr 6 x) (rotr 11 x)) (rotr 25 x).
Definition ssig0 (x : Z) : Z := Z.lxor (Z.lxor (rotr 7 x) (rotr 18 x)) (shr 3 x).
Definition ssig1 (x : Z) : Z := Z.lxor (Z.lxor (rotr 17 x) (rotr 19 x)) (shr 10 x).

Definition K : list Z :=
  [ 0x428A2F98; 0x71374491; 0xB5C0FBCF; 0xE9B5DBA5; 0x3956C25B; 0x59F111F1; 0x923F82A4; 0xAB1C5ED5;
    0xD807AA98; 0x12835B01; 0x243185BE; 0x550C7DC3; 0x72BE5D74; 0x80DEB1FE; 0x9BDC06A7; 0xC19BF174;
    0xE49B69C1; 0xEFBE4786; 0x0FC19DC6; 0x240CA1CC; 0x2DE92C6F; 0x4A7484AA; 0x5CB0A9DC; 0x76F988DA;
    0x983E5152; 0xA831C66D; 0xB00327C8; 0xBF597FC7; 0xC6E00BF3; 0xD5A79147; 0x06CA6351; 0x14292967;
    0x27B70A85; 0x2E1B2138; 0x4D2C6DFC; 0x53380D13; 0x650A7354; 0x766A0ABB; 0x81C2C92E; 0x92722C85;
    0xA2BFE8A1; 0xA81A664B; 0xC24B8B70; 0xC76C51A3; 0xD192E819; 0xD6990624; 0xF40E3585; 0x106AA070;
    0x19A4C116; 0x1E376C08; 0x2748774C; 0x34B0BCB5; 0x391C0CB3; 0x4ED8AA4A; 0x5B9CCA4F; 0x682E6FF3;
    0x748F82EE; 0x78A5636F; 0x84C87814; 0x8CC70208; 0x90BEFFFA; 0xA4506CEB; 0xBEF9A3F7; 0xC67178F2 ].

(** The eight working variables / chaining values. *)
Record regs : Type := Regs { ra : Z; rb : Z; rc : Z; rd : Z; re : Z; rf : Z; rg : Z; rh : Z }.

Definition H0 : regs :=
  Regs 0x6a09e667 0xbb67ae85 0x3c6ef372 0xa54ff53a 0x510e527f 0x9b05688c 0x1f83d9ab 0x5be0cd19.

Definition round (s : regs) (k w : Z) : regs :=
  let t1 := add32 (add32 (add32 (add32 (rh s) (bsig1 (re s))) (Ch (re s) (rf s) (rg s))) k) w in
  let t2 := add32 (bsig0 (ra s)) (Maj (ra s) (rb s) (rc s)) in
  Regs (add32 t1 t2) (ra s) (rb s) (rc s) (add32 (rd s) t1) (re s) (rf s) (rg s).

(** [win] is the sliding window W[t] .. W[t+15] of the message schedule. *)
Fixpoint rounds (ks : list Z) (win : list Z) (s : regs) : regs :=
  match ks, win with
  | k :: ks', w :: rest =>
      let nw := add32 (add32 (add32 (ssig1 (nth 13 rest 0)) (nth 8 rest 0))
                             (ssig0 (nth 0 rest 0))) w in
      rounds ks' (rest ++ [nw]) (round s k w)
  | _, _ => s
  end.

Definition compress (h : regs) (block : list Z) : regs :=
  let s := rounds K block h in
  Regs (add32 (ra h) (ra s)) (add32 (rb h) (rb s)) (add32 (rc h) (rc s)) (add32 (rd h) (rd s))
       (add32 (re h) (re s)) (add32 (rf h) (rf s)) (add32 (rg h) (rg s)) (add32 (rh h) (rh s)).

(** Big-endian packing of bytes into 32-bit words. *)
Fixpoint words_of_bytes (bs : list Z) : list Z :=
  match bs with
  | b0 :: b1 :: b2 :: b3 :: rest =>
      Z.lor (Z.shiftl b0 24) (Z.lor (Z.shiftl b1 16) (Z.lor (Z.shiftl b2 8) b3))
      :: words_of_bytes rest
  | _ => []
  end.

Definition be64 (n : Z) : list Z :=
  map (fun i => Z.land (Z.shiftr n (8 * i)) 0xff) [7; 6; 5; 4; 3; 2; 1; 0].

Definition pad (msg : list Z) : list Z :=
  let n := Z.of_nat (length msg) in
  msg ++ [0x80] ++ repeat 0 (Z.to_nat ((55 - n) mod 64)) ++ be64 (8 * n).

Fixpoint blocks (fuel : nat) (ws : list Z) (h : regs) : regs :=
  match fuel, ws with
  | S fuel', _ :: _ => blocks fuel' (skipn 16 ws) (compress h (firstn 16 ws))
  | _, _ => h
  end.

Definition digest (msg : list Z) : regs :=
  let ws := words_of_bytes (pad msg) in
  blocks (length ws) ws H0.

Definition hex_digit (d : Z) : ascii :=
  match d with
  | 0 => "0" | 1 => "1" | 2 => "2" | 3 => "3" | 4 => "4" | 5 => "5" | 6 => "6" | 7 => "7"
  | 8 => "8" | 9 => "9" | 10 => "a" | 11 => "b" | 12 => "c" | 13 => "d" | 14 => "e" | _ => "f"
  end%char.

Definition nibble (w i : Z) : ascii := hex_digit (Z.land (Z.shiftr w (4 * i)) 0xf).

(** Eight lower-case hex digits of a word, followed by [k]. *)
Definition hex32 (w : Z) (k : string) : string :=
  String (nibble w 7) (String (nibble w 6) (String (nibble w 5) (String (nibble w 4)
 (String (nibble w 3) (String (nibble w 2) (String (nibble w 1) (String (nibble w 0) k))))))).

Definition hex_of_regs (s : regs) : string :=
  hex32 (ra s) (hex32 (rb s) (hex32 (rc s) (hex32 (rd s)
 (hex32 (re s) (hex32 (rf s) (hex32 (rg s) (hex32 (rh s) EmptyString))))))).

(** hashlib.sha256(bytes).hexdigest() *)
Definition hexdigest (msg : list Z) : string := hex_of_regs (digest msg).

End SHA256.

(** ** Python text

    A [string] stands for a Python str whose code points are below 256, one
    [ascii] per code point. *)

Definition byte_of_ascii (c : ascii) : Z := Z.of_N (N_of_ascii c).

(** str.encode(): UTF-8. *)
Definition utf8 (c : ascii) : list Z :=
  let n := byte_of_ascii c in
  if n <? 128 then [n] else [Z.lor 0xc0 (Z.shiftr n 6); Z.lor 0x80 (Z.land n 0x3f)].

Definition encode (s : string) : list Z := flat_map utf8 (list_ascii_of_string s).

(** str(n) for an int. *)
Definition str_of_int (n : Z) : string := NilZero.string_of_int (Z.to_int n).

(** s[:n] *)
Fixpoint str_take (n : nat) (s : string) : string :=
  match n, s with
  | S n', String c s' => String c (str_take n' s')
  | _, _ => EmptyString
  end.

(** s * n: the empty string when n <= 0. *)
Definition str_repeat (s : string) (n : Z) : string :=
  Nat.iter (Z.to_nat n) (String.append s) EmptyString.

(** s.replace(c, '') for a one-character c. *)
Fixpoint str_remove (c : ascii) (s : string) : string :=
  match s with
  | EmptyString => EmptyString
  | String d s' => if Ascii.eqb d c then str_remove c s' else String d (str_remove c s')
  end.

(** A float as returned by time(): positive and below 1e16, so that its repr
    is the integer part, a dot and the fraction digits, and int() of it is
    the integer part. No arithmetic is done on it. *)
Record pyfloat : Type := PyFloat { whole : Z; fraction : string }.

Definition repr_float (f : pyfloat) : string :=
  (str_of_int (whole f) +:+ "." +:+ fraction f).

Definition int_of_float (f : pyfloat) : Z := whole f.

(** ** Data model *)

(** The value under 'recipient': a str, or the one-element tuple that
    [some_fake] stores there. *)
Inductive pyaddr : Type :=
| PStr (s : string)
| PTuple1 (s : string).

(** A transaction dict. 'signature' and 'message' are optional keys. *)
Record transaction : Type := Transaction {
  sender : string;
  recipient : pyaddr;
  amount : Z;
  signature : option string;
  message : option Z;
}.

(** A block dict; [T] is what sits under 'transactions': a reference to a list
    object for a dict in memory, the list itself for its JSON value. *)
Record block (T : Type) : Type := Block {
  index : Z;
  timestamp : pyfloat;
  transactions : T;
  proof : Z;
  previous_hash : string;
}.
Arguments Block {T}.
Arguments index {T}.
Arguments timestamp {T}.
Arguments transactions {T}.
Arguments proof {T}.
Arguments previous_hash {T}.

Abbreviation ref := nat.
Definition blockd : Type := block ref.
Definition blockv : Type := block (list transaction).

(** A [Blockchain] instance. [current_transactions] and [chain] refer to list
    objects; [nodes] is the set in its iteration order. *)
Record Blockchain : Type := MkBlockchain {
  current_transactions : ref;
  chain : ref;
  nodes : list string;
  mining_rate : Z;
  proof_sum : Z;
  proof_cnt : Z;
}.

Inductive exn : Type :=
| Exception (msg : string)
| IndexError
| KeyError.

Inductive result (A : Type) : Type :=
| Ok (a : A)
| Error (e : exn).
Arguments Ok {A}.
Arguments Error {A}.

(** ** json.dumps(block, sort_keys=True) *)

Module Json.

Definition hex4 (n : Z) : string :=
  String (SHA256.nibble n 3) (String (SHA256.nibble n 2)
 (String (SHA256.nibble n 1) (String (SHA256.nibble n 0) EmptyString))).

Definition quote : string := String (ascii_of_nat 34) EmptyString.

(** ensure_ascii escaping of one code point. *)
Definition escape (c : ascii) : string :=
  let n := byte_of_ascii c in
  if n =? 34 then "\" +:+ quote
  else if n =? 92 then "\\"
  else if n =? 8 then "\b"
  else if n =? 12 then "\f"
  else if n =? 10 then "\n"
  else if n =? 13 then "\r"
  else if n =? 9 then "\t"
  else if (n <? 32) || (126 <? n) then ("\u" +:+ hex4 n)
  else String c EmptyString.

Fixpoint escape_all (s : string) : string :=
  match s with
  | EmptyString => EmptyString
  | String c s' => (escape c +:+ escape_all s')
  end.

Definition str (s : string) : string := (quote +:+ escape_all s +:+ quote).

Definition key (k : string) : string := (str k +:+ ": ").

(** ", ".join(items) *)
Fixpoint join (items : list string) : string :=
  match items with
  | [] => EmptyString
  | [x] => x
  | x :: rest => (x +:+ ", " +:+ join rest)
  end.

Definition array (items : list string) : string := ("[" +:+ join items +:+ "]").

Definition object (members : list string) : string := ("{" +:+ join members +:+ "}").

Definition addr (a : pyaddr) : string :=
  match a with
  | PStr s => str s
  | PTuple1 s => array [str s]
  end.

Definition opt_member (k : string) (v : option string) : list string :=
  match v with
  | Some s => [(key k +:+ s)]
  | None => []
  end.

(** Keys in sorted order: amount, message, recipient, sender, signature. *)
Definition dumps_transaction (t : transaction) : string :=
  object ([(key "amount" +:+ str_of_int (amount t))]
          ++ opt_member "message" (option_map str_of_int (message t))
          ++ [(key "recipient" +:+ addr (recipient t));
              (key "sender" +:+ str (sender t))]
          ++ opt_member "signature" (option_map str (signature t))).

(** Keys in sorted order: index, previous_hash, proof, timestamp, transactions. *)
Definition dumps (b : blockv) : string :=
  object [(key "index" +:+ str_of_int (index b));
          (key "previous_hash" +:+ str (previous_hash b));
          (key "proof" +:+ str_of_int (proof b));
          (key "timestamp" +:+ repr_float (timestamp b));
          (key "transactions" +:+ array (map dumps_transaction (transactions b)))].

End Json.

(** ** Blockchain: the methods that only read *)

(** Blockchain.hash, on the JSON value of the block. *)
Definition hash (b : blockv) : string := SHA256.hexdigest (encode (Json.dumps b)).

(** Blockchain.valid_proof *)
Definition valid_proof (last_proof proof mining_rate : Z) : bool :=
  let guess := encode (str_of_int last_proof +:+ str_of_int proof) in
  let guess_hash := SHA256.hexdigest guess in
  String.eqb (str_take 4 guess_hash) (str_repeat "0" mining_rate).

(** The while loop of valid_chain, from [current_index] on. *)
Fixpoint valid_chain_from (self : Blockchain) (last_block : blockv) (rest : list blockv) : bool :=
  match rest with
  | [] => true
  | block :: rest' =>
      if negb (String.eqb (previous_hash block) (hash last_block)) then false
      else if negb (valid_proof (proof last_block) (proof block) (mining_rate self)) then false
      else valid_chain_from self block rest'
  end.

(** Blockchain.valid_chain; [silence] only switches the printing. *)
Definition valid_chain (self : Blockchain) (chain : list blockv) (silence : bool) : result bool :=
  match chain with
  | [] => Error IndexError
  | last_block :: rest => Ok (valid_chain_from self last_block rest)
  end.

(** ** Interpreter state

    Dicts are never mutated once another object can reach them (a dict is
    changed only while it is being built, or on a private copy), so a dict is
    represented by its value. Lists are appended to and assigned into in
    place and are shared between ledgers by [clone], so the list objects live
    in a store and are named by references: [tlists] holds the lists of
    transactions, [blists] the lists of blocks. [tnext] and [bnext] are the
    next free references.

    [clock] and [uuids] are the values time() and str(uuid4()) will return,
    [ticks] and [drawn] count the calls made so far. *)
Record world : Type := World {
  tlists : ref -> list transaction;
  tnext : ref;
  blists : ref -> list blockd;
  bnext : ref;
  clock : nat -> pyfloat;
  ticks : nat;
  uuids : nat -> string;
  drawn : nat;
}.

Inductive outcome (A : Type) : Type :=
| Return (a : A) (w : world)
| Raise (e : exn) (w : world)
| Hang            (* a loop that never exits *)
| OutOfFuel.      (* the proof-of-work search was cut off *)
Arguments Return {A}.
Arguments Raise {A}.
Arguments Hang {A}.
Arguments OutOfFuel {A}.

Definition M (A : Type) : Type := world -> outcome A.

Definition ret {A} (a : A) : M A := fun w => Return a w.

Definition raise {A} (e : exn) : M A := fun w => Raise e w.

Definition bind {A B} (c : M A) (k : A -> M B) : M B :=
  fun w =>
    match c w with
    | Return a w' => k a w'
    | Raise e w' => Raise e w'
    | Hang => Hang
    | OutOfFuel => OutOfFuel
    end.

Notation "x <- c1 ;; c2" := (bind c1 (fun x => c2))
  (at level 20, c1 at level 99, c2 at level 200, only parsing).
Notation "' pat <- c1 ;; c2" := (bind c1 (fun x => match x with pat => c2 end))
  (at level 20, pat pattern, c1 at level 99, c2 at level 200, only parsing).
Notation "c1 ;; c2" := (bind c1 (fun _ => c2))
  (at level 100, c2 at level 200, right associativity, only parsing).

Definition lift {A} (r : result A) : M A :=
  match r with
  | Ok a => ret a
  | Error e => raise e
  end.

Fixpoint foldM {A B} (f : B -> A -> M B) (l : list A) (b : B) : M B :=
  match l with
  | [] => ret b
  | a :: l' => b' <- f b a ;; foldM f l' b'
  end.

(** time() *)
Definition time : M pyfloat :=
  fun w => Return (clock w (ticks w))
                  (World (tlists w) (tnext w) (blists w) (bnext w)
                         (clock w) (S (ticks w)) (uuids w) (drawn w)).

(** str(uuid4()) *)
Definition uuid4 : M string :=
  fun w => Return (uuids w (drawn w))
                  (World (tlists w) (tnext w) (blists w) (bnext w)
                         (clock w) (ticks w) (uuids w) (S (drawn w))).

(** A new list object holding [l]. *)
Definition alloc_tlist (l : list transaction) : M ref :=
  fun w => Return (tnext w)
                  (World (<[tnext w := l]> (tlists w)) (S (tnext w)) (blists w) (bnext w)
                         (clock w) (ticks w) (uuids w) (drawn w)).

Definition alloc_blist (l : list blockd) : M ref :=
  fun w => Return (bnext w)
                  (World (tlists w) (tnext w) (<[bnext w := l]> (blists w)) (S (bnext w))
                         (clock w) (ticks w) (uuids w) (drawn w)).

Definition get_tlist (r : ref) : M (list transaction) := fun w => Return (tlists w r) w.

Definition get_blist (r : ref) : M (list blockd) := fun w => Return (blists w r) w.

(** In-place change of the list object at [r]. *)
Definition set_tlist (r : ref) (l : list transaction) : M unit :=
  fun w => Return tt
                  (World (<[r := l]> (tlists w)) (tnext w) (blists w) (bnext w)
                         (clock w) (ticks w) (uuids w) (drawn w)).

Definition set_blist (r : ref) (l : list blockd) : M unit :=
  fun w => Return tt
                  (World (tlists w) (tnext w) (<[r := l]> (blists w)) (bnext w)
                         (clock w) (ticks w) (uuids w) (drawn w)).

(** list.append *)
Definition tlist_append (r : ref) (t : transaction) : M unit :=
  l <- get_tlist r ;; set_tlist r (l ++ [t]).

Definition blist_append (r : ref) (b : blockd) : M unit :=
  l <- get_blist r ;; set_blist r (l ++ [b]).

(** The JSON value of a block dict and of a chain, as the store has them. *)
Definition load_block (w : world) (b : blockd) : blockv :=
  Block (index b) (timestamp b) (tlists w (transactions b)) (proof b) (previous_hash b).

Definition load_chain (w : world) (r : ref) : list blockv := map (load_block w) (blists w r).

Definition read_chain (r : ref) : M (list blockv) := fun w => Return (load_chain w r) w.

(** Blockchain.hash applied to a block dict in memory. *)
Definition hash_of (b : blockd) : M string := fun w => Return (hash (load_block w b)) w.

(** Truth value of an optional str and of an optional int. *)
Definition truthy_str (s : option string) : bool :=
  match s with
  | Some s => negb (String.eqb s "")
  | None => false
  end.

Definition truthy_int (n : option Z) : bool :=
  match n with
  | Some n => negb (n =? 0)
  | None => false
  end.

Definition truthy_addr (a : pyaddr) : bool :=
  match a with
  | PStr s => negb (String.eqb s "")
  | PTuple1 _ => true
  end.

(** ** Blockchain: the methods that write *)

(** self.chain[-1] *)
Definition last_block (self : Blockchain) : M blockd :=
  l <- get_blist (chain self) ;;
  match last l with
  | Some b => ret b
  | None => raise IndexError
  end.

Definition new_block (self : Blockchain) (proof : Z) (previous_hash : option string)
  : M (Blockchain * blockd) :=
  l <- get_blist (chain self) ;;
  t <- time ;;
  ph <- (if truthy_str previous_hash
         then ret (default "" previous_hash)
         else (b <- last_block self ;; hash_of b)) ;;
  let block := Block (Z.of_nat (length l) + 1) t (current_transactions self) proof ph in
  (* Reset the current list of transactions *)
  fresh <- alloc_tlist [] ;;
  blist_append (chain self) block ;;
  ret (MkBlockchain fresh (chain self) (nodes self) (mining_rate self)
                    (proof_sum self) (proof_cnt self),
       block).

(** Blockchain(proof, mining_rate) *)
Definition new_Blockchain (proof mining_rate : Z) : M Blockchain :=
  ct <- alloc_tlist [] ;;
  ch <- alloc_blist [] ;;
  (* Create the genesis block *)
  '(self, _) <- new_block (MkBlockchain ct ch [] mining_rate 0 0) proof (Some "1") ;;
  ret (MkBlockchain (current_transactions self) (chain self) (nodes self) mining_rate 0 0).

Definition clone (self : Blockchain) : M Blockchain :=
  copy <- new_Blockchain 100 4 ;;
  ct <- get_tlist (current_transactions self) ;;
  ct' <- alloc_tlist ct ;;
  ch <- get_blist (chain self) ;;
  ch' <- alloc_blist ch ;;
  ret (MkBlockchain ct' ch' (nodes self) (mining_rate copy) (proof_sum copy) (proof_cnt copy)).

Definition new_transaction (self : Blockchain) (sender : string) (recipient : pyaddr)
  (amount : Z) (signature : option string) (msg : option Z) : M Z :=
  let transaction :=
    if truthy_int msg && truthy_str signature
    then Transaction sender recipient amount signature msg
    else Transaction sender recipient amount None None in
  tlist_append (current_transactions self) transaction ;;
  b <- last_block self ;;
  ret (index b + 1).

(** The while loop of proof_of_work, cut off after [fuel] iterations. *)
Fixpoint search (fuel : nat) (last_proof mining_rate proof : Z) : option Z :=
  match fuel with
  | O => None
  | S fuel' =>
      if valid_proof last_proof proof mining_rate then Some proof
      else search fuel' last_proof mining_rate (proof + 1)
  end.

Definition proof_of_work (fuel : nat) (self : Blockchain) (last_proof : Z) : M (Blockchain * Z) :=
  match search fuel last_proof (mining_rate self) 0 with
  | None => fun _ => OutOfFuel
  | Some proof =>
      ret (MkBlockchain (current_transactions self) (chain self) (nodes self) (mining_rate self)
                        (proof_sum self + proof) (proof_cnt self + 1),
           proof)
  end.

Definition work_for_proof (fuel : nat) (self : Blockchain) : M (Blockchain * Z) :=
  b <- last_block self ;;
  proof_of_work fuel self (proof b).

(** What requests.get(f'http://{node}/chain') gave back, with its JSON body. *)
Record response : Type := Response {
  status_code : Z;
  json_length : Z;
  json_chain : list blockv;
}.

(** The list objects of a chain that was parsed from JSON. *)
Fixpoint alloc_blocks (l : list blockv) : M (list blockd) :=
  match l with
  | [] => ret []
  | b :: l' =>
      r <- alloc_tlist (transactions b) ;;
      ds <- alloc_blocks l' ;;
      ret (Block (index b) (timestamp b) r (proof b) (previous_hash b) :: ds)
  end.

Definition alloc_chain (l : list blockv) : M ref :=
  ds <- alloc_blocks l ;; alloc_blist ds.

(** The for loop of resolve_conflicts over the peers still to visit. *)
Fixpoint resolve_scan (self : Blockchain) (fetch : string -> response) (neighbours : list string)
  (max_length : Z) (new_chain : option (list blockv)) : result (option (list blockv)) :=
  match neighbours with
  | [] => Ok new_chain
  | node :: rest =>
      let response := fetch node in
      if status_code response =? 200 then
        let length := json_length response in
        let chain := json_chain response in
        if length >? max_length then
          match valid_chain self chain true with
          | Error e => Error e
          | Ok true => resolve_scan self fetch rest length (Some chain)
          | Ok false => resolve_scan self fetch rest max_length new_chain
          end
        else resolve_scan self fetch rest max_length new_chain
      else resolve_scan self fetch rest max_length new_chain
  end.

Definition resolve_conflicts (self : Blockchain) (fetch : string -> response)
  : M (Blockchain * bool) :=
  l <- get_blist (chain self) ;;
  new_chain <- lift (resolve_scan self fetch (nodes self) (Z.of_nat (length l)) None) ;;
  match new_chain with
  | Some (b :: c) =>
      r <- alloc_chain (b :: c) ;;
      ret (MkBlockchain (current_transactions self) r (nodes self) (mining_rate self)
                        (proof_sum self) (proof_cnt self),
           true)
  | _ => ret (self, false)
  end.

(** ** PyCryptoSim *)

(** A dict with str keys, in insertion order. *)
Fixpoint dict_get {V} (d : list (string * V)) (k : string) : option V :=
  match d with
  | [] => None
  | (k', v) :: d' => if String.eqb k' k then Some v else dict_get d' k
  end.

(** d[k] = v: an existing key keeps its place, a new one goes last. *)
Fixpoint dict_set {V} (d : list (string * V)) (k : string) (v : V) : list (string * V) :=
  match d with
  | [] => [(k, v)]
  | (k', v') :: d' => if String.eqb k' k then (k, v) :: d' else (k', v') :: dict_set d' k v
  end.

Record PyCryptoSim : Type := MkPyCryptoSim { pairs : list (string * string) }.

(** commit(private, msg), with [msg] already formatted as in f"{private}{msg}". *)
Definition commit (private msg : string) : string :=
  let block_string := firstn 64 (encode (private +:+ msg)) in
  SHA256.hexdigest block_string.

Definition verify (self : PyCryptoSim) (public msg commit_ : string) : bool :=
  match dict_get (pairs self) public with
  | None => false
  | Some my_sk => String.eqb (commit my_sk msg) commit_
  end.

Definition key_pair (self : PyCryptoSim) (msg : option string)
  : M (PyCryptoSim * (string * string)) :=
  let msg := default "" msg in
  u1 <- uuid4 ;;
  let public := str_remove "-" (u1 +:+ msg) in
  u2 <- uuid4 ;;
  let private := str_remove "-" (u2 +:+ msg) in
  match dict_get (pairs self) public with
  | Some _ => fun _ => Hang      (* while True never reaches its break *)
  | None =>
      let self := MkPyCryptoSim (dict_set (pairs self) public private) in
      match dict_get (pairs self) public with
      | None => raise KeyError
      | Some p =>
          if negb (String.eqb p private)
          then raise (Exception "Error in the crypto simulator")
          else ret (self, (public, private))
      end
  end.

(** ** Ent *)

Record Ent : Type := MkEnt {
  name : string;
  keys : list (string * string);   (* mapping public keys to private keys *)
  crypto : PyCryptoSim;
}.

(** Ent(name) *)
Definition new_Ent (name : string) : Ent := MkEnt name [] (MkPyCryptoSim []).

Definition new_address (self : Ent) : M (Ent * string) :=
  '(crypto', (public, private)) <- key_pair (crypto self) None ;;
  ret (MkEnt (name self) (dict_set (keys self) public private) crypto', public).

(** balance[pk] += delta *)
Definition dict_add (balance : list (string * Z)) (pk : string) (delta : Z)
  : M (list (string * Z)) :=
  match dict_get balance pk with
  | Some b => ret (dict_set balance pk (b + delta))
  | None => raise KeyError
  end.

(** The body of the innermost loop of balance. *)
Definition balance_tx (self : Ent) (pk sk : string) (balance : list (string * Z))
  (transaction : transaction) : M (list (string * Z)) :=
  let recepient := recipient transaction in
  let sender_ := sender transaction in
  let amount_ := amount transaction in
  balance <- (if String.eqb pk sender_ then
                t <- time ;;
                let msg := repr_float t in
                if verify (crypto self) sender_ msg (commit sk msg)
                then dict_add balance pk (- amount_)
                else ret balance
              else ret balance) ;;
  match recepient with
  | PStr r =>
      if String.eqb pk r then
        msg <- uuid4 ;;
        if verify (crypto self) r msg (commit sk msg)
        then dict_add balance pk amount_
        else ret balance
      else ret balance
  | PTuple1 _ => ret balance      (* a str never equals a tuple *)
  end.

Definition balance_block (self : Ent) (pk sk : string) (balance : list (string * Z))
  (block : blockd) : M (list (string * Z)) :=
  txs <- get_tlist (transactions block) ;;
  match txs with
  | [] => ret balance            (* if not transactions: continue *)
  | _ => foldM (balance_tx self pk sk) txs balance
  end.

Definition balance_key (self : Ent) (blockchain : Blockchain) (balance : list (string * Z))
  (item : string * string) : M (list (string * Z)) :=
  l <- get_blist (chain blockchain) ;;
  foldM (balance_block self (fst item) (snd item)) l balance.

Definition balance (self : Ent) (blockchain : Blockchain) : M (Z * list (string * Z)) :=
  let balance := fold_left (fun b item => dict_set b (fst item) 0) (keys self) [] in
  balance <- foldM (balance_key self blockchain) (keys self) balance ;;
  let total := fold_left (fun t item => t + snd item) balance 0 in
  ret (total, balance).

Definition InsufficientFunds (name : string) : exn :=
  Exception (name +:+ ": insufficient balance").

Definition LedgerCorruption (payer : string) : exn :=
  Exception ("address " +:+ payer +:+ " has negative balance").

Definition AccountingInvariantViolation : exn := Exception "overpayed!".

(** The for loop of gives over the entries of balance still to visit. *)
Fixpoint gives_loop (self : Ent) (copy : Blockchain) (items : list (string * Z)) (due : Z)
  (recepient : Ent) : M Ent :=
  match items with
  | [] => ret recepient
  | (payer, coins) :: rest =>
      if coins <? 0 then raise (LedgerCorruption payer)
      else if coins =? 0 then gives_loop self copy rest due recepient
      else
        let pay := if due >? coins then coins else due in
        let due := due - pay in
        (* We need to sign *)
        t <- time ;;
        let msg := int_of_float t in
        '(recepient, address) <- new_address recepient ;;
        new_transaction copy payer (PStr address) pay
                        (Some (commit payer (str_of_int msg))) (Some msg) ;;
        if due =? 0 then ret recepient
        else if due <? 0 then raise AccountingInvariantViolation
        else gives_loop self copy rest due recepient
  end.

(** gives returns the fork; the recipient entity, which mints the receiving
    addresses, is returned next to it. *)
Definition gives (fuel : nat) (self : Ent) (blockchain : Blockchain) (recepient : Ent)
  (amount : Z) : M (Blockchain * Ent) :=
  copy <- clone blockchain ;;
  '(held, balance_) <- balance self blockchain ;;
  if amount >? held then raise (InsufficientFunds (name self))
  else
    recepient <- gives_loop self copy balance_ amount recepient ;;
    lb <- last_block copy ;;
    previous_hash <- hash_of lb ;;
    '(copy, proof) <- work_for_proof fuel copy ;;
    '(copy, _) <- new_block copy proof (Some previous_hash) ;;
    ret (copy, recepient).

(** mine; [skipped] is the outcome of
    [speed and random.random() > 1.0/speed]. *)
Definition mine (fuel : nat) (self : Ent) (blockchain : Blockchain) (skipped : bool)
  : M (Ent * option Blockchain) :=
  if skipped then ret (self, None)
  else
    copy <- clone blockchain ;;
    lb <- last_block copy ;;
    '(copy, proof) <- work_for_proof fuel copy ;;
    '(self, address) <- new_address self ;;
    new_transaction copy "from mine" (PStr address) 1 None None ;;
    (* Forge the new Block by adding it to the chain *)
    previous_hash <- hash_of lb ;;
    '(copy, _) <- new_block copy proof (Some previous_hash) ;;
    ret (self, Some copy).

(** The for loop of some_fake from index [i] on; [blocks] is faked.chain[i:]. *)
Fixpoint some_fake_loop (self : Ent) (faked : Blockchain) (i : nat) (blocks : list blockd)
  : M (Ent * Blockchain) :=
  match blocks with
  | [] => ret (self, faked)
  | block :: rest =>
      txs <- get_tlist (transactions block) ;;
      match find (fun t => truthy_addr (recipient t)) txs with
      | Some t =>
          '(self, address) <- new_address self ;;
          let t' := Transaction (sender t) (PTuple1 address) (amount t)
                                (signature t) (message t) in
          txs' <- alloc_tlist txs ;;
          tlist_append txs' t' ;;
          let block' := Block (index block) (timestamp block) txs' (proof block)
                              (previous_hash block) in
          l <- get_blist (chain faked) ;;
          set_blist (chain faked) (<[i := block']> l) ;;
          ret (self, faked)
      | None => some_fake_loop self faked (S i) rest
      end
  end.

Definition some_fake (self : Ent) (blockchain : Blockchain) : M (Ent * Blockchain) :=
  faked <- clone blockchain ;;
  l <- get_blist (chain faked) ;;
  some_fake_loop self faked 0 l.

Definition validate_blockchain (self : Ent) (blockchain : Blockchain) : M string :=
  l <- read_chain (chain blockchain) ;;
  ok <- lift (valid_chain blockchain l true) ;;
  let action := if ok then "accepts" else "rejects" in
  ret (name self +:+ " " +:+ action +:+ " the blockchain").

(** ** Blockchain: transaction, mining_cost, valid_vs_invalid *)

(** l[i] for an int i: a negative index counts from the end. *)
Definition list_index {A} (l : list A) (i : Z) : result A :=
  let j := if i <? 0 then i + Z.of_nat (length l) else i in
  if j <? 0 then Error IndexError
  else match l !! Z.to_nat j with
       | Some a => Ok a
       | None => Error IndexError
       end.

(** Blockchain.transaction: the str "N/A", or the pending transaction at
    [index]. *)
Definition Blockchain_transaction (self : Blockchain) (index : Z) : M (string + transaction) :=
  l <- get_tlist (current_transactions self) ;;
  match l with
  | [] => ret (inl "N/A")
  | _ => t <- lift (list_index l index) ;; ret (inr t)
  end.

(** What float(a) / b evaluates to for ints a and b: the float itself is
    named by its operands. *)
Inductive float_div : Type :=
| Quotient (a b : Z)
| ZeroDivisionError
| OverflowError.

(** The least int that float() cannot convert: halfway between the largest
    double and 2^1024. *)
Definition float_limit : Z := 2 ^ 1024 - 2 ^ 970.

(** The property mining_cost. Both operands are converted before the
    divisor is compared with zero. *)
Definition mining_cost (self : Blockchain) : float_div :=
  if float_limit <=? Z.abs (proof_sum self) then OverflowError
  else if float_limit <=? Z.abs (proof_cnt self) then OverflowError
  else if proof_cnt self =? 0 then ZeroDivisionError
  else Quotient (proof_sum self) (proof_cnt self).

(** The first loop of valid_vs_invalid: the greatest length among the
    ledgers whose own valid_chain accepts their chain. *)
Fixpoint longest_valid (blockchains : list Blockchain) (max_len : Z) : M Z :=
  match blockchains with
  | [] => ret max_len
  | blockchain :: rest =>
      c <- read_chain (chain blockchain) ;;
      ok <- lift (valid_chain blockchain c true) ;;
      if negb ok then longest_valid rest max_len
      else
        let l := Z.of_nat (length c) in
        if l >? max_len then longest_valid rest l else longest_valid rest max_len
  end.

(** The second loop of valid_vs_invalid. *)
Fixpoint split_by_length (blockchains : list Blockchain) (max_len : Z)
  (valid invalid : list Blockchain) : M (list Blockchain * list Blockchain) :=
  match blockchains with
  | [] => ret (valid, invalid)
  | bc :: rest =>
      c <- get_blist (chain bc) ;;
      let l := Z.of_nat (length c) in
      if l =? max_len then split_by_length rest max_len (valid ++ [bc]) invalid
      else split_by_length rest max_len valid (invalid ++ [bc])
  end.

Definition valid_vs_invalid (blockchains : list Blockchain)
  : M (list Blockchain * list Blockchain) :=
  max_len <- longest_valid blockchains 0 ;;
  split_by_length blockchains max_len [] [].

(** ** Vocabulary of the statements *)

(** The list objects are the same in [w] and [w']. *)
Definition same_store (w w' : world) : Prop :=
  tlists w' = tlists w /\ tnext w' = tnext w /\ blists w' = blists w /\ bnext w' = bnext w.

(** Every list object of [w] exists unchanged in [w']; [w'] may hold more. *)
Definition store_le (w w' : world) : Prop :=
  (tnext w <= tnext w')%nat /\ (bnext w <= bnext w')%nat
  /\ (forall r, (r < tnext w)%nat -> tlists w' r = tlists w r)
  /\ (forall r, (r < bnext w)%nat -> blists w' r = blists w r).

(** Only the clock and the uuid source moved on. *)
Definition only_draws (w w' : world) : Prop :=
  same_store w w' /\ clock w' = clock w /\ uuids w' = uuids w
  /\ (ticks w <= ticks w')%nat /\ (drawn w <= drawn w')%nat.

(** The ledger's lists, and the transaction lists of its blocks, are objects
    of the store. *)
Definition allocated (w : world) (self : Blockchain) : Prop :=
  (chain self < bnext w)%nat /\ (current_transactions self < tnext w)%nat
  /\ Forall (fun b : blockd => (transactions b < tnext w)%nat) (blists w (chain self)).

(** [c] relates the world it starts in to the world it returns in by [R]. *)
Definition keeps {A} (R : world -> world -> Prop) (c : M A) : Prop :=
  forall w a w', c w = Return a w' -> R w w'.

(** A store without objects. *)
Definition empty_world (clock : nat -> pyfloat) (uuids : nat -> string) : world :=
  World (fun _ => []) 0 (fun _ => []) 0 clock 0 uuids 0.

(** What a caller can do with a clone: clone.chain[i]['transactions'].append(t),
    reading the source ledger's chain before and after. *)
Definition append_in_clone (source : Blockchain) (i : nat) (t : transaction)
  : M (list blockv * list blockv) :=
  copy <- clone source ;;
  before <- read_chain (chain source) ;;
  l <- get_blist (chain copy) ;;
  match l !! i with
  | None => raise IndexError
  | Some b =>
      tlist_append (transactions b) t ;;
      after <- read_chain (chain source) ;;
      ret (before, after)
  end.

(** The world after new_block has sealed [blk] on [self]: a new, empty list of
    pending transactions, and [blk] appended to the chain. *)
Definition sealed (w : world) (self : Blockchain) (blk : blockd) : world :=
  World (<[tnext w := []]> (tlists w)) (S (tnext w))
        (<[chain self := blists w (chain self) ++ [blk]]> (blists w)) (bnext w)
        (clock w) (S (ticks w)) (uuids w) (drawn w).

(** The block that new_block builds. *)
Definition next_block (w : world) (self : Blockchain) (proof : Z) (previous_hash : string)
  : blockd :=
  Block (Z.of_nat (length (blists w (chain self))) + 1) (clock w (ticks w))
        (current_transactions self) proof previous_hash.

(** The instance after new_block. *)
Definition resealed (w : world) (self : Blockchain) : Blockchain :=
  MkBlockchain (tnext w) (chain self) (nodes self) (mining_rate self)
               (proof_sum self) (proof_cnt self).

(** The dict with keys [ks], in that order, and values [f]. *)
Definition dict_of {V} (ks : list string) (f : string -> V) : list (string * V) :=
  map (fun k => (k, f k)) ks.

(** What one transaction adds to the balance of address [pk] when it counts:
    the amount off if [pk] sent it, the amount on if [pk] received it. *)
Definition tx_effect (pk : string) (t : transaction) : Z :=
  (if String.eqb pk (sender t) then - amount t else 0)
  + (match recipient t with
     | PStr r => if String.eqb pk r then amount t else 0
     | PTuple1 _ => 0
     end).

Definition net (pk : string) (txs : list transaction) : Z :=
  fold_right (fun t acc => tx_effect pk t + acc) 0 txs.

(** Every transaction of the chain of [self], block after block. *)
Definition all_transactions (w : world) (self : Blockchain) : list transaction :=
  concat (map (fun b : blockd => tlists w (transactions b)) (blists w (chain self))).

(** Verify on what the transaction itself records under 'signature' and
    'message'; a transaction that records none cannot verify. *)
Definition recorded_verify (sim : PyCryptoSim) (t : transaction) : bool :=
  match signature t, message t with
  | Some c, Some m => verify sim (sender t) (str_of_int m) c
  | _, _ => false
  end.

(** Every address the entity holds is registered in its simulator with the
    private key the entity holds for it; [new_address] keeps it so. *)
Definition registered (e : Ent) : Prop :=
  NoDup (map fst (keys e))
  /\ forall pk sk, In (pk, sk) (keys e) -> dict_get (pairs (crypto e)) pk = Some sk.

(** ** A small ledger in memory

    A clock, a uuid source and a store holding a two-block ledger: the genesis
    block and one block with a single transaction of 3 to address "X". The
    proofs are chosen so that the chain is valid at mining rate 4 and the
    next proof is found after five guesses. *)
Definition demo_clock (n : nat) : pyfloat := PyFloat (Z.of_nat n + 1700000000) "5".

Definition demo_uuids (n : nat) : string := "8f1c-" +:+ str_of_int (Z.of_nat n).

Definition demo_genesis : blockd := Block 1 (PyFloat 1699999990 "25") 0%nat 84390 "1".

Definition demo_reward : transaction := Transaction "0" (PStr "X") 3 None None.

Definition demo_block2 : blockd :=
  Block 2 (PyFloat 1699999995 "75") 1%nat 8848
        (hash (Block 1 (PyFloat 1699999990 "25") [] 84390 "1")).

Definition demo_world : world :=
  World (fun r => match r with 1%nat => [demo_reward] | _ => [] end) 3
        (fun r => match r with 0%nat => [demo_genesis; demo_block2] | _ => [] end) 1
        demo_clock 0 demo_uuids 0.

Definition demo_ledger : Blockchain := MkBlockchain 2 0 [] 4 0 0.

(** The holder of address "X", and a second entity without addresses. *)
Definition demo_A : Ent := MkEnt "A" [("X", "x-private")] (MkPyCryptoSim [("X", "x-private")]).

Definition demo_B : Ent := new_Ent "B".




(** The pending list of the ledger is not the transaction list of one of its
    blocks. *)
Definition pending_apart (w : world) (self : Blockchain) : Prop :=
  Forall (fun b : blockd => transactions b <> current_transactions self)
         (blists w (chain self)).

(** The value a computation returns, if it returns. *)
Definition value {A} (o : outcome A) : option A :=
  match o with
  | Return a _ => Some a
  | _ => None
  end.

(** The small ledger again, with a second block whose only transaction sends
    5 from "X" and records a signature that is no commitment at all. *)
Definition forged_payment : transaction :=
  Transaction "X" (PStr "bob") 5 (Some "forged") (Some 7).

Definition forged_world : world :=
  World (fun r => match r with 1%nat => [forged_payment] | _ => [] end) 3
        (fun r => match r with 0%nat => [demo_genesis; demo_block2] | _ => [] end) 1
        demo_clock 0 demo_uuids 0.

(** The public keys of the next [k] addresses minted in [w]: new_address
    draws two uuids for each. *)
Definition minted (w : world) (k : nat) : list string :=
  map (fun i => str_remove "-" (uuids w (drawn w + 2 * i)%nat)) (seq 0 k).

(** The entries with a positive balance: each of them pays. *)
Definition payers (items : list (string * Z)) : nat :=
  length (List.filter (fun item => 0 <? snd item) items).

Definition sum_coins (items : list (string * Z)) : Z :=
  fold_right (fun item acc => snd item + acc) 0 items.

(** A holder of three addresses and a ledger whose second block pays 2 to
    "X", takes 1 from "Y" and pays 5 to "Z". *)
Definition demo_C : Ent :=
  MkEnt "C" [("X", "x-private"); ("Y", "y-private"); ("Z", "z-private")]
        (MkPyCryptoSim [("X", "x-private"); ("Y", "y-private"); ("Z", "z-private")]).

Definition mixed_world : world :=
  World (fun r => match r with
                  | 1%nat => [Transaction "0" (PStr "X") 2 None None;
                              Transaction "Y" (PStr "shop") 1 None None;
                              Transaction "0" (PStr "Z") 5 None None]
                  | _ => []
                  end) 3
        (fun r => match r with 0%nat => [demo_genesis; demo_block2] | _ => [] end) 1
        demo_clock 0 demo_uuids 0.

(** A candidate that resolve_conflicts may adopt when its running maximum is
    [max_length]: the peer answered 200, reports a greater length, and
    valid_chain accepts the chain it sent. *)
Definition acceptable (self : Blockchain) (max_length : Z) (r : response) : bool :=
  (status_code r =? 200) && (json_length r >? max_length)
  && match valid_chain self (json_chain r) true with
     | Ok true => true
     | _ => false
     end.

(** Two peers: the first reports length 3 and sends a one-block chain, the
    second reports length 4 and sends no block at all. *)
Definition demo_peers (node : string) : response :=
  if String.eqb node "peer1"
  then Response 200 3 [Block 1 (PyFloat 1699999990 "25") [] 84390 "1"]
  else Response 200 4 [].

Definition demo_node : Blockchain := MkBlockchain 2 0 ["peer1"; "peer2"] 4 0 0.

(** ** Vocabulary of the further properties *)

(** The verdict of a ledger's valid_chain on its own chain. *)
Definition accepts_itself (w : world) (bc : Blockchain) : bool :=
  match valid_chain bc (load_chain w (chain bc)) true with
  | Ok true => true
  | _ => false
  end.

Definition chain_length (w : world) (bc : Blockchain) : Z :=
  Z.of_nat (length (blists w (chain bc))).

(** Three ledgers in one store: the small ledger, a ledger of the same
    length whose second block names a wrong hash, and a ledger holding the
    genesis block alone. *)
Definition unlinked_block : blockd := Block 2 (PyFloat 1699999995 "75") 1%nat 8848 "bogus".

Definition three_world : world :=
  World (fun r => match r with 1%nat => [demo_reward] | _ => [] end) 3
        (fun r => match r with
                  | 0%nat => [demo_genesis; demo_block2]
                  | 1%nat => [demo_genesis; unlinked_block]
                  | 2%nat => [demo_genesis]
                  | _ => []
                  end) 3
        demo_clock 0 demo_uuids 0.

Definition ledger_at (r : ref) : Blockchain := MkBlockchain 2 r [] 4 0 0.

(** The world with one more reading of the clock. *)
Definition tick (w : world) : world :=
  World (tlists w) (tnext w) (blists w) (bnext w) (clock w) (S (ticks w)) (uuids w) (drawn w).



(** What balance reports to a holder all of whose checks succeed: for each
    address, in the order of the keys, the net effect of the transactions. *)
Definition balances_of (self : Ent) (txs : list transaction) : list (string * Z) :=
  map (fun item : string * string => (fst item, net (fst item) txs)) (keys self).

Definition sum_amounts (txs : list transaction) : Z :=
  fold_right (fun t acc => amount t + acc) 0 txs.

(** The transaction names the address, as sender or as recipient. *)
Definition mentions (pk : string) (t : transaction) : bool :=
  String.eqb pk (sender t)
  || match recipient t with
     | PStr r => String.eqb pk r
     | PTuple1 _ => false
     end.

(** What one payment of gives records: the payer's address as sender, an
    address of the recipient, an amount within the payer's balance, and a
    signature that is the commitment of the message under the sender's
    address itself. *)
Definition payment_of (items : list (string * Z)) (recepient : Ent) (t : transaction) : Prop :=
  (exists coins, In (sender t, coins) items /\ 0 < coins /\ amount t <= coins)
  /\ (exists a, recipient t = PStr a /\ In a (map fst (keys recepient)))
  /\ ((signature t = None /\ message t = None)
      \/ exists m, message t = Some m /\ signature t = Some (commit (sender t) (str_of_int m))).

(** ** The amended reading of C2

    What balance counts for an address when every check is made on a fresh
    message: the clock has been read [n] times and [d] uuids have been drawn
    when the transaction is looked at. *)
Definition reads_clock (pk : string) (t : transaction) : bool := String.eqb pk (sender t).

Definition draws_uuid (pk : string) (t : transaction) : bool :=
  match recipient t with
  | PStr r => String.eqb pk r
  | PTuple1 _ => false
  end.

(** Verify for the address, a message and the commitment of that message
    under the key the entity holds. *)
Definition fresh_check (sim : PyCryptoSim) (pk sk msg : string) : bool :=
  verify sim pk msg (commit sk msg).

Definition checked_effect (sim : PyCryptoSim) (clock : nat -> pyfloat) (uuids : nat -> string)
  (pk sk : string) (t : transaction) (n d : nat) : Z :=
  (if reads_clock pk t && fresh_check sim pk sk (repr_float (clock n)) then - amount t else 0)
  + (if draws_uuid pk t && fresh_check sim pk sk (uuids d) then amount t else 0).

Fixpoint checked_net (sim : PyCryptoSim) (clock : nat -> pyfloat) (uuids : nat -> string)
  (pk sk : string) (txs : list transaction) (n d : nat) : Z :=
  match txs with
  | [] => 0
  | t :: txs' =>
      checked_effect sim clock uuids pk sk t n d
      + checked_net sim clock uuids pk sk txs'
          (if reads_clock pk t then S n else n) (if draws_uuid pk t then S d else d)
  end.

Definition clock_reads (pk : string) (txs : list transaction) : nat :=
  length (List.filter (reads_clock pk) txs).

Definition uuid_draws (pk : string) (txs : list transaction) : nat :=
  length (List.filter (draws_uuid pk) txs).

(** One balance for each address held, in the order of the keys; the
    addresses are gone through one after the other. *)
Fixpoint checked_balances (sim : PyCryptoSim) (clock : nat -> pyfloat) (uuids : nat -> string)
  (items : list (string * string)) (txs : list transaction) (n d : nat) : list (string * Z) :=
  match items with
  | [] => []
  | (pk, sk) :: rest =>
      (pk, checked_net sim clock uuids pk sk txs n d)
      :: checked_balances sim clock uuids rest txs
           (n + clock_reads pk txs) (d + uuid_draws pk txs)
  end.

(** A transaction without what it records under 'signature' and 'message'. *)
Definition unsigned (t : transaction) : transaction :=
  Transaction (sender t) (recipient t) (amount t) None None.

(** A holder of "X", registered with the key held, and of "P", registered
    with another key than the one held. *)
Definition demo_D : Ent :=
  MkEnt "D" [("X", "x-private"); ("P", "p-held")]
        (MkPyCryptoSim [("X", "x-private"); ("P", "p-registered")]).

(** ** Candidates that resolve_conflicts examines *)

(** The running maximum of resolve_conflicts after the peers [neighbours],
    starting from [max_length]. *)
Fixpoint running_max (self : Blockchain) (fetch : string -> response) (neighbours : list string)
  (max_length : Z) : Z :=
  match neighbours with
  | [] => max_length
  | node :: rest =>
      running_max self fetch rest
        (if acceptable self max_length (fetch node) then json_length (fetch node)
         else max_length)
  end.

(** No candidate that is examined is empty: a peer's chain is examined when
    the peer answers 200 and reports more than the running maximum at its
    turn. *)
Definition examined_nonempty (self : Blockchain) (fetch : string -> response)
  (neighbours : list string) (max_length : Z) : Prop :=
  forall pre n post,
    neighbours = pre ++ n :: post ->
    status_code (fetch n) = 200 ->
    json_length (fetch n) > running_max self fetch pre max_length ->
    json_chain (fetch n) <> [].

(** Two peers: the first reports length 10 and sends a one-block chain, the
    second reports length 5 and sends no block at all. *)
Definition late_empty_peers (node : string) : response :=
  if String.eqb node "peer1"
  then Response 200 10 [Block 1 (PyFloat 1699999990 "25") [] 84390 "1"]
  else Response 200 5 [].

(** * Properties *)

(** ** Text and hashing *)

Example sha256_abc :
  SHA256.hexdigest (encode "abc")
  = "ba7816bf8f01cfea414140de5dae2223b00361a396177a9cb410ff61f20015ad".
Proof. vm_compute. reflexivity. Qed.

Example sha256_empty :
  SHA256.hexdigest []
  = "e3b0c44298fc1c149afbf4c8996fb92427ae41e4649b934ca495991b7852b855".
Proof. vm_compute. reflexivity. Qed.

Example sha256_two_blocks :
  SHA256.hexdigest (encode "abcdbcdecdefdefgefghfghighijhijkijkljklmklmnlmnomnopnopq")
  = "248d6a61d20638b8e5c026930c3e6039a33ce45964ff2167f6ecedd419db06c1".
Proof. vm_compute. reflexivity. Qed.

Example dumps_genesis :
  Json.dumps (Block 1 (PyFloat 1700000000 "25") [] 100 "1")
  = "{" +:+ Json.key "index" +:+ "1, " +:+ Json.key "previous_hash" +:+ Json.str "1" +:+ ", "
        +:+ Json.key "proof" +:+ "100, " +:+ Json.key "timestamp" +:+ "1700000000.25, "
        +:+ Json.key "transactions" +:+ "[]}".
Proof. vm_compute. reflexivity. Qed.

Example hash_genesis :
  hash (Block 1 (PyFloat 1700000000 "25") [] 100 "1")
  = "a8d603754772c1ef5d054c356d34c4d8d5c27ca3147da09dae492e2882b804a6".
Proof. vm_compute. reflexivity. Qed.

Example escape_all_example :
  Json.escape_all ("a" +:+ Json.quote +:+ "b\c"
                   +:+ String (ascii_of_nat 10) (String (ascii_of_nat 1)
                        (String (ascii_of_nat 127) (String (ascii_of_nat 233) ""))))
  = "a\" +:+ Json.quote +:+ "b\\c\n\u0001\u007f\u00e9".
Proof. vm_compute. reflexivity. Qed.

Example dumps_transaction_example :
  Json.dumps_transaction (Transaction "0" (PTuple1 "x") (-3) (Some "ff") (Some 1700000000))
  = "{" +:+ Json.key "amount" +:+ "-3, " +:+ Json.key "message" +:+ "1700000000, "
        +:+ Json.key "recipient" +:+ "[" +:+ Json.str "x" +:+ "], "
        +:+ Json.key "sender" +:+ Json.str "0" +:+ ", "
        +:+ Json.key "signature" +:+ Json.str "ff" +:+ "}".
Proof. vm_compute. reflexivity. Qed.

Example encode_latin1 : encode (String (ascii_of_nat 233) "") = [0xc3; 0xa9].
Proof. vm_compute. reflexivity. Qed.

Lemma hexdigest_length (msg : list Z) : String.length (SHA256.hexdigest msg) = 64%nat.
Proof. unfold SHA256.hexdigest. destruct (SHA256.digest msg). reflexivity. Qed.

Lemma str_take_length (n : nat) (s : string) :
  (n <= String.length s)%nat -> String.length (str_take n s) = n.
Proof.
  revert s. induction n as [|n IH]; intros [|c s] Hle; simpl in *; try lia.
  rewrite IH; lia.
Qed.

Lemma str_repeat_zero_length (n : Z) :
  String.length (str_repeat "0" n) = Z.to_nat n.
Proof.
  unfold str_repeat. induction (Z.to_nat n) as [|k IH]; [reflexivity |].
  change (S (String.length (Nat.iter k (String.append "0") "")) = S k). now f_equal.
Qed.

(** The left-hand side of the comparison in [valid_proof] always has four
    characters, so the comparison can only succeed at mining rate 4. *)
Lemma valid_proof_rate (last_proof proof mining_rate : Z) :
  valid_proof last_proof proof mining_rate = true -> mining_rate = 4.
Proof.
  unfold valid_proof. intros H. apply String.eqb_eq in H.
  apply (f_equal String.length) in H.
  rewrite str_take_length, str_repeat_zero_length in H by (rewrite hexdigest_length; lia).
  lia.
Qed.

Lemma valid_proof_four (last_proof proof : Z) :
  valid_proof last_proof proof 4
  = String.eqb (str_take 4 (SHA256.hexdigest (encode (str_of_int last_proof +:+ str_of_int proof))))
               "0000".
Proof. reflexivity. Qed.

Example valid_proof_100_35293 : valid_proof 100 35293 4 = true.
Proof. vm_compute. reflexivity. Qed.

(** C1. At difficulty 0 the first 0 hex characters of any digest are
    trivially all '0', yet valid_proof(100, 0, 0) is False: the code compares
    the first four characters of the digest with the empty string. *)
Theorem valid_proof_difficulty_zero :
  valid_proof 100 0 0 = false
  /\ str_take 0 (SHA256.hexdigest (encode (str_of_int 100 +:+ str_of_int 0)))
     = str_repeat "0" 0.
Proof. split; vm_compute; reflexivity. Qed.

(** ** valid_chain *)

(** C10. valid_chain raises IndexError on the empty chain, returns a bool on
    every chain with at least one block, and accepts every one-block chain. *)
Theorem valid_chain_total :
  (forall self silence, valid_chain self [] silence = Error IndexError)
  /\ (forall self b silence, valid_chain self [b] silence = Ok true)
  /\ (forall self b rest silence, exists v : bool, valid_chain self (b :: rest) silence = Ok v).
Proof.
  repeat split.
  intros self b rest silence. eexists. reflexivity.
Qed.

Lemma valid_chain_silence (self : Blockchain) (chain : list blockv) (s1 s2 : bool) :
  valid_chain self chain s1 = valid_chain self chain s2.
Proof. reflexivity. Qed.

(** ** The monad *)

Lemma bind_Return {A B} (c : M A) (k : A -> M B) w a w1 :
  c w = Return a w1 -> bind c k w = k a w1.
Proof. unfold bind. now intros ->. Qed.

Lemma bind_Raise {A B} (c : M A) (k : A -> M B) w e w1 :
  c w = Raise e w1 -> bind c k w = Raise e w1.
Proof. unfold bind. now intros ->. Qed.

Lemma bind_inv {A B} (c : M A) (k : A -> M B) w b w' :
  bind c k w = Return b w' -> exists a w1, c w = Return a w1 /\ k a w1 = Return b w'.
Proof.
  unfold bind. destruct (c w) as [a w1| | |]; try discriminate. eauto.
Qed.

Lemma value_inv {A} (o : outcome A) (a : A) :
  value o = Some a -> exists w, o = Return a w.
Proof. destruct o; simpl; intros H; inversion H; subst. eauto. Qed.

Lemma value_Return {A} (o : outcome A) (a : A) w : o = Return a w -> value o = Some a.
Proof. now intros ->. Qed.

Lemma same_store_refl w : same_store w w.
Proof. now repeat split. Qed.

Lemma same_store_trans w1 w2 w3 : same_store w1 w2 -> same_store w2 w3 -> same_store w1 w3.
Proof. unfold same_store. intros (?&?&?&?) (?&?&?&?). repeat split; congruence. Qed.

Lemma store_le_refl w : store_le w w.
Proof. unfold store_le. auto. Qed.

Lemma store_le_trans w1 w2 w3 : store_le w1 w2 -> store_le w2 w3 -> store_le w1 w3.
Proof.
  unfold store_le. intros (Ht&Hb&Htl&Hbl) (Ht'&Hb'&Htl'&Hbl'). repeat split; try lia.
  - intros r Hr. rewrite Htl' by lia. auto.
  - intros r Hr. rewrite Hbl' by lia. auto.
Qed.

Lemma same_store_le w w' : same_store w w' -> store_le w w'.
Proof. unfold same_store, store_le. intros (->&->&->&->). auto. Qed.

Lemma only_draws_refl w : only_draws w w.
Proof. unfold only_draws. auto using same_store_refl. Qed.

Lemma only_draws_trans w1 w2 w3 : only_draws w1 w2 -> only_draws w2 w3 -> only_draws w1 w3.
Proof.
  unfold only_draws. intros (?&?&?&?&?) (?&?&?&?&?).
  split; [eauto using same_store_trans|]. repeat split; try congruence; lia.
Qed.

Section Keeps.
Context (R : world -> world -> Prop).
Hypothesis R_refl : forall w, R w w.
Hypothesis R_trans : forall w1 w2 w3, R w1 w2 -> R w2 w3 -> R w1 w3.

Lemma keeps_ret {A} (a : A) : keeps R (ret a).
Proof using R_refl. intros w a' w' H. inversion H; subst. apply R_refl. Qed.

Lemma keeps_raise {A} (e : exn) : keeps R (@raise A e).
Proof. intros w a' w' H. discriminate. Qed.

Lemma keeps_bind {A B} (c : M A) (k : A -> M B) :
  keeps R c -> (forall a, keeps R (k a)) -> keeps R (bind c k).
Proof using R_trans.
  intros Hc Hk w b w' H. apply bind_inv in H as (a & w1 & H1 & H2).
  eapply R_trans; [eapply Hc | eapply Hk]; eassumption.
Qed.

Lemma keeps_foldM {A B} (f : B -> A -> M B) (l : list A) :
  (forall b a, keeps R (f b a)) -> forall b, keeps R (foldM f l b).
Proof using R_refl R_trans.
  intros Hf. induction l as [|a l IH]; intros b; simpl.
  - apply keeps_ret.
  - apply keeps_bind; auto.
Qed.

Lemma keeps_lift {A} (r : result A) : keeps R (lift r).
Proof using R_refl. destruct r; [apply keeps_ret | apply keeps_raise]. Qed.
End Keeps.

Lemma keeps_time : keeps only_draws time.
Proof.
  intros w a w' H. inversion H; subst. unfold only_draws, same_store; simpl.
  repeat split; lia.
Qed.

Lemma keeps_uuid4 : keeps only_draws uuid4.
Proof.
  intros w a w' H. inversion H; subst. unfold only_draws, same_store; simpl.
  repeat split; lia.
Qed.

Lemma keeps_get_tlist r : keeps only_draws (get_tlist r).
Proof. intros w a w' H. inversion H; subst. apply only_draws_refl. Qed.

Lemma keeps_get_blist r : keeps only_draws (get_blist r).
Proof. intros w a w' H. inversion H; subst. apply only_draws_refl. Qed.

(** ** clone *)

(** C3. The clone of a fresh ledger shares the transaction list of the
    genesis block with its source: appending a transaction to that list
    through the clone changes the source ledger's chain. *)
Theorem clone_shares_block_transactions (clock : nat -> pyfloat) (uuids : nat -> string) :
  let t := Transaction "mallory" (PStr "mallory") 1000 None None in
  exists w',
    (source <- new_Blockchain 100 4 ;; append_in_clone source 0 t) (empty_world clock uuids)
    = Return ([Block 1 (clock 0%nat) [] 100 "1"], [Block 1 (clock 0%nat) [t] 100 "1"]) w'.
Proof. intros t. eexists. vm_compute. reflexivity. Qed.

(** ** new_block, new_transaction *)

Lemma truthy_str_Some (s : string) : s <> "" -> truthy_str (Some s) = true.
Proof. intros H. simpl. destruct (String.eqb_spec s ""); [contradiction | reflexivity]. Qed.

Lemma new_block_given self p s w :
  s <> "" ->
  new_block self p (Some s) w
  = Return (resealed w self, next_block w self p s) (sealed w self (next_block w self p s)).
Proof.
  intros Hs. unfold new_block, bind. simpl.
  destruct (String.eqb_spec s ""); [contradiction | reflexivity].
Qed.

Lemma new_block_fallback self p ph lb w :
  truthy_str ph = false ->
  last (blists w (chain self)) = Some lb ->
  new_block self p ph w
  = Return (resealed w self, next_block w self p (hash (load_block w lb)))
           (sealed w self (next_block w self p (hash (load_block w lb)))).
Proof.
  intros Hph Hlast. unfold new_block, bind, last_block, bind. simpl.
  rewrite Hph. simpl. rewrite Hlast. reflexivity.
Qed.

Lemma new_block_empty self p ph w :
  truthy_str ph = false ->
  blists w (chain self) = [] ->
  exists w', new_block self p ph w = Raise IndexError w'.
Proof.
  intros Hph Hnil. unfold new_block, bind, last_block, bind. simpl.
  rewrite Hph. simpl. rewrite Hnil. simpl. eauto.
Qed.

Lemma new_transaction_eq self sender recipient amount signature msg lb w :
  last (blists w (chain self)) = Some lb ->
  new_transaction self sender recipient amount signature msg w
  = Return (index lb + 1)
      (World (<[current_transactions self :=
                 tlists w (current_transactions self)
                 ++ [if truthy_int msg && truthy_str signature
                     then Transaction sender recipient amount signature msg
                     else Transaction sender recipient amount None None]]> (tlists w))
             (tnext w) (blists w) (bnext w) (clock w) (ticks w) (uuids w) (drawn w)).
Proof.
  intros Hlast. unfold new_transaction, bind, tlist_append, last_block, bind. simpl.
  rewrite Hlast. reflexivity.
Qed.

Lemma new_Blockchain_eq p rate w :
  exists w',
    new_Blockchain p rate w = Return (MkBlockchain (S (tnext w)) (bnext w) [] rate 0 0) w'
    /\ store_le w w'
    /\ tnext w' = S (S (tnext w)) /\ bnext w' = S (bnext w)
    /\ tlists w' (tnext w) = [] /\ tlists w' (S (tnext w)) = []
    /\ blists w' (bnext w) = [Block 1 (clock w (ticks w)) (tnext w) p "1"]
    /\ clock w' = clock w /\ uuids w' = uuids w
    /\ ticks w' = S (ticks w) /\ drawn w' = drawn w.
Proof.
  eexists. split.
  - unfold new_Blockchain. unfold bind at 1. simpl. unfold bind at 1. simpl.
    unfold bind at 1. rewrite new_block_given by discriminate. simpl. reflexivity.
  - unfold sealed, next_block, store_le. simpl. rewrite !fn_lookup_insert.
    repeat split; try lia.
    + intros r Hr. rewrite !fn_lookup_insert_ne by lia. reflexivity.
    + intros r Hr. rewrite !fn_lookup_insert_ne by lia. reflexivity.
    + rewrite fn_lookup_insert_ne by lia. apply fn_lookup_insert.
Qed.

Lemma clone_fields self w :
  exists copy w',
    clone self w = Return copy w'
    /\ mining_rate copy = 4 /\ proof_sum copy = 0 /\ proof_cnt copy = 0
    /\ nodes copy = nodes self.
Proof.
  destruct (new_Blockchain_eq 100 4 w) as (w1 & E & _).
  unfold clone. rewrite (bind_Return _ _ _ _ _ E).
  unfold bind, get_tlist, alloc_tlist, get_blist, alloc_blist, ret. simpl.
  eexists _, _. split; [reflexivity |]. auto.
Qed.

Lemma clone_spec self w :
  allocated w self ->
  exists w',
    clone self w
    = Return (MkBlockchain (S (S (tnext w))) (S (bnext w)) (nodes self) 4 0 0) w'
    /\ store_le w w'
    /\ tnext w' = S (S (S (tnext w))) /\ bnext w' = S (S (bnext w))
    /\ tlists w' (S (S (tnext w))) = tlists w (current_transactions self)
    /\ blists w' (S (bnext w)) = blists w (chain self)
    /\ clock w' = clock w /\ uuids w' = uuids w
    /\ ticks w' = S (ticks w) /\ drawn w' = drawn w.
Proof.
  intros (Hch & Hct & _).
  destruct (new_Blockchain_eq 100 4 w)
    as (w1 & E & (Ht & Hb & Htl & Hbl) & Htn & Hbn & _ & _ & _ & Hc & Hu & Hti & Hd).
  unfold clone. rewrite (bind_Return _ _ _ _ _ E).
  unfold bind, get_tlist, alloc_tlist, get_blist, alloc_blist, ret. simpl.
  eexists. split; [rewrite Htn, Hbn; reflexivity |]. simpl.
  rewrite !fn_lookup_insert, Htl, Hbl by lia.
  unfold store_le. simpl. repeat split; try lia; try assumption.
  - intros r Hr. rewrite fn_lookup_insert_ne by lia. apply Htl. lia.
  - intros r Hr. rewrite fn_lookup_insert_ne by lia. apply Hbl. lia.
Qed.

(** Reading a ledger whose objects are in the store gives the same after the
    store has grown. *)
Lemma load_chain_store_le w w' self :
  allocated w self -> store_le w w' ->
  load_chain w' (chain self) = load_chain w (chain self).
Proof.
  intros (Hch & _ & Hall) (_ & _ & Htl & Hbl). unfold load_chain.
  rewrite Hbl by assumption. apply map_ext_in. intros b Hin.
  rewrite Forall_forall in Hall. unfold load_block. rewrite Htl; [reflexivity |].
  apply Hall. apply list_elem_of_In. assumption.
Qed.

Lemma allocated_store_le w w' self :
  allocated w self -> store_le w w' -> allocated w' self.
Proof.
  intros (Hch & Hct & Hall) (Ht & Hb & Htl & Hbl). unfold allocated.
  rewrite Hbl by assumption. repeat split; try lia.
  eapply Forall_impl; [exact Hall |]. simpl. intros b Hlt. lia.
Qed.

(** What C3 shows on a fresh ledger holds for every ledger in the store:
    the block at index [i] of the clone holds the transaction list of the
    block at index [i] of its source, and appending to it through the clone
    shows in the source. *)
Lemma clone_append_visible self w i b t :
  allocated w self ->
  blists w (chain self) !! i = Some b ->
  exists after w',
    append_in_clone self i t w = Return (load_chain w (chain self), after) w'
    /\ after !! i = Some (Block (index b) (timestamp b) (tlists w (transactions b) ++ [t])
                                (proof b) (previous_hash b)).
Proof.
  intros Halloc Hi.
  destruct (clone_spec self w Halloc)
    as (w1 & Hclone & Hle & _ & _ & _ & Hbl1 & _).
  pose proof Halloc as (Hch & _ & Hall).
  pose proof Hle as (_ & _ & Htl & Hblw).
  assert (Hbt : (transactions b < tnext w)%nat).
  { rewrite Forall_forall in Hall. apply Hall. eapply list_elem_of_lookup_2. exact Hi. }
  unfold append_in_clone. rewrite (bind_Return _ _ _ _ _ Hclone).
  unfold bind at 1. unfold read_chain at 1.
  unfold bind at 1. unfold get_blist at 1. cbn [chain]. rewrite Hbl1, Hi.
  unfold bind, tlist_append, bind, get_tlist, set_tlist, read_chain, ret. simpl.
  eexists _, _. split.
  - f_equal. f_equal. apply load_chain_store_le; assumption.
  - unfold load_chain. simpl. rewrite (Hblw _ Hch).
    rewrite list_lookup_fmap_Some. exists b. split; [| exact Hi].
    unfold load_block. simpl. rewrite fn_lookup_insert, (Htl _ Hbt). reflexivity.
Qed.

(** ** Dicts *)

Lemma dict_get_of {V} (ks : list string) (f : string -> V) (k : string) :
  In k ks -> dict_get (dict_of ks f) k = Some (f k).
Proof.
  induction ks as [|k0 ks IH]; simpl; [contradiction |].
  intros [-> | Hin].
  - now rewrite String.eqb_refl.
  - destruct (String.eqb_spec k0 k) as [-> | _]; auto.
Qed.

Lemma dict_get_of_None {V} (ks : list string) (f : string -> V) (k : string) :
  ~ In k ks -> dict_get (dict_of ks f) k = None.
Proof.
  induction ks as [|k0 ks IH]; simpl; [reflexivity |].
  intros Hnin. destruct (String.eqb_spec k0 k) as [-> | _]; [tauto | apply IH; tauto].
Qed.

Lemma dict_of_ext {V} (ks : list string) (f g : string -> V) :
  (forall k, In k ks -> f k = g k) -> dict_of ks f = dict_of ks g.
Proof. intros H. apply map_ext_in. intros k Hk. now rewrite H. Qed.

Lemma dict_set_of {V} (ks : list string) (f : string -> V) (k : string) (v : V) :
  NoDup ks -> In k ks ->
  dict_set (dict_of ks f) k v = dict_of ks (fun k' => if String.eqb k' k then v else f k').
Proof.
  induction ks as [|k0 ks IH]; simpl; [contradiction |].
  intros Hnd Hin. apply NoDup_cons in Hnd as [Hk0 Hnd].
  destruct (String.eqb_spec k0 k) as [-> | Hne].
  - f_equal. apply dict_of_ext. intros k' Hk'.
    destruct (String.eqb_spec k' k) as [-> | _]; [| reflexivity].
    exfalso. apply Hk0. now apply list_elem_of_In.
  - f_equal. apply IH; [assumption |]. destruct Hin; [contradiction | assumption].
Qed.

Lemma dict_set_of_new {V} (ks : list string) (f : string -> V) (k : string) (v : V) :
  ~ In k ks -> dict_set (dict_of ks f) k v = dict_of ks f ++ [(k, v)].
Proof.
  induction ks as [|k0 ks IH]; simpl; [reflexivity |].
  intros Hnin. destruct (String.eqb_spec k0 k) as [-> | _]; [tauto |].
  f_equal. apply IH. tauto.
Qed.

Lemma dict_get_set {V} (d : list (string * V)) (k : string) (v : V) :
  dict_get (dict_set d k v) k = Some v.
Proof.
  induction d as [|[k0 v0] d IH]; simpl.
  - now rewrite String.eqb_refl.
  - destruct (String.eqb_spec k0 k) as [-> | Hne]; simpl.
    + now rewrite String.eqb_refl.
    + destruct (String.eqb_spec k0 k); [contradiction | assumption].
Qed.

Lemma dict_get_set_ne {V} (d : list (string * V)) (k k' : string) (v : V) :
  k <> k' -> dict_get (dict_set d k v) k' = dict_get d k'.
Proof.
  intros Hne. induction d as [|[k0 v0] d IH]; simpl.
  - destruct (String.eqb_spec k k'); [contradiction | reflexivity].
  - destruct (String.eqb_spec k0 k) as [-> | Hne0]; simpl.
    + destruct (String.eqb_spec k k'); [contradiction | reflexivity].
    + destruct (String.eqb_spec k0 k'); [reflexivity | assumption].
Qed.

Lemma dict_set_keys {V} (d : list (string * V)) (k : string) (v : V) :
  map fst (dict_set d k v)
  = match dict_get d k with Some _ => map fst d | None => map fst d ++ [k] end.
Proof.
  induction d as [|[k0 v0] d IH]; simpl; [reflexivity |].
  destruct (String.eqb_spec k0 k) as [-> | Hne]; simpl; [reflexivity |].
  rewrite IH. now destruct (dict_get d k).
Qed.

Lemma dict_get_In {V} (d : list (string * V)) (k : string) (v : V) :
  NoDup (map fst d) -> In (k, v) d -> dict_get d k = Some v.
Proof.
  induction d as [|[k0 v0] d IH]; simpl; [contradiction |].
  intros Hnd Hin. apply NoDup_cons in Hnd as [Hk0 Hnd].
  destruct Hin as [Heq | Hin].
  - inversion Heq; subst. now rewrite String.eqb_refl.
  - destruct (String.eqb_spec k0 k) as [-> | _]; [| auto].
    exfalso. apply Hk0. apply list_elem_of_In. apply (in_map fst) in Hin. exact Hin.
Qed.

Lemma dict_get_Some_In {V} (d : list (string * V)) (k : string) (v : V) :
  dict_get d k = Some v -> In (k, v) d.
Proof.
  induction d as [|[k0 v0] d IH]; simpl; [discriminate |].
  destruct (String.eqb_spec k0 k) as [-> | _]; intros H.
  - inversion H; subst. now left.
  - right. auto.
Qed.

Lemma zero_balance_eq (items : list (string * string)) :
  NoDup (map fst items) ->
  fold_left (fun b item => dict_set b (fst item) 0) items []
  = dict_of (map fst items) (fun _ => 0).
Proof.
  intros Hnd.
  enough (G : forall done,
             NoDup (done ++ map fst items) ->
             fold_left (fun b item => dict_set b (fst item) 0) items
                       (dict_of done (fun _ => 0))
             = dict_of (done ++ map fst items) (fun _ => 0)) by exact (G [] Hnd).
  clear Hnd. induction items as [|[pk sk] items IH]; intros done Hnd; simpl.
  - now rewrite app_nil_r.
  - rewrite dict_set_of_new.
    + change (dict_of done (fun _ => 0) ++ [(pk, 0)]) with
        (dict_of done (fun _ : string => 0) ++ dict_of [pk] (fun _ => 0)).
      unfold dict_of at 1 2. rewrite <- map_app. fold (dict_of (done ++ [pk]) (fun _ => 0)).
      rewrite IH; rewrite <- app_assoc; [reflexivity | exact Hnd].
    + apply NoDup_app in Hnd as (_ & Hdisj & _). intros Hin.
      apply (Hdisj pk); [now apply list_elem_of_In | left].
Qed.

(** ** PyCryptoSim and new_address *)

Lemma append_empty_r (s : string) : s +:+ "" = s.
Proof.
  induction s as [|c s IH]; [reflexivity |].
  change (String c (s +:+ "") = String c s). now f_equal.
Qed.

Lemma key_pair_eq self w :
  key_pair self None w
  = match dict_get (pairs self) (str_remove "-" (uuids w (drawn w))) with
    | Some _ => Hang
    | None =>
        Return (MkPyCryptoSim (dict_set (pairs self) (str_remove "-" (uuids w (drawn w)))
                                        (str_remove "-" (uuids w (S (drawn w))))),
                (str_remove "-" (uuids w (drawn w)), str_remove "-" (uuids w (S (drawn w)))))
               (World (tlists w) (tnext w) (blists w) (bnext w)
                      (clock w) (ticks w) (uuids w) (S (S (drawn w))))
    end.
Proof.
  unfold key_pair, bind, uuid4. simpl. rewrite !append_empty_r.
  destruct (dict_get (pairs self) _) eqn:E; [reflexivity |].
  rewrite dict_get_set, String.eqb_refl. reflexivity.
Qed.

Lemma new_address_eq self w :
  new_address self w
  = match dict_get (pairs (crypto self)) (str_remove "-" (uuids w (drawn w))) with
    | Some _ => Hang
    | None =>
        Return (MkEnt (name self)
                      (dict_set (keys self) (str_remove "-" (uuids w (drawn w)))
                                (str_remove "-" (uuids w (S (drawn w)))))
                      (MkPyCryptoSim
                         (dict_set (pairs (crypto self)) (str_remove "-" (uuids w (drawn w)))
                                   (str_remove "-" (uuids w (S (drawn w)))))),
                str_remove "-" (uuids w (drawn w)))
               (World (tlists w) (tnext w) (blists w) (bnext w)
                      (clock w) (ticks w) (uuids w) (S (S (drawn w))))
    end.
Proof.
  unfold new_address, bind. rewrite key_pair_eq.
  destruct (dict_get (pairs (crypto self)) _); reflexivity.
Qed.

Lemma keeps_new_address self : keeps only_draws (new_address self).
Proof.
  intros w a w' H. rewrite new_address_eq in H.
  destruct (dict_get _ _); [discriminate |]. inversion H; subst.
  unfold only_draws, same_store. simpl. repeat split; lia.
Qed.

(** Addresses minted by new_address are registered with the key the entity
    keeps. *)
Lemma registered_new_Ent (n : string) : registered (new_Ent n).
Proof. split; [constructor | intros pk sk []]. Qed.

Lemma registered_new_address self w self' address w' :
  registered self ->
  (forall pk sk, In (pk, sk) (pairs (crypto self)) -> In (pk, sk) (keys self)) ->
  new_address self w = Return (self', address) w' ->
  registered self'
  /\ (forall pk sk, In (pk, sk) (pairs (crypto self')) -> In (pk, sk) (keys self')).
Proof.
  intros [Hnd Hreg] Hsub H. rewrite new_address_eq in H.
  destruct (dict_get (pairs (crypto self)) _) eqn:Hget; [discriminate |].
  inversion H; subst; clear H. simpl.
  set (pub := str_remove "-" (uuids w (drawn w))) in *.
  set (priv := str_remove "-" (uuids w (S (drawn w)))).
  assert (Hk : dict_get (keys self) pub = None).
  { destruct (dict_get (keys self) pub) eqn:E; [| reflexivity].
    apply dict_get_Some_In, Hreg in E. congruence. }
  assert (Hin_set : forall V (d : list (string * V)) k v pk sk,
             In (pk, sk) (dict_set d k v) -> (pk = k /\ sk = v) \/ In (pk, sk) d).
  { intros V d k v pk sk. induction d as [|[k0 v0] d IH]; simpl.
    - intros [E | []]. inversion E. auto.
    - destruct (String.eqb_spec k0 k) as [-> | _]; simpl.
      + intros [E | Hin]; [inversion E; auto | auto].
      + intros [E | Hin]; [auto | destruct (IH Hin); auto]. }
  assert (Hset_in : forall V (d : list (string * V)) k v pk sk,
             dict_get d k = None -> In (pk, sk) d -> In (pk, sk) (dict_set d k v)).
  { intros V d k v pk sk. induction d as [|[k0 v0] d IH]; simpl; [tauto |].
    destruct (String.eqb_spec k0 k) as [-> | _]; [discriminate |].
    intros Hn [E | Hin]; simpl; auto. }
  unfold registered. simpl. split; [split |].
  - rewrite dict_set_keys, Hk. apply NoDup_app. repeat split.
    + exact Hnd.
    + intros k Hin Hin'. apply list_elem_of_In in Hin'. destruct Hin' as [<- | []].
      apply list_elem_of_In, in_map_iff in Hin as ((k' & v') & Hfst & Hin). simpl in Hfst.
      subst k'. apply Hreg in Hin. congruence.
    + apply NoDup_singleton.
  - intros pk sk Hin. apply Hin_set in Hin as [[-> ->] | Hin].
    + apply dict_get_set.
    + destruct (String.eqb_spec pub pk) as [<- | Hne].
      * apply Hreg in Hin. congruence.
      * rewrite dict_get_set_ne by assumption. auto.
  - intros pk sk Hin. apply Hin_set in Hin as [[-> ->] | Hin].
    + apply dict_get_Some_In, dict_get_set.
    + apply Hset_in; auto.
Qed.

(** ** balance *)

Lemma dict_add_of (ks : list string) (f : string -> Z) (pk : string) (delta : Z) w :
  NoDup ks -> In pk ks ->
  dict_add (dict_of ks f) pk delta w
  = Return (dict_of ks (fun k => if String.eqb k pk then f pk + delta else f k)) w.
Proof.
  intros Hnd Hin. unfold dict_add. rewrite dict_get_of by assumption.
  rewrite dict_set_of by assumption. reflexivity.
Qed.

Lemma only_draws_tick w :
  only_draws w (World (tlists w) (tnext w) (blists w) (bnext w)
                      (clock w) (S (ticks w)) (uuids w) (drawn w)).
Proof. unfold only_draws, same_store. simpl. repeat split; lia. Qed.

Lemma only_draws_draw w :
  only_draws w (World (tlists w) (tnext w) (blists w) (bnext w)
                      (clock w) (ticks w) (uuids w) (S (drawn w))).
Proof. unfold only_draws, same_store. simpl. repeat split; lia. Qed.

(** One transaction changes the entry of [pk] by its effect when the check
    on a fresh message succeeds, and nothing when it fails. *)
Lemma balance_tx_spec self pk sk ks f t w (ok : bool) :
  NoDup ks -> In pk ks ->
  (forall msg, verify (crypto self) pk msg (commit sk msg) = ok) ->
  exists f' w',
    balance_tx self pk sk (dict_of ks f) t w = Return (dict_of ks f') w'
    /\ only_draws w w'
    /\ f' pk = f pk + (if ok then tx_effect pk t else 0)
    /\ forall k, k <> pk -> f' k = f k.
Proof.
  intros Hnd Hin Hok. unfold balance_tx, tx_effect.
  assert (H1 : exists f1 w1,
             (if String.eqb pk (sender t)
              then bind time (fun t0 =>
                     if verify (crypto self) (sender t) (repr_float t0)
                               (commit sk (repr_float t0))
                     then dict_add (dict_of ks f) pk (- amount t)
                     else ret (dict_of ks f))
              else ret (dict_of ks f)) w = Return (dict_of ks f1) w1
             /\ only_draws w w1
             /\ f1 pk = f pk + (if ok then if String.eqb pk (sender t) then - amount t else 0
                                else 0)
             /\ forall k, k <> pk -> f1 k = f k).
  { destruct (String.eqb_spec pk (sender t)) as [Hs | Hs].
    - unfold bind, time. rewrite <- Hs, Hok. destruct ok.
      + rewrite dict_add_of by assumption. eexists _, _. split; [reflexivity |].
        split; [apply only_draws_tick |]. simpl. rewrite String.eqb_refl. split; [reflexivity |].
        intros k Hk. destruct (String.eqb_spec k pk); [contradiction | reflexivity].
      + exists f. eexists. split; [reflexivity |]. split; [apply only_draws_tick |].
        split; [lia | reflexivity].
    - exists f, w. split; [reflexivity |]. split; [apply only_draws_refl |].
      split; [destruct ok; lia | reflexivity]. }
  destruct H1 as (f1 & w1 & E1 & Hd1 & Hf1 & Hother1).
  rewrite (bind_Return _ _ _ _ _ E1).
  destruct (recipient t) as [r | r].
  - destruct (String.eqb_spec pk r) as [Hr | Hr].
    + unfold bind, uuid4. rewrite <- Hr, Hok. destruct ok.
      * rewrite dict_add_of by assumption. eexists _, _. split; [reflexivity |].
        split; [eapply only_draws_trans; [exact Hd1 | apply only_draws_draw] |].
        simpl. rewrite String.eqb_refl, Hf1. split; [lia |].
        intros k Hk. destruct (String.eqb_spec k pk); [contradiction | auto].
      * exists f1. eexists. split; [reflexivity |].
        split; [eapply only_draws_trans; [exact Hd1 | apply only_draws_draw] |].
        split; [rewrite Hf1; lia | assumption].
    + exists f1, w1. split; [reflexivity |]. split; [assumption |].
      split; [rewrite Hf1; destruct ok; lia | assumption].
  - exists f1, w1. split; [reflexivity |]. split; [assumption |].
    split; [rewrite Hf1; destruct ok; lia | assumption].
Qed.

Lemma balance_txs_spec self pk sk ks txs (ok : bool) :
  NoDup ks -> In pk ks ->
  (forall msg, verify (crypto self) pk msg (commit sk msg) = ok) ->
  forall f w,
  exists f' w',
    foldM (balance_tx self pk sk) txs (dict_of ks f) w = Return (dict_of ks f') w'
    /\ only_draws w w'
    /\ f' pk = f pk + (if ok then net pk txs else 0)
    /\ forall k, k <> pk -> f' k = f k.
Proof.
  intros Hnd Hin Hok. induction txs as [|t txs IH]; intros f w; simpl.
  - exists f, w. split; [reflexivity |]. split; [apply only_draws_refl |].
    split; [destruct ok; lia | reflexivity].
  - destruct (balance_tx_spec self pk sk ks f t w ok Hnd Hin Hok)
      as (f1 & w1 & E1 & Hd1 & Hf1 & Ho1).
    rewrite (bind_Return _ _ _ _ _ E1).
    destruct (IH f1 w1) as (f2 & w2 & E2 & Hd2 & Hf2 & Ho2).
    exists f2, w2. split; [exact E2 |]. split; [eapply only_draws_trans; eassumption |].
    split; [rewrite Hf2, Hf1; destruct ok; lia |].
    intros k Hk. rewrite Ho2, Ho1 by assumption. reflexivity.
Qed.

Lemma net_app pk (l1 l2 : list transaction) : net pk (l1 ++ l2) = net pk l1 + net pk l2.
Proof. induction l1 as [|t l1 IH]; simpl; [reflexivity | rewrite IH; lia]. Qed.

Lemma balance_blocks_spec self pk sk ks (blocks : list blockd) (ok : bool) w0 :
  NoDup ks -> In pk ks ->
  (forall msg, verify (crypto self) pk msg (commit sk msg) = ok) ->
  forall f w,
  only_draws w0 w ->
  exists f' w',
    foldM (balance_block self pk sk) blocks (dict_of ks f) w = Return (dict_of ks f') w'
    /\ only_draws w w'
    /\ f' pk = f pk + (if ok
                       then net pk (concat (map (fun b : blockd => tlists w0 (transactions b))
                                                blocks))
                       else 0)
    /\ forall k, k <> pk -> f' k = f k.
Proof.
  intros Hnd Hin Hok. induction blocks as [|b blocks IH]; intros f w Hw; simpl.
  - exists f, w. split; [reflexivity |]. split; [apply only_draws_refl |].
    split; [destruct ok; lia | reflexivity].
  - assert (E1 : exists f1 w1,
               balance_block self pk sk (dict_of ks f) b w = Return (dict_of ks f1) w1
               /\ only_draws w w1
               /\ f1 pk = f pk + (if ok then net pk (tlists w0 (transactions b)) else 0)
               /\ forall k, k <> pk -> f1 k = f k).
    { unfold balance_block, bind, get_tlist.
      destruct Hw as ((Htl & _) & _). rewrite Htl.
      destruct (tlists w0 (transactions b)) as [|t txs] eqn:Etx.
      - exists f, w. split; [reflexivity |]. split; [apply only_draws_refl |].
        split; [destruct ok; simpl; lia | reflexivity].
      - apply balance_txs_spec; assumption. }
    destruct E1 as (f1 & w1 & E1 & Hd1 & Hf1 & Ho1).
    rewrite (bind_Return _ _ _ _ _ E1).
    destruct (IH f1 w1) as (f2 & w2 & E2 & Hd2 & Hf2 & Ho2).
    { eapply only_draws_trans; eassumption. }
    exists f2, w2. split; [exact E2 |]. split; [eapply only_draws_trans; eassumption |].
    split; [rewrite Hf2, Hf1, net_app; destruct ok; lia |].
    intros k Hk. rewrite Ho2, Ho1 by assumption. reflexivity.
Qed.

Lemma balance_keys_spec self blockchain (oks : string -> bool) ks w0 :
  NoDup ks ->
  forall items,
  NoDup (map fst items) ->
  (forall pk sk, In (pk, sk) items ->
     In pk ks /\ forall msg, verify (crypto self) pk msg (commit sk msg) = oks pk) ->
  forall f w,
  only_draws w0 w ->
  exists f' w',
    foldM (balance_key self blockchain) items (dict_of ks f) w = Return (dict_of ks f') w'
    /\ only_draws w w'
    /\ (forall pk, In pk (map fst items) ->
          f' pk = f pk + (if oks pk then net pk (all_transactions w0 blockchain) else 0))
    /\ (forall k, ~ In k (map fst items) -> f' k = f k).
Proof.
  intros Hnd. induction items as [|[pk sk] items IH]; intros Hndi Hitems f w Hw; simpl.
  - exists f, w. split; [reflexivity |]. split; [apply only_draws_refl |].
    split; [intros pk [] | reflexivity].
  - simpl in Hndi. apply NoDup_cons in Hndi as [Hpk Hndi].
    destruct (Hitems pk sk (or_introl eq_refl)) as [Hin Hok].
    unfold balance_key at 1. unfold bind at 1. unfold get_blist at 1. unfold bind at 1. simpl.
    destruct (balance_blocks_spec self pk sk ks (blists w (chain blockchain)) (oks pk) w0
                Hnd Hin Hok f w Hw) as (f1 & w1 & E1 & Hd1 & Hf1 & Ho1).
    rewrite E1.
    destruct (IH Hndi (fun pk' sk' H => Hitems pk' sk' (or_intror H)) f1 w1)
      as (f2 & w2 & E2 & Hd2 & Hf2 & Ho2).
    { eapply only_draws_trans; eassumption. }
    exists f2, w2. split; [exact E2 |]. split; [eapply only_draws_trans; eassumption |].
    assert (Hbl : blists w (chain blockchain) = blists w0 (chain blockchain)).
    { destruct Hw as ((_ & _ & Hbl & _) & _). now rewrite Hbl. }
    split.
    + intros k [<- | Hk].
      * rewrite Ho2, Hf1, Hbl; [reflexivity |].
        intros Hin'. apply Hpk. now apply list_elem_of_In.
      * rewrite Hf2 by assumption. rewrite Ho1; [reflexivity |].
        intros ->. apply Hpk. now apply list_elem_of_In.
    + intros k Hk. rewrite Ho2 by tauto. apply Ho1. intros ->. apply Hk. now left.
Qed.

Lemma registered_verify self pk sk msg :
  registered self -> In (pk, sk) (keys self) ->
  verify (crypto self) pk msg (commit sk msg) = true.
Proof.
  intros [_ Hreg] Hin. unfold verify. rewrite (Hreg _ _ Hin). apply String.eqb_refl.
Qed.

Lemma keeps_balance self blockchain : keeps only_draws (balance self blockchain).
Proof.
  assert (Hadd : forall b pk d, keeps only_draws (dict_add b pk d)).
  { intros b pk d. unfold dict_add. destruct (dict_get b pk).
    - apply keeps_ret, only_draws_refl.
    - apply keeps_raise. }
  assert (Htx : forall pk sk b t, keeps only_draws (balance_tx self pk sk b t)).
  { intros pk sk b t. unfold balance_tx.
    apply keeps_bind; [apply only_draws_trans | |].
    - destruct (String.eqb pk (sender t)); [| apply keeps_ret, only_draws_refl].
      apply keeps_bind; [apply only_draws_trans | apply keeps_time |].
      intros t0. destruct (verify _ _ _ _); [apply Hadd | apply keeps_ret, only_draws_refl].
    - intros b'. destruct (recipient t) as [r | r]; [| apply keeps_ret, only_draws_refl].
      destruct (String.eqb pk r); [| apply keeps_ret, only_draws_refl].
      apply keeps_bind; [apply only_draws_trans | apply keeps_uuid4 |].
      intros m. destruct (verify _ _ _ _); [apply Hadd | apply keeps_ret, only_draws_refl]. }
  unfold balance. apply keeps_bind; [apply only_draws_trans | |].
  - apply keeps_foldM; [apply only_draws_refl | apply only_draws_trans |].
    intros b [pk sk]. unfold balance_key.
    apply keeps_bind; [apply only_draws_trans | apply keeps_get_blist |].
    intros l. apply keeps_foldM; [apply only_draws_refl | apply only_draws_trans |].
    intros b' blk. unfold balance_block.
    apply keeps_bind; [apply only_draws_trans | apply keeps_get_tlist |].
    intros txs. destruct txs; [apply keeps_ret, only_draws_refl |].
    apply keeps_foldM; [apply only_draws_refl | apply only_draws_trans | apply Htx].
  - intros b. apply keeps_ret, only_draws_refl.
Qed.

(** ** gives: the failures *)

(** C6. When the amount exceeds the balance held, gives raises the
    insufficient-balance exception: no fork comes back, and the chain and
    the pending transactions of the ledger it was given read as before.
    [held] is the total balance reports to gives, that is after the clone
    was made. *)
Theorem gives_insufficient_funds fuel self blockchain recepient amount w held per_address :
  allocated w blockchain ->
  value ((clone blockchain ;; balance self blockchain) w) = Some (held, per_address) ->
  held < amount ->
  exists w',
    gives fuel self blockchain recepient amount w = Raise (InsufficientFunds (name self)) w'
    /\ load_chain w' (chain blockchain) = load_chain w (chain blockchain)
    /\ tlists w' (current_transactions blockchain) = tlists w (current_transactions blockchain)
    /\ length (blists w' (chain blockchain)) = length (blists w (chain blockchain)).
Proof.
  intros Halloc Hheld Hlt.
  destruct (clone_spec blockchain w Halloc) as (w1 & Hclone & Hle1 & _).
  rewrite (bind_Return _ _ _ _ _ Hclone) in Hheld.
  apply value_inv in Hheld as [w2 Hbal]. exists w2.
  assert (Hle : store_le w w2).
  { eapply store_le_trans; [exact Hle1 |].
    apply same_store_le. apply (keeps_balance _ _ _ _ _ Hbal). }
  split; [| split; [| split]].
  - unfold gives. rewrite (bind_Return _ _ _ _ _ Hclone), (bind_Return _ _ _ _ _ Hbal).
    destruct (Z.gtb_spec amount held); [reflexivity | lia].
  - apply load_chain_store_le; assumption.
  - destruct Hle as (_ & _ & Htl & _). apply Htl. apply Halloc.
  - destruct Hle as (_ & _ & _ & Hbl). rewrite Hbl; [reflexivity | apply Halloc].
Qed.

Lemma demo_allocated : allocated demo_world demo_ledger.
Proof.
  unfold allocated. simpl. split; [lia | split; [lia |]].
  constructor; [simpl; lia | constructor; [simpl; lia | constructor]].
Qed.

Lemma gives_insufficient_funds_witness :
  exists w',
    gives 0 demo_A demo_ledger demo_B 5 demo_world = Raise (InsufficientFunds "A") w'
    /\ load_chain w' (chain demo_ledger) = load_chain demo_world (chain demo_ledger)
    /\ tlists w' (current_transactions demo_ledger)
       = tlists demo_world (current_transactions demo_ledger)
    /\ length (blists w' (chain demo_ledger)) = length (blists demo_world (chain demo_ledger)).
Proof.
  apply (gives_insufficient_funds 0 demo_A demo_ledger demo_B 5 demo_world 3 [("X", 3)]).
  - exact demo_allocated.
  - vm_compute. reflexivity.
  - lia.
Defined.


(** ** Proof of work *)

Lemma search_sound fuel last_proof rate p0 p :
  search fuel last_proof rate p0 = Some p ->
  valid_proof last_proof p rate = true
  /\ p0 <= p
  /\ forall q, p0 <= q < p -> valid_proof last_proof q rate = false.
Proof.
  revert p0. induction fuel as [|fuel IH]; intros p0; simpl; [discriminate |].
  destruct (valid_proof last_proof p0 rate) eqn:E.
  - intros H. inversion H; subst. repeat split; [assumption | lia | intros q Hq; lia].
  - intros H. apply IH in H as (Hv & Hle & Hmin). repeat split; [assumption | lia |].
    intros q Hq. destruct (Z.eq_dec q p0) as [-> | Hne]; [assumption | apply Hmin; lia].
Qed.

(** Enough fuel finds the first valid proof. *)
Lemma search_complete last_proof rate p :
  0 <= p ->
  valid_proof last_proof p rate = true ->
  (forall q, 0 <= q < p -> valid_proof last_proof q rate = false) ->
  forall fuel, (Z.to_nat p < fuel)%nat -> search fuel last_proof rate 0 = Some p.
Proof.
  intros Hp Hv Hmin fuel Hfuel.
  enough (G : forall n p0 fuel', (Z.to_nat (p - p0) = n) -> 0 <= p0 <= p ->
                (n < fuel')%nat -> search fuel' last_proof rate p0 = Some p).
  { apply (G (Z.to_nat p)); [f_equal; lia | lia | assumption]. }
  induction n as [|n IH]; intros p0 fuel' Hn Hp0 Hf; (destruct fuel' as [|fuel']; [lia |]); simpl.
  - assert (p0 = p) by lia. subst. now rewrite Hv.
  - rewrite Hmin by lia. apply IH; lia.
Qed.

Example search_demo : search 5 8848 4 0 = Some 4.
Proof. vm_compute. reflexivity. Qed.

(** The search of proof_of_work ends as soon as a valid proof exists and
    the fuel reaches it. *)
Lemma search_finds last_proof rate p :
  0 <= p -> valid_proof last_proof p rate = true ->
  forall fuel, (Z.to_nat p < fuel)%nat ->
  exists q, search fuel last_proof rate 0 = Some q /\ 0 <= q <= p.
Proof.
  intros Hp Hv fuel Hfuel.
  enough (G : forall fuel' p0, 0 <= p0 <= p -> (Z.to_nat (p - p0) < fuel')%nat ->
                exists q, search fuel' last_proof rate p0 = Some q /\ p0 <= q <= p).
  { destruct (G fuel 0) as (q & Hq & Hr); [lia | | eauto].
    replace (p - 0) with p by lia. exact Hfuel. }
  induction fuel' as [|fuel' IH]; intros p0 Hp0 Hf; [lia |]. simpl.
  destruct (valid_proof last_proof p0 rate) eqn:E.
  - exists p0. split; [reflexivity | lia].
  - assert (p0 <> p) by congruence.
    destruct (IH (p0 + 1)) as (q & Hq & Hr); [lia | lia |].
    exists q. split; [exact Hq | lia].
Qed.

Lemma proof_of_work_returns fuel self last_proof p w :
  0 <= p -> valid_proof last_proof p (mining_rate self) = true ->
  (Z.to_nat p < fuel)%nat ->
  exists q,
    proof_of_work fuel self last_proof w
    = Return (MkBlockchain (current_transactions self) (chain self) (nodes self)
                           (mining_rate self) (proof_sum self + q) (proof_cnt self + 1), q) w
    /\ valid_proof last_proof q (mining_rate self) = true.
Proof.
  intros Hp Hv Hfuel.
  destruct (search_finds last_proof (mining_rate self) p Hp Hv fuel Hfuel) as (q & Hq & _).
  exists q. unfold proof_of_work. rewrite Hq. split; [reflexivity |].
  apply search_sound in Hq. apply Hq.
Qed.

(** At a mining rate other than 4 no proof is valid, and the search never
    ends. *)
Lemma search_other_rate fuel last_proof rate p0 :
  rate <> 4 -> search fuel last_proof rate p0 = None.
Proof.
  intros Hr. revert p0. induction fuel as [|fuel IH]; intros p0; simpl; [reflexivity |].
  destruct (valid_proof last_proof p0 rate) eqn:E; [| apply IH].
  apply valid_proof_rate in E. contradiction.
Qed.

Lemma last_block_inv self w b w' :
  last_block self w = Return b w' -> w' = w /\ last (blists w (chain self)) = Some b.
Proof.
  unfold last_block, bind, get_blist. destruct (last (blists w (chain self))); [| discriminate].
  intros H. inversion H; subst. auto.
Qed.

Lemma work_for_proof_inv fuel self w self' p w' :
  work_for_proof fuel self w = Return (self', p) w' ->
  w' = w
  /\ self' = MkBlockchain (current_transactions self) (chain self) (nodes self)
                          (mining_rate self) (proof_sum self + p) (proof_cnt self + 1)
  /\ exists lb, last (blists w (chain self)) = Some lb
                /\ valid_proof (proof lb) p (mining_rate self) = true.
Proof.
  unfold work_for_proof. intros H. apply bind_inv in H as (lb & w1 & Hlb & H).
  apply last_block_inv in Hlb as [-> Hlast]. unfold proof_of_work in H.
  destruct (search fuel (proof lb) (mining_rate self) 0) as [p'|] eqn:Es; [| discriminate].
  inversion H; subst. apply search_sound in Es as (Hv & _).
  repeat split; eauto.
Qed.

Lemma hash_nonempty (b : blockv) : hash b <> "".
Proof.
  intros H. apply (f_equal String.length) in H. unfold hash in H.
  rewrite hexdigest_length in H. discriminate.
Qed.

(** The block lists are the same in [w] and [w']. *)
Lemma keeps_blists_new_transaction self sender recipient amount signature msg :
  keeps (fun w w' => blists w' = blists w)
        (new_transaction self sender recipient amount signature msg).
Proof.
  intros w a w' H. unfold new_transaction, tlist_append, bind, get_tlist, set_tlist in H.
  simpl in H. unfold last_block, bind, get_blist in H. simpl in H.
  destruct (last (blists w (chain self))); inversion H; reflexivity.
Qed.

Lemma keeps_blists_only_draws {A} (c : M A) :
  keeps only_draws c -> keeps (fun w w' => blists w' = blists w) c.
Proof. intros Hc w a w' H. apply Hc in H as ((_ & _ & Hbl & _) & _). exact Hbl. Qed.

Lemma keeps_blists_gives_loop self copy items :
  forall due recepient,
  keeps (fun w w' => blists w' = blists w) (gives_loop self copy items due recepient).
Proof.
  induction items as [|[payer coins] items IH]; intros due recepient; simpl.
  - apply keeps_ret. reflexivity.
  - destruct (coins <? 0); [apply keeps_raise |].
    destruct (coins =? 0); [apply IH |].
    apply keeps_bind; [congruence | apply keeps_blists_only_draws, keeps_time |].
    intros t. apply keeps_bind; [congruence | apply keeps_blists_only_draws, keeps_new_address |].
    intros [r a]. apply keeps_bind; [congruence | apply keeps_blists_new_transaction |].
    intros _. destruct (_ =? 0); [apply keeps_ret; reflexivity |].
    destruct (_ <? 0); [apply keeps_raise | apply IH].
Qed.

Lemma clone_mining_rate self w copy w' :
  clone self w = Return copy w' ->
  mining_rate copy = 4 /\ proof_sum copy = 0 /\ proof_cnt copy = 0 /\ nodes copy = nodes self.
Proof.
  intros H. destruct (clone_fields self w) as (copy' & w'' & E & Hf).
  rewrite E in H. inversion H; subst. exact Hf.
Qed.

(** What the loop of valid_chain accepts: every block names the hash of the
    block before it and carries a proof valid against that block's proof. *)
Lemma valid_chain_from_spec self last_block rest :
  valid_chain_from self last_block rest = true
  <-> forall i a b, (last_block :: rest) !! i = Some a ->
                    (last_block :: rest) !! S i = Some b ->
                    previous_hash b = hash a
                    /\ valid_proof (proof a) (proof b) (mining_rate self) = true.
Proof.
  revert last_block. induction rest as [|blk rest IH]; intros lb; simpl.
  - split; [| reflexivity]. intros _ i a b _ Hb. destruct i; discriminate.
  - destruct (String.eqb_spec (previous_hash blk) (hash lb)) as [Hh | Hh]; simpl.
    + destruct (valid_proof (proof lb) (proof blk) (mining_rate self)) eqn:Hv; simpl.
      * rewrite IH. split.
        -- intros H [|i] a b Ha Hb; simpl in *.
           ++ inversion Ha; inversion Hb; subst. auto.
           ++ eapply H; eassumption.
        -- intros H i a b Ha Hb. apply (H (S i)); assumption.
      * split; [discriminate |]. intros H.
        destruct (H 0%nat lb blk eq_refl eq_refl) as [_ Hv']. congruence.
    + split; [discriminate |]. intros H.
      destruct (H 0%nat lb blk eq_refl eq_refl) as [Hh' _]. contradiction.
Qed.

Lemma new_block_hash_inv self p (b : blockv) w self' blk w' :
  new_block self p (Some (hash b)) w = Return (self', blk) w' ->
  mining_rate self' = mining_rate self
  /\ chain self' = chain self
  /\ proof blk = p
  /\ blists w' (chain self) = blists w (chain self) ++ [blk].
Proof.
  rewrite new_block_given by apply hash_nonempty. intros H. inversion H; subst.
  unfold sealed, resealed, next_block. simpl. rewrite fn_lookup_insert. auto.
Qed.

(** The fork that gives returns was mined at mining rate 4. *)
Lemma gives_fork_rate fuel self blockchain recepient amount w fork recepient' w' :
  gives fuel self blockchain recepient amount w = Return (fork, recepient') w' ->
  mining_rate fork = 4
  /\ exists l lb nb, blists w' (chain fork) = l ++ [lb; nb]
                     /\ valid_proof (proof lb) (proof nb) 4 = true.
Proof.
  unfold gives. intros H.
  apply bind_inv in H as (copy & w1 & Hclone & H).
  apply bind_inv in H as ([held bal] & w2 & Hbal & H).
  destruct (amount >? held); [discriminate |].
  apply bind_inv in H as (r1 & w3 & Hloop & H).
  apply bind_inv in H as (lb & w4 & Hlb & H).
  apply last_block_inv in Hlb as [-> Hlast].
  apply bind_inv in H as (ph & w5 & Hph & H).
  unfold hash_of in Hph. inversion Hph; subst; clear Hph.
  apply bind_inv in H as ([copy' p] & w6 & Hwork & H).
  apply work_for_proof_inv in Hwork as (-> & -> & lb' & Hlast' & Hv).
  apply bind_inv in H as ([copy'' blk] & w7 & Hnew & H).
  inversion H; subst; clear H.
  apply new_block_hash_inv in Hnew as (Hrate & Hchain & Hproof & Hbl). simpl in *.
  apply clone_mining_rate in Hclone as (Hr & _).
  rewrite Hlast in Hlast'. inversion Hlast'; subst lb'.
  split; [congruence |].
  apply last_Some in Hlast as [l Hl].
  exists l, lb, blk. rewrite Hchain, Hbl, Hl, <- app_assoc. split; [reflexivity |].
  rewrite Hr in Hv. congruence.
Qed.

(** The fork that mine returns was mined at mining rate 4. *)
Lemma mine_fork_rate fuel self blockchain w self' fork w' :
  mine fuel self blockchain false w = Return (self', Some fork) w' ->
  mining_rate fork = 4
  /\ exists l lb nb, blists w' (chain fork) = l ++ [lb; nb]
                     /\ valid_proof (proof lb) (proof nb) 4 = true.
Proof.
  unfold mine. intros H.
  apply bind_inv in H as (copy & w1 & Hclone & H).
  apply bind_inv in H as (lb & w2 & Hlb & H).
  apply last_block_inv in Hlb as [-> Hlast].
  apply bind_inv in H as ([copy' p] & w3 & Hwork & H).
  apply work_for_proof_inv in Hwork as (-> & -> & lb' & Hlast' & Hv).
  apply bind_inv in H as ([self1 address] & w4 & Haddr & H).
  apply bind_inv in H as (i & w5 & Htx & H).
  apply bind_inv in H as (ph & w6 & Hph & H).
  unfold hash_of in Hph. inversion Hph; subst; clear Hph.
  apply bind_inv in H as ([copy'' blk] & w7 & Hnew & H).
  inversion H; subst; clear H.
  apply new_block_hash_inv in Hnew as (Hrate & Hchain & Hproof & Hbl). simpl in *.
  apply clone_mining_rate in Hclone as (Hr & _).
  rewrite Hlast in Hlast'. inversion Hlast'; subst lb'.
  apply (keeps_blists_only_draws _ (keeps_new_address self)) in Haddr.
  apply keeps_blists_new_transaction in Htx.
  split; [congruence |].
  apply last_Some in Hlast as [l Hl].
  exists l, lb, blk. rewrite Hchain, Hbl, Htx, Haddr, Hl, <- app_assoc. split; [reflexivity |].
  rewrite Hr in Hv. congruence.
Qed.

(** C9. A clone has mining rate 4 and zeroed proof statistics whatever its
    source has; so the forks that gives and mine return carry a last block
    whose proof is valid at rate 4 against the block before it, and
    valid_chain on a clone accepts only chains whose proofs are valid at
    rate 4. *)
Theorem clone_resets_mining_rate :
  (forall self w, exists copy w',
      clone self w = Return copy w'
      /\ mining_rate copy = 4 /\ proof_sum copy = 0 /\ proof_cnt copy = 0)
  /\ (forall fuel self blockchain recepient amount w fork recepient',
        value (gives fuel self blockchain recepient amount w) = Some (fork, recepient') ->
        mining_rate fork = 4
        /\ exists w' l lb nb,
             gives fuel self blockchain recepient amount w = Return (fork, recepient') w'
             /\ blists w' (chain fork) = l ++ [lb; nb]
             /\ valid_proof (proof lb) (proof nb) 4 = true)
  /\ (forall fuel self blockchain w self' fork,
        value (mine fuel self blockchain false w) = Some (self', Some fork) ->
        mining_rate fork = 4
        /\ exists w' l lb nb,
             mine fuel self blockchain false w = Return (self', Some fork) w'
             /\ blists w' (chain fork) = l ++ [lb; nb]
             /\ valid_proof (proof lb) (proof nb) 4 = true)
  /\ (forall self w copy l silence,
        value (clone self w) = Some copy ->
        valid_chain copy l silence = Ok true ->
        forall i a b, l !! i = Some a -> l !! S i = Some b ->
                      valid_proof (proof a) (proof b) 4 = true).
Proof.
  split; [| split; [| split]].
  - intros self w. destruct (clone_fields self w) as (copy & w' & E & H1 & H2 & H3 & _).
    eauto 6.
  - intros fuel self blockchain recepient amount w fork recepient' Hv.
    apply value_inv in Hv as [w' E].
    destruct (gives_fork_rate _ _ _ _ _ _ _ _ _ E) as (Hr & l & lb & nb & Hl & Hp).
    split; [exact Hr |]. exists w', l, lb, nb. auto.
  - intros fuel self blockchain w self' fork Hv.
    apply value_inv in Hv as [w' E].
    destruct (mine_fork_rate _ _ _ _ _ _ _ E) as (Hr & l & lb & nb & Hl & Hp).
    split; [exact Hr |]. exists w', l, lb, nb. auto.
  - intros self w copy l silence Hclone Hvalid i a b Ha Hb.
    apply value_inv in Hclone as [w' Hclone].
    apply clone_mining_rate in Hclone as (Hr & _).
    destruct l as [|lb rest]; [discriminate |]. simpl in Hvalid.
    assert (Hv : valid_chain_from copy lb rest = true) by congruence.
    rewrite valid_chain_from_spec in Hv. destruct (Hv i a b Ha Hb) as [_ Hp].
    rewrite Hr in Hp. exact Hp.
Qed.

Lemma clone_resets_mining_rate_witness :
  (exists fork recepient',
      mining_rate fork = 4
      /\ exists w' l lb nb,
           gives 5 demo_A (MkBlockchain 2 0 [] 7 0 0) demo_B 2 demo_world
           = Return (fork, recepient') w'
           /\ blists w' (chain fork) = l ++ [lb; nb]
           /\ valid_proof (proof lb) (proof nb) 4 = true)
  /\ (exists self' fork,
        mining_rate fork = 4
        /\ exists w' l lb nb,
             mine 5 demo_A (MkBlockchain 2 0 [] 7 0 0) false demo_world
             = Return (self', Some fork) w'
             /\ blists w' (chain fork) = l ++ [lb; nb]
             /\ valid_proof (proof lb) (proof nb) 4 = true)
  /\ (forall i a b,
        load_chain demo_world 0 !! i = Some a ->
        load_chain demo_world 0 !! S i = Some b ->
        valid_proof (proof a) (proof b) 4 = true).
Proof.
  destruct clone_resets_mining_rate as (_ & Hgives & Hmine & Hvalid).
  split; [| split].
  - eexists _, _.
    apply (Hgives 5%nat demo_A (MkBlockchain 2 0 [] 7 0 0) demo_B 2 demo_world).
    vm_compute. reflexivity.
  - eexists _, _.
    apply (Hmine 5%nat demo_A (MkBlockchain 2 0 [] 7 0 0) demo_world).
    vm_compute. reflexivity.
  - eapply (Hvalid (MkBlockchain 2 0 [] 7 0 0) demo_world _ (load_chain demo_world 0) true);
      vm_compute; reflexivity.
Defined.

(** ** The chain invariant *)


Lemma last_map {A B} (f : A -> B) (l : list A) : last (map f l) = option_map f (last l).
Proof.
  induction l as [|a [|b l] IH]; [reflexivity | reflexivity |].
  change (last (f a :: f b :: map f l)) with (last (map f (b :: l))). exact IH.
Qed.

Lemma new_transaction_inv self from to coins sig msg w i w' :
  new_transaction self from to coins sig msg w = Return i w' ->
  exists t,
    w' = World (<[current_transactions self := tlists w (current_transactions self) ++ [t]]>
                  (tlists w))
               (tnext w) (blists w) (bnext w) (clock w) (ticks w) (uuids w) (drawn w)
    /\ sender t = from /\ recipient t = to /\ amount t = coins.
Proof.
  destruct (last (blists w (chain self))) as [lb|] eqn:Hlast.
  - rewrite (new_transaction_eq _ _ _ _ _ _ lb) by assumption. intros H. inversion H; subst.
    eexists. split; [reflexivity |]. destruct (_ && _); auto.
  - unfold new_transaction, tlist_append, bind, get_tlist, set_tlist, last_block, bind,
      get_blist. simpl. rewrite Hlast. discriminate.
Qed.

Lemma new_block_inv self p ph w self' blk w' :
  new_block self p ph w = Return (self', blk) w' ->
  exists s,
    self' = resealed w self /\ blk = next_block w self p s /\ w' = sealed w self blk
    /\ (truthy_str ph = true /\ ph = Some s
        \/ truthy_str ph = false
           /\ exists lb, last (blists w (chain self)) = Some lb /\ s = hash (load_block w lb)).
Proof.
  destruct (truthy_str ph) eqn:Hph.
  - destruct ph as [s|]; [| discriminate]. simpl in Hph.
    rewrite new_block_given by (intros ->; discriminate).
    intros H. inversion H; subst. exists s. repeat split. left. auto.
  - destruct (last (blists w (chain self))) as [lb|] eqn:Hlast.
    + rewrite (new_block_fallback _ _ _ lb) by assumption. intros H. inversion H; subst.
      eexists. split; [reflexivity |]. split; [reflexivity |]. split; [reflexivity |].
      right. split; [reflexivity |]. eauto.
    + apply last_None in Hlast. destruct (new_block_empty self p ph w Hph Hlast) as [w1 E].
      rewrite E. discriminate.
Qed.




(** ** some_fake *)

(** A two-block chain that valid_chain accepts. *)
Lemma valid_pair self (g b : blockv) silence :
  valid_chain self [g; b] silence = Ok true
  <-> previous_hash b = hash g /\ valid_proof (proof g) (proof b) (mining_rate self) = true.
Proof.
  simpl. destruct (String.eqb_spec (previous_hash b) (hash g)); simpl.
  - destruct (valid_proof _ _ _); simpl; split; intros H; try discriminate; auto.
    destruct H; discriminate.
  - split; [discriminate | tauto].
Qed.

Lemma some_fake_loop_skip self faked i block rest w :
  find (fun t => truthy_addr (recipient t)) (tlists w (transactions block)) = None ->
  some_fake_loop self faked i (block :: rest) w = some_fake_loop self faked (S i) rest w.
Proof.
  intros Hfind. simpl. unfold bind at 1. unfold get_tlist at 1. rewrite Hfind. reflexivity.
Qed.

Lemma some_fake_loop_hit self faked i block rest w t :
  find (fun t => truthy_addr (recipient t)) (tlists w (transactions block)) = Some t ->
  dict_get (pairs (crypto self)) (str_remove "-" (uuids w (drawn w))) = None ->
  some_fake_loop self faked i (block :: rest) w
  = Return (MkEnt (name self)
                  (dict_set (keys self) (str_remove "-" (uuids w (drawn w)))
                            (str_remove "-" (uuids w (S (drawn w)))))
                  (MkPyCryptoSim
                     (dict_set (pairs (crypto self)) (str_remove "-" (uuids w (drawn w)))
                               (str_remove "-" (uuids w (S (drawn w)))))),
            faked)
           (World (<[tnext w := tlists w (transactions block)
                                 ++ [Transaction (sender t)
                                       (PTuple1 (str_remove "-" (uuids w (drawn w))))
                                       (amount t) (signature t) (message t)]]>
                     (<[tnext w := tlists w (transactions block)]> (tlists w)))
                  (S (tnext w))
                  (<[chain faked :=
                       <[i := Block (index block) (timestamp block) (tnext w) (proof block)
                                    (previous_hash block)]> (blists w (chain faked))]>
                     (blists w))
                  (bnext w) (clock w) (ticks w) (uuids w) (S (S (drawn w)))).
Proof.
  intros Hfind Hfresh. simpl. unfold bind at 1. unfold get_tlist at 1. rewrite Hfind.
  unfold bind at 1. rewrite new_address_eq, Hfresh.
  unfold bind, alloc_tlist, tlist_append, bind, get_tlist, set_tlist, get_blist, set_blist, ret.
  simpl. rewrite fn_lookup_insert. reflexivity.
Qed.

(** C5. some_fake on a two-block ledger that valid_chain accepts, whose
    genesis block has no transactions and whose second block has a
    transaction with a recipient, returns a fork whose second block carries
    one more transaction, to a substituted recipient, and valid_chain
    accepts the fork as well: at the fork's own mining rate, and at any
    mining rate at which it accepts the original chain. *)
Theorem some_fake_undetected self blockchain w g b t :
  allocated w blockchain ->
  blists w (chain blockchain) = [g; b] ->
  tlists w (transactions g) = [] ->
  find (fun t => truthy_addr (recipient t)) (tlists w (transactions b)) = Some t ->
  dict_get (pairs (crypto self)) (str_remove "-" (uuids w (drawn w))) = None ->
  valid_chain blockchain (load_chain w (chain blockchain)) true = Ok true ->
  exists self' faked w',
    some_fake self blockchain w = Return (self', faked) w'
    /\ load_chain w' (chain faked)
       = [load_block w g;
          Block (index b) (timestamp b)
                (tlists w (transactions b)
                 ++ [Transaction (sender t) (PTuple1 (str_remove "-" (uuids w (drawn w))))
                                 (amount t) (signature t) (message t)])
                (proof b) (previous_hash b)]
    /\ valid_chain faked (load_chain w' (chain faked)) true = Ok true
    /\ (forall validator,
          valid_chain validator (load_chain w (chain blockchain)) true = Ok true ->
          valid_chain validator (load_chain w' (chain faked)) true = Ok true)
    /\ load_chain w' (chain blockchain) = load_chain w (chain blockchain).
Proof.
  intros Halloc Hchain Hg Hfind Hfresh Hvalid.
  destruct (clone_spec blockchain w Halloc)
    as (w1 & Hclone & Hle & Htn & Hbn & _ & Hbl1 & _ & Hu & _ & Hd).
  pose proof Halloc as (Hch & Hct & Hall). rewrite Hchain in Hall.
  apply Forall_cons in Hall as [Hgt Hall]. apply Forall_cons in Hall as [Hbt _].
  pose proof Hle as (_ & _ & Htl1 & Hblw).
  unfold some_fake. rewrite (bind_Return _ _ _ _ _ Hclone).
  unfold bind at 1. unfold get_blist at 1. simpl chain. rewrite Hbl1, Hchain.
  rewrite some_fake_loop_skip by (rewrite (Htl1 _ Hgt), Hg; reflexivity).
  rewrite (some_fake_loop_hit _ _ _ _ _ _ t)
    by (rewrite ?(Htl1 _ Hbt), ?Hu, ?Hd; assumption).
  simpl chain. rewrite Hbl1, Hchain, (Htl1 _ Hbt), Hu, Hd. simpl.
  eexists _, _, _. split; [reflexivity |].
  match goal with |- load_chain ?W _ = _ /\ _ => set (w' := W) end.
  assert (Hload :
    load_chain w' (S (bnext w))
    = [load_block w g;
       Block (index b) (timestamp b)
             (tlists w (transactions b)
              ++ [Transaction (sender t) (PTuple1 (str_remove "-" (uuids w (drawn w))))
                              (amount t) (signature t) (message t)])
             (proof b) (previous_hash b)]).
  { subst w'. unfold load_chain, load_block. simpl. rewrite !fn_lookup_insert. simpl.
    rewrite !fn_lookup_insert. rewrite !fn_lookup_insert_ne by lia.
    rewrite (Htl1 _ Hgt). reflexivity. }
  cbn [chain]. split; [exact Hload |].
  unfold load_chain in Hvalid. rewrite Hchain in Hvalid. simpl map in Hvalid.
  split; [| split].
  - rewrite Hload. apply valid_pair. apply valid_pair in Hvalid as [Hh Hp]. simpl in *.
    split; [exact Hh |]. pose proof (valid_proof_rate _ _ _ Hp) as Hr.
    rewrite Hr in Hp. exact Hp.
  - intros validator Hv. rewrite Hload. unfold load_chain in Hv. rewrite Hchain in Hv.
    simpl map in Hv. apply valid_pair. apply valid_pair in Hv. exact Hv.
  - subst w'. unfold load_chain, load_block. simpl.
    rewrite fn_lookup_insert_ne by lia. rewrite (Hblw _ Hch), Hchain. simpl.
    rewrite !fn_lookup_insert_ne by lia. rewrite (Htl1 _ Hgt), (Htl1 _ Hbt). reflexivity.
Qed.

Lemma some_fake_undetected_witness :
  exists self' faked w',
    some_fake demo_A demo_ledger demo_world = Return (self', faked) w'
    /\ load_chain w' (chain faked)
       = [load_block demo_world demo_genesis;
          Block 2 (PyFloat 1699999995 "75")
                ([demo_reward] ++ [Transaction "0" (PTuple1 "8f1c0") 3 None None])
                8848 (previous_hash demo_block2)]
    /\ valid_chain faked (load_chain w' (chain faked)) true = Ok true
    /\ (forall validator,
          valid_chain validator (load_chain demo_world (chain demo_ledger)) true = Ok true ->
          valid_chain validator (load_chain w' (chain faked)) true = Ok true)
    /\ load_chain w' (chain demo_ledger) = load_chain demo_world (chain demo_ledger).
Proof.
  apply (some_fake_undetected demo_A demo_ledger demo_world demo_genesis demo_block2
                              demo_reward).
  - exact demo_allocated.
  - reflexivity.
  - reflexivity.
  - reflexivity.
  - vm_compute. reflexivity.
  - vm_compute. reflexivity.
Defined.

(** ** balance and the recorded signatures *)

Lemma registered_demo_A : registered demo_A.
Proof.
  split.
  - apply NoDup_singleton.
  - intros pk sk [H | []]. inversion H; subst. reflexivity.
Qed.

(** C2, as stated, fails: the transaction [forged_payment] does not verify
    on the signature and message it records, and balance debits its sender
    all the same. *)
Lemma balance_debits_unverified :
  recorded_verify (crypto demo_A) forged_payment = false
  /\ all_transactions forged_world demo_ledger = [forged_payment]
  /\ value (balance demo_A demo_ledger forged_world) = Some (-5, [("X", -5)]).
Proof. repeat split; vm_compute; reflexivity. Qed.

Lemma fold_left_sum (items : list (string * Z)) (t0 : Z) :
  fold_left (fun t item => t + snd item) items t0 = t0 + sum_coins items.
Proof.
  revert t0. induction items as [|item items IH]; intros t0; simpl; [lia |].
  rewrite IH. unfold sum_coins. lia.
Qed.

(** One transaction, as balance looks at it for the address [pk]: the clock
    is read when [pk] is the sender, a uuid is drawn when [pk] is the
    recipient, and the entry of [pk] moves by the amounts so checked. *)
Lemma checked_tx self pk sk ks f t w :
  NoDup ks -> In pk ks ->
  exists f' w',
    balance_tx self pk sk (dict_of ks f) t w = Return (dict_of ks f') w'
    /\ only_draws w w'
    /\ ticks w' = (if reads_clock pk t then S (ticks w) else ticks w)
    /\ drawn w' = (if draws_uuid pk t then S (drawn w) else drawn w)
    /\ f' pk = f pk + checked_effect (crypto self) (clock w) (uuids w) pk sk t
                                     (ticks w) (drawn w)
    /\ forall k, k <> pk -> f' k = f k.
Proof.
  intros Hnd Hin. unfold balance_tx, checked_effect, reads_clock, draws_uuid, fresh_check.
  assert (H1 : exists f1 w1,
             (if String.eqb pk (sender t)
              then bind time (fun t0 =>
                     if verify (crypto self) (sender t) (repr_float t0)
                               (commit sk (repr_float t0))
                     then dict_add (dict_of ks f) pk (- amount t)
                     else ret (dict_of ks f))
              else ret (dict_of ks f)) w = Return (dict_of ks f1) w1
             /\ only_draws w w1
             /\ ticks w1 = (if String.eqb pk (sender t) then S (ticks w) else ticks w)
             /\ drawn w1 = drawn w
             /\ f1 pk = f pk + (if String.eqb pk (sender t)
                                   && verify (crypto self) pk (repr_float (clock w (ticks w)))
                                             (commit sk (repr_float (clock w (ticks w))))
                                then - amount t else 0)
             /\ forall k, k <> pk -> f1 k = f k).
  { destruct (String.eqb_spec pk (sender t)) as [Hs | Hs].
    - unfold bind, time. rewrite <- Hs. cbn [andb].
      destruct (verify (crypto self) pk _ _).
      + rewrite dict_add_of by assumption. eexists _, _. split; [reflexivity |].
        split; [apply only_draws_tick |]. cbn [ticks drawn].
        split; [reflexivity |]. split; [reflexivity |].
        rewrite String.eqb_refl. split; [reflexivity |].
        intros k Hk. destruct (String.eqb_spec k pk); [contradiction | reflexivity].
      + exists f. eexists. split; [reflexivity |]. split; [apply only_draws_tick |].
        cbn [ticks drawn]. split; [reflexivity |]. split; [reflexivity |].
        split; [lia | reflexivity].
    - exists f, w. split; [reflexivity |]. split; [apply only_draws_refl |].
      split; [reflexivity |]. split; [reflexivity |]. cbn [andb].
      split; [lia | reflexivity]. }
  destruct H1 as (f1 & w1 & E1 & Hd1 & Hti1 & Hdr1 & Hf1 & Hother1).
  rewrite (bind_Return _ _ _ _ _ E1).
  pose proof Hd1 as (_ & _ & Hu1 & _).
  assert (Hv : uuids w1 (drawn w1) = uuids w (drawn w)) by (rewrite Hu1, Hdr1; reflexivity).
  destruct (recipient t) as [r | r].
  - destruct (String.eqb_spec pk r) as [Hr | Hr].
    + unfold bind, uuid4. rewrite <- Hr, Hv. cbn [andb].
      destruct (verify (crypto self) pk (uuids w (drawn w)) _).
      * rewrite dict_add_of by assumption. eexists _, _. split; [reflexivity |].
        split; [eapply only_draws_trans; [exact Hd1 | apply only_draws_draw] |].
        cbn [ticks drawn]. rewrite Hdr1.
        split; [exact Hti1 |]. split; [reflexivity |].
        rewrite String.eqb_refl, Hf1. split; [lia |].
        intros k Hk. destruct (String.eqb_spec k pk); [contradiction | auto].
      * exists f1. eexists. split; [reflexivity |].
        split; [eapply only_draws_trans; [exact Hd1 | apply only_draws_draw] |].
        cbn [ticks drawn]. rewrite Hdr1.
        split; [exact Hti1 |]. split; [reflexivity |].
        split; [rewrite Hf1; lia | assumption].
    + exists f1, w1. split; [reflexivity |]. split; [assumption |].
      split; [exact Hti1 |]. split; [exact Hdr1 |]. cbn [andb].
      split; [rewrite Hf1; lia | assumption].
  - exists f1, w1. split; [reflexivity |]. split; [assumption |].
    split; [exact Hti1 |]. split; [exact Hdr1 |]. cbn [andb].
    split; [rewrite Hf1; lia | assumption].
Qed.

Lemma clock_reads_cons pk t txs :
  clock_reads pk (t :: txs) = ((if reads_clock pk t then 1 else 0) + clock_reads pk txs)%nat.
Proof. unfold clock_reads. simpl. destruct (reads_clock pk t); reflexivity. Qed.

Lemma uuid_draws_cons pk t txs :
  uuid_draws pk (t :: txs) = ((if draws_uuid pk t then 1 else 0) + uuid_draws pk txs)%nat.
Proof. unfold uuid_draws. simpl. destruct (draws_uuid pk t); reflexivity. Qed.

Lemma clock_reads_app pk l1 l2 :
  clock_reads pk (l1 ++ l2) = (clock_reads pk l1 + clock_reads pk l2)%nat.
Proof. unfold clock_reads. rewrite List.filter_app, length_app. reflexivity. Qed.

Lemma uuid_draws_app pk l1 l2 :
  uuid_draws pk (l1 ++ l2) = (uuid_draws pk l1 + uuid_draws pk l2)%nat.
Proof. unfold uuid_draws. rewrite List.filter_app, length_app. reflexivity. Qed.

Lemma checked_net_app sim clock uuids pk sk l1 l2 :
  forall n d,
    checked_net sim clock uuids pk sk (l1 ++ l2) n d
    = checked_net sim clock uuids pk sk l1 n d
      + checked_net sim clock uuids pk sk l2 (n + clock_reads pk l1) (d + uuid_draws pk l1).
Proof.
  induction l1 as [|t l1 IH]; intros n d.
  - simpl. unfold clock_reads, uuid_draws. simpl. rewrite !Nat.add_0_r. reflexivity.
  - cbn [app checked_net]. rewrite IH, clock_reads_cons, uuid_draws_cons.
    assert (Hn : ((if reads_clock pk t then S n else n) + clock_reads pk l1
                  = n + ((if reads_clock pk t then 1 else 0) + clock_reads pk l1))%nat)
      by (destruct (reads_clock pk t); lia).
    assert (Hd : ((if draws_uuid pk t then S d else d) + uuid_draws pk l1
                  = d + ((if draws_uuid pk t then 1 else 0) + uuid_draws pk l1))%nat)
      by (destruct (draws_uuid pk t); lia).
    rewrite Hn, Hd. lia.
Qed.

Lemma checked_txs self pk sk ks (txs : list transaction) :
  NoDup ks -> In pk ks ->
  forall f w,
  exists f' w',
    foldM (balance_tx self pk sk) txs (dict_of ks f) w = Return (dict_of ks f') w'
    /\ only_draws w w'
    /\ ticks w' = (ticks w + clock_reads pk txs)%nat
    /\ drawn w' = (drawn w + uuid_draws pk txs)%nat
    /\ f' pk = f pk + checked_net (crypto self) (clock w) (uuids w) pk sk txs
                                  (ticks w) (drawn w)
    /\ forall k, k <> pk -> f' k = f k.
Proof.
  intros Hnd Hin. induction txs as [|t txs IH]; intros f w.
  - exists f, w. split; [reflexivity |]. split; [apply only_draws_refl |].
    unfold clock_reads, uuid_draws. simpl.
    split; [lia |]. split; [lia |]. split; [lia | reflexivity].
  - cbn [foldM].
    destruct (checked_tx self pk sk ks f t w Hnd Hin)
      as (f1 & w1 & E1 & Hd1 & Hti1 & Hdr1 & Hf1 & Ho1).
    rewrite (bind_Return _ _ _ _ _ E1).
    destruct (IH f1 w1) as (f2 & w2 & E2 & Hd2 & Hti2 & Hdr2 & Hf2 & Ho2).
    pose proof Hd1 as (_ & Hc1 & Hu1 & _).
    exists f2, w2. split; [exact E2 |]. split; [eapply only_draws_trans; eassumption |].
    rewrite clock_reads_cons, uuid_draws_cons.
    split; [rewrite Hti2, Hti1; destruct (reads_clock pk t); lia |].
    split; [rewrite Hdr2, Hdr1; destruct (draws_uuid pk t); lia |].
    split.
    + rewrite Hf2, Hf1, Hc1, Hu1, Hti1, Hdr1. cbn [checked_net]. lia.
    + intros k Hk. rewrite Ho2, Ho1 by assumption. reflexivity.
Qed.

Lemma checked_blocks self pk sk ks (blocks : list blockd) w0 :
  NoDup ks -> In pk ks ->
  forall f w,
  only_draws w0 w ->
  exists f' w',
    foldM (balance_block self pk sk) blocks (dict_of ks f) w = Return (dict_of ks f') w'
    /\ only_draws w w'
    /\ ticks w'
       = (ticks w + clock_reads pk (concat (map (fun b : blockd => tlists w0 (transactions b))
                                                blocks)))%nat
    /\ drawn w'
       = (drawn w + uuid_draws pk (concat (map (fun b : blockd => tlists w0 (transactions b))
                                               blocks)))%nat
    /\ f' pk = f pk + checked_net (crypto self) (clock w0) (uuids w0) pk sk
                        (concat (map (fun b : blockd => tlists w0 (transactions b)) blocks))
                        (ticks w) (drawn w)
    /\ forall k, k <> pk -> f' k = f k.
Proof.
  intros Hnd Hin. induction blocks as [|b blocks IH]; intros f w Hw.
  - exists f, w. split; [reflexivity |]. split; [apply only_draws_refl |].
    unfold clock_reads, uuid_draws. simpl.
    split; [lia |]. split; [lia |]. split; [lia | reflexivity].
  - cbn [foldM map concat].
    pose proof Hw as ((Htl & _) & Hc & Hu & _).
    assert (E1 : exists f1 w1,
               balance_block self pk sk (dict_of ks f) b w = Return (dict_of ks f1) w1
               /\ only_draws w w1
               /\ ticks w1 = (ticks w + clock_reads pk (tlists w0 (transactions b)))%nat
               /\ drawn w1 = (drawn w + uuid_draws pk (tlists w0 (transactions b)))%nat
               /\ f1 pk = f pk + checked_net (crypto self) (clock w0) (uuids w0) pk sk
                                   (tlists w0 (transactions b)) (ticks w) (drawn w)
               /\ forall k, k <> pk -> f1 k = f k).
    { unfold balance_block, bind, get_tlist. rewrite Htl.
      destruct (tlists w0 (transactions b)) as [|t txs] eqn:Etx.
      - exists f, w. split; [reflexivity |]. split; [apply only_draws_refl |].
        unfold clock_reads, uuid_draws. simpl.
        split; [lia |]. split; [lia |]. split; [lia | reflexivity].
      - rewrite <- Hc, <- Hu. apply checked_txs; assumption. }
    destruct E1 as (f1 & w1 & E1 & Hd1 & Hti1 & Hdr1 & Hf1 & Ho1).
    rewrite (bind_Return _ _ _ _ _ E1).
    destruct (IH f1 w1) as (f2 & w2 & E2 & Hd2 & Hti2 & Hdr2 & Hf2 & Ho2).
    { eapply only_draws_trans; eassumption. }
    exists f2, w2. split; [exact E2 |]. split; [eapply only_draws_trans; eassumption |].
    rewrite clock_reads_app, uuid_draws_app, checked_net_app.
    split; [rewrite Hti2, Hti1; lia |]. split; [rewrite Hdr2, Hdr1; lia |].
    split; [rewrite Hf2, Hf1, Hti1, Hdr1; lia |].
    intros k Hk. rewrite Ho2, Ho1 by assumption. reflexivity.
Qed.

Lemma checked_keys self blockchain ks w0 :
  NoDup ks ->
  forall items,
  NoDup (map fst items) ->
  (forall pk sk, In (pk, sk) items -> In pk ks) ->
  forall f w,
  only_draws w0 w ->
  exists f' w',
    foldM (balance_key self blockchain) items (dict_of ks f) w = Return (dict_of ks f') w'
    /\ only_draws w w'
    /\ (forall pk v,
          In (pk, v) (checked_balances (crypto self) (clock w0) (uuids w0) items
                        (all_transactions w0 blockchain) (ticks w) (drawn w)) ->
          f' pk = f pk + v)
    /\ (forall k, ~ In k (map fst items) -> f' k = f k).
Proof.
  intros Hnd. induction items as [|[pk sk] items IH]; intros Hndi Hitems f w Hw.
  - exists f, w. split; [reflexivity |]. split; [apply only_draws_refl |].
    split; [intros pk v [] | reflexivity].
  - simpl in Hndi. apply NoDup_cons in Hndi as [Hpk Hndi].
    pose proof (Hitems pk sk (or_introl eq_refl)) as Hin.
    cbn [foldM]. unfold balance_key at 1. unfold bind at 1. unfold get_blist at 1.
    unfold bind at 1. cbn [fst snd].
    assert (Hbl : blists w (chain blockchain) = blists w0 (chain blockchain)).
    { destruct Hw as ((_ & _ & Hbl & _) & _). now rewrite Hbl. }
    destruct (checked_blocks self pk sk ks (blists w (chain blockchain)) w0 Hnd Hin f w Hw)
      as (f1 & w1 & E1 & Hd1 & Hti1 & Hdr1 & Hf1 & Ho1).
    rewrite E1. rewrite Hbl in Hti1, Hdr1, Hf1. fold (all_transactions w0 blockchain) in *.
    destruct (IH Hndi (fun pk' sk' H => Hitems pk' sk' (or_intror H)) f1 w1)
      as (f2 & w2 & E2 & Hd2 & Hf2 & Ho2).
    { eapply only_draws_trans; eassumption. }
    exists f2, w2. split; [exact E2 |]. split; [eapply only_draws_trans; eassumption |].
    assert (Hfst : forall its n d k v,
               In (k, v) (checked_balances (crypto self) (clock w0) (uuids w0) its
                            (all_transactions w0 blockchain) n d) ->
               In k (map fst its)).
    { induction its as [|[k0 s0] its IHits]; intros n d k v; cbn [checked_balances map fst].
      - intros [].
      - intros [Heq | Hrest]; [left; congruence | right; eapply IHits; exact Hrest]. }
    split.
    + cbn [checked_balances]. intros k v [Heq | Hrest].
      * inversion Heq; subst k v. rewrite Ho2, Hf1; [reflexivity |].
        intros Hin'. apply Hpk. now apply list_elem_of_In.
      * rewrite <- Hti1, <- Hdr1 in Hrest. rewrite (Hf2 _ _ Hrest).
        rewrite Ho1; [reflexivity |]. intros ->. apply Hpk.
        apply list_elem_of_In. eapply Hfst. exact Hrest.
    + intros k Hk. simpl in Hk. rewrite Ho2 by tauto. apply Ho1. intros ->. apply Hk. now left.
Qed.

Lemma checked_balances_keys sim clock uuids items txs :
  forall n d, map fst (checked_balances sim clock uuids items txs n d) = map fst items.
Proof.
  induction items as [|[pk sk] items IH]; intros n d; [reflexivity |].
  cbn [checked_balances map fst]. f_equal. apply IH.
Qed.

Lemma dict_of_values (L : list (string * Z)) (g : string -> Z) :
  (forall pk v, In (pk, v) L -> g pk = v) -> dict_of (map fst L) g = L.
Proof.
  induction L as [|[k v] L IH]; intros Hg; [reflexivity |].
  unfold dict_of in *. cbn [map fst]. f_equal.
  - f_equal. apply Hg. now left.
  - apply IH. intros pk' v' Hin. apply Hg. now right.
Qed.

(** With a check whose outcome does not depend on the message, an address
    gains the net effect of every transaction naming it, or nothing. *)
Lemma checked_net_constant sim clock uuids pk sk (ok : bool) txs :
  (forall msg, fresh_check sim pk sk msg = ok) ->
  forall n d, checked_net sim clock uuids pk sk txs n d = if ok then net pk txs else 0.
Proof.
  intros Hok. induction txs as [|t txs IH]; intros n d.
  - destruct ok; reflexivity.
  - cbn [checked_net]. rewrite IH. unfold checked_effect. rewrite !Hok.
    unfold reads_clock, draws_uuid. simpl. unfold tx_effect.
    destruct ok; rewrite ?andb_true_r, ?andb_false_r; [| lia].
    destruct (String.eqb pk (sender t)); destruct (recipient t) as [r | r];
      try destruct (String.eqb pk r); lia.
Qed.

Lemma checked_balances_get sim clock uuids items txs pk sk :
  NoDup (map fst items) -> In (pk, sk) items ->
  forall n d, exists n' d',
    dict_get (checked_balances sim clock uuids items txs n d) pk
    = Some (checked_net sim clock uuids pk sk txs n' d').
Proof.
  induction items as [|[k s] items IH]; intros Hnd Hin n d; [destruct Hin |].
  simpl in Hnd. apply NoDup_cons in Hnd as [Hk Hnd].
  cbn [checked_balances dict_get]. destruct Hin as [Heq | Hin].
  - inversion Heq; subst k s. rewrite String.eqb_refl. eauto.
  - destruct (String.eqb_spec k pk) as [-> | Hne].
    + exfalso. apply Hk. apply list_elem_of_In. apply (in_map fst _ _ Hin).
    + apply IH; assumption.
Qed.

Lemma checked_net_unsigned sim clock uuids pk sk txs :
  forall n d,
    checked_net sim clock uuids pk sk (map unsigned txs) n d
    = checked_net sim clock uuids pk sk txs n d.
Proof.
  induction txs as [|t txs IH]; intros n d; [reflexivity |].
  cbn [map checked_net]. rewrite IH. reflexivity.
Qed.

Lemma clock_reads_unsigned pk txs : clock_reads pk (map unsigned txs) = clock_reads pk txs.
Proof.
  induction txs as [|t txs IH]; [reflexivity |].
  cbn [map]. rewrite !clock_reads_cons, IH. reflexivity.
Qed.

Lemma uuid_draws_unsigned pk txs : uuid_draws pk (map unsigned txs) = uuid_draws pk txs.
Proof.
  induction txs as [|t txs IH]; [reflexivity |].
  cbn [map]. rewrite !uuid_draws_cons, IH. reflexivity.
Qed.

(** The checks read the sender, the recipient and the amount only. *)
Lemma checked_balances_unsigned sim clock uuids items txs :
  forall n d,
    checked_balances sim clock uuids items (map unsigned txs) n d
    = checked_balances sim clock uuids items txs n d.
Proof.
  induction items as [|[pk sk] items IH]; intros n d; [reflexivity |].
  cbn [checked_balances].
  rewrite checked_net_unsigned, clock_reads_unsigned, uuid_draws_unsigned, IH. reflexivity.
Qed.

(** balance is the reading with fresh checks. *)
Lemma balance_checked self blockchain w :
  NoDup (map fst (keys self)) ->
  exists w',
    balance self blockchain w
    = Return (sum_coins (checked_balances (crypto self) (clock w) (uuids w) (keys self)
                           (all_transactions w blockchain) (ticks w) (drawn w)),
              checked_balances (crypto self) (clock w) (uuids w) (keys self)
                (all_transactions w blockchain) (ticks w) (drawn w)) w'
    /\ only_draws w w'.
Proof.
  intros Hnd. unfold balance. rewrite zero_balance_eq by assumption.
  destruct (checked_keys self blockchain (map fst (keys self)) w Hnd (keys self) Hnd)
    with (f := fun _ : string => 0) (w := w) as (f' & w' & E & Hd & Hf & _).
  { intros pk sk Hin. apply (in_map fst _ _ Hin). }
  { apply only_draws_refl. }
  rewrite (bind_Return _ _ _ _ _ E). exists w'. split; [| assumption].
  rewrite <- (checked_balances_keys (crypto self) (clock w) (uuids w) (keys self)
                (all_transactions w blockchain) (ticks w) (drawn w)).
  rewrite dict_of_values by (intros pk v Hin; rewrite (Hf pk v Hin); lia).
  rewrite fold_left_sum. reflexivity.
Qed.

Lemma checked_balances_constant sim clock uuids (oks : string -> bool) items txs :
  (forall pk sk msg, In (pk, sk) items -> fresh_check sim pk sk msg = oks pk) ->
  forall n d,
    checked_balances sim clock uuids items txs n d
    = map (fun item : string * string =>
             (fst item, if oks (fst item) then net (fst item) txs else 0)) items.
Proof.
  induction items as [|[pk sk] items IH]; intros Hok n d; [reflexivity |].
  cbn [checked_balances map fst]. f_equal.
  - f_equal. apply checked_net_constant. intros msg. apply Hok. now left.
  - apply IH. intros pk' sk' msg Hin. apply Hok. now right.
Qed.

(** C2, amended. balance never reads 'signature' or 'message'. For each
    address it holds, the entity commits a fresh message with the private
    key it holds and verifies that: str(time()) before a debit, a uuid
    before a credit. Whatever the keys, the balance of an address is the sum
    of the amounts so checked, [checked_balances], the total is the sum of
    the balances, and replacing what the transactions record under
    'signature' and 'message' changes nothing. For each address by itself:
    when the outcome of its check does not depend on the message, its
    balance is the net effect of every transaction naming it if the check
    succeeds, and 0 if it fails. The check succeeds for an address that the
    simulator registers under the key the entity holds, as new_address
    registers them, and fails for an address the simulator does not know. *)
Theorem balance_fresh_check self blockchain w :
  NoDup (map fst (keys self)) ->
  exists per w',
    balance self blockchain w = Return (sum_coins per, per) w'
    /\ only_draws w w'
    /\ per = checked_balances (crypto self) (clock w) (uuids w) (keys self)
               (all_transactions w blockchain) (ticks w) (drawn w)
    /\ map fst per = map fst (keys self)
    /\ (forall w2,
          clock w2 = clock w -> uuids w2 = uuids w ->
          ticks w2 = ticks w -> drawn w2 = drawn w ->
          map unsigned (all_transactions w2 blockchain)
          = map unsigned (all_transactions w blockchain) ->
          value (balance self blockchain w2) = Some (sum_coins per, per))
    /\ (forall pk sk ok,
          In (pk, sk) (keys self) ->
          (forall msg, verify (crypto self) pk msg (commit sk msg) = ok) ->
          dict_get per pk = Some (if ok then net pk (all_transactions w blockchain) else 0))
    /\ (forall pk sk,
          In (pk, sk) (keys self) ->
          dict_get (pairs (crypto self)) pk = Some sk ->
          dict_get per pk = Some (net pk (all_transactions w blockchain)))
    /\ (forall pk sk,
          In (pk, sk) (keys self) ->
          dict_get (pairs (crypto self)) pk = None ->
          dict_get per pk = Some 0)
    /\ (forall oks : string -> bool,
          (forall pk sk msg, In (pk, sk) (keys self) ->
             verify (crypto self) pk msg (commit sk msg) = oks pk) ->
          per = map (fun item : string * string =>
                       (fst item,
                        if oks (fst item)
                        then net (fst item) (all_transactions w blockchain) else 0))
                    (keys self)).
Proof.
  intros Hnd. destruct (balance_checked self blockchain w Hnd) as (w' & E & Hd).
  eexists _, w'. split; [exact E |]. split; [exact Hd |]. split; [reflexivity |].
  assert (Hone : forall pk sk ok,
             In (pk, sk) (keys self) ->
             (forall msg, verify (crypto self) pk msg (commit sk msg) = ok) ->
             dict_get (checked_balances (crypto self) (clock w) (uuids w) (keys self)
                         (all_transactions w blockchain) (ticks w) (drawn w)) pk
             = Some (if ok then net pk (all_transactions w blockchain) else 0)).
  { intros pk sk ok Hin Hok.
    destruct (checked_balances_get (crypto self) (clock w) (uuids w) (keys self)
                (all_transactions w blockchain) pk sk Hnd Hin (ticks w) (drawn w))
      as (n' & d' & Hget).
    rewrite Hget. f_equal. apply checked_net_constant. exact Hok. }
  split; [apply checked_balances_keys |]. split; [| split; [exact Hone | split; [| split]]].
  - intros w2 Hc Hu Ht Hdr Hsame.
    destruct (balance_checked self blockchain w2 Hnd) as (w2' & E2 & _).
    rewrite E2. cbn [value]. rewrite Hc, Hu, Ht, Hdr.
    rewrite <- (checked_balances_unsigned _ _ _ _ (all_transactions w2 blockchain)).
    rewrite <- (checked_balances_unsigned _ _ _ _ (all_transactions w blockchain)).
    rewrite Hsame. reflexivity.
  - intros pk sk Hin Hreg. apply (Hone pk sk true Hin).
    intros msg. unfold verify. rewrite Hreg. apply String.eqb_refl.
  - intros pk sk Hin Hnone. apply (Hone pk sk false Hin).
    intros msg. unfold verify. rewrite Hnone. reflexivity.
  - intros oks Hoks. apply checked_balances_constant. exact Hoks.
Qed.

Lemma balance_fresh_check_witness :
  exists per w',
    balance demo_D demo_ledger forged_world = Return (sum_coins per, per) w'
    /\ only_draws forged_world w'
    /\ per = checked_balances (crypto demo_D) (clock forged_world) (uuids forged_world)
               (keys demo_D) (all_transactions forged_world demo_ledger)
               (ticks forged_world) (drawn forged_world)
    /\ map fst per = map fst (keys demo_D)
    /\ (forall w2,
          clock w2 = clock forged_world -> uuids w2 = uuids forged_world ->
          ticks w2 = ticks forged_world -> drawn w2 = drawn forged_world ->
          map unsigned (all_transactions w2 demo_ledger)
          = map unsigned (all_transactions forged_world demo_ledger) ->
          value (balance demo_D demo_ledger w2) = Some (sum_coins per, per))
    /\ (forall pk sk ok,
          In (pk, sk) (keys demo_D) ->
          (forall msg, verify (crypto demo_D) pk msg (commit sk msg) = ok) ->
          dict_get per pk
          = Some (if ok then net pk (all_transactions forged_world demo_ledger) else 0))
    /\ (forall pk sk,
          In (pk, sk) (keys demo_D) ->
          dict_get (pairs (crypto demo_D)) pk = Some sk ->
          dict_get per pk = Some (net pk (all_transactions forged_world demo_ledger)))
    /\ (forall pk sk,
          In (pk, sk) (keys demo_D) ->
          dict_get (pairs (crypto demo_D)) pk = None ->
          dict_get per pk = Some 0)
    /\ (forall oks : string -> bool,
          (forall pk sk msg, In (pk, sk) (keys demo_D) ->
             verify (crypto demo_D) pk msg (commit sk msg) = oks pk) ->
          per = map (fun item : string * string =>
                       (fst item,
                        if oks (fst item)
                        then net (fst item) (all_transactions forged_world demo_ledger)
                        else 0))
                    (keys demo_D)).
Proof.
  apply (balance_fresh_check demo_D demo_ledger forged_world).
  simpl. constructor; [| apply NoDup_singleton].
  intros Hin. apply list_elem_of_In in Hin. destruct Hin as [H | []]. discriminate.
Defined.

(** ** gives: a negative balance *)

Lemma zero_balance_values (items : list (string * string)) :
  Forall (fun item : string * Z => snd item = 0)
         (fold_left (fun b item => dict_set b (fst item) 0) items []).
Proof.
  enough (G : forall b : list (string * Z),
             Forall (fun item => snd item = 0) b ->
             Forall (fun item : string * Z => snd item = 0)
                    (fold_left (fun b item => dict_set b (fst item) 0) items b))
    by (apply G; constructor).
  induction items as [|[pk sk] items IH]; intros b Hb; simpl; [exact Hb |].
  apply IH. clear IH. induction b as [|[k v] b IHb]; simpl.
  - repeat constructor.
  - apply Forall_cons in Hb as [Hv Hb].
    destruct (String.eqb k pk); constructor; auto.
Qed.

(** Over a ledger without blocks every balance is 0. *)
Lemma balance_empty_chain self blockchain w held per_address w' :
  blists w (chain blockchain) = [] ->
  balance self blockchain w = Return (held, per_address) w' ->
  Forall (fun item => snd item = 0) per_address.
Proof.
  intros Hnil. unfold balance. intros H. apply bind_inv in H as (b & w1 & Hfold & H).
  inversion H; subst; clear H.
  enough (G : forall items b0 w0 b1 w2,
             blists w0 (chain blockchain) = [] ->
             foldM (balance_key self blockchain) items b0 w0 = Return b1 w2 -> b1 = b0).
  { rewrite (G _ _ _ _ _ Hnil Hfold). apply zero_balance_values. }
  clear. induction items as [|item items IH]; intros b0 w0 b1 w2 Hnil H; simpl in H.
  - inversion H. reflexivity.
  - apply bind_inv in H as (b' & w' & Hkey & H).
    unfold balance_key, bind, get_blist in Hkey. rewrite Hnil in Hkey. simpl in Hkey.
    inversion Hkey; subst. eapply IH; eassumption.
Qed.

Lemma minted_step w w' k :
  uuids w' = uuids w -> drawn w' = S (S (drawn w)) ->
  minted w (S k) = str_remove "-" (uuids w (drawn w)) :: minted w' k.
Proof.
  intros Hu Hd. unfold minted. cbn [seq]. rewrite <- seq_shift. cbn [map]. rewrite map_map.
  rewrite Nat.add_0_r. f_equal. apply map_ext. intros i. rewrite Hu, Hd. f_equal. f_equal. lia.
Qed.

(** The loop of gives reaches a negative balance that comes before the
    amount is covered. *)
Lemma gives_loop_reaches self copy lb payer coins after :
  coins < 0 ->
  forall before due recepient w,
  Forall (fun item : string * Z => 0 <= snd item) before ->
  (Forall (fun item : string * Z => snd item = 0) before \/ sum_coins before < due) ->
  last (blists w (chain copy)) = Some lb ->
  NoDup (minted w (payers before)) ->
  Forall (fun p => dict_get (pairs (crypto recepient)) p = None) (minted w (payers before)) ->
  exists w',
    gives_loop self copy (before ++ (payer, coins) :: after) due recepient w
    = Raise (LedgerCorruption payer) w'.
Proof.
  intros Hneg. induction before as [|[p c] before IH];
    intros due recepient w Hnonneg Hcover Hlast Hnd Hfresh.
  - simpl. destruct (Z.ltb_spec coins 0); [eauto | lia].
  - apply Forall_cons in Hnonneg as [Hc Hnonneg]. simpl in Hc.
    change (((p, c) :: before) ++ (payer, coins) :: after)
      with ((p, c) :: (before ++ (payer, coins) :: after)).
    cbn [gives_loop].
    destruct (Z.ltb_spec c 0); [lia |].
    destruct (Z.eqb_spec c 0) as [-> | Hc0].
    + apply IH; try assumption.
      destruct Hcover as [Hz | Hs].
      * left. apply Forall_cons in Hz as [_ Hz]. exact Hz.
      * right. simpl in Hs. exact Hs.
    + assert (Hs : c + sum_coins before < due).
      { destruct Hcover as [Hz | Hs]; [| exact Hs].
        apply Forall_cons in Hz as [Hz _]. simpl in Hz. contradiction. }
      assert (Hsum : 0 <= sum_coins before).
      { clear -Hnonneg. induction before as [|[q d] before IHb]; simpl; [lia |].
        apply Forall_cons in Hnonneg as [Hd Hn]. simpl in Hd. specialize (IHb Hn). lia. }
      assert (Hk : payers ((p, c) :: before) = S (payers before)).
      { unfold payers. simpl. destruct (Z.ltb_spec 0 c); [reflexivity | lia]. }
      rewrite Hk in Hnd, Hfresh.
      set (w1 := World (tlists w) (tnext w) (blists w) (bnext w)
                       (clock w) (S (ticks w)) (uuids w) (drawn w)).
      set (w2 := World (tlists w) (tnext w) (blists w) (bnext w)
                       (clock w) (S (ticks w)) (uuids w) (S (S (drawn w)))).
      rewrite (minted_step w w2) in Hnd, Hfresh by reflexivity.
      apply NoDup_cons in Hnd as [Hnotin Hnd]. apply Forall_cons in Hfresh as [Hpub Hfresh].
      destruct (Z.gtb_spec due c); [| lia].
      unfold bind at 1. unfold time at 1. fold w1.
      unfold bind at 1. rewrite new_address_eq. cbn [uuids drawn w1]. rewrite Hpub.
      fold w2. cbv beta iota.
      unfold bind at 1.
      rewrite (new_transaction_eq _ _ _ _ _ _ lb) by exact Hlast.
      destruct (Z.eqb_spec (due - c) 0); [lia |].
      destruct (Z.ltb_spec (due - c) 0); [lia |].
      match goal with |- context [gives_loop _ _ _ _ ?r ?w3] =>
        destruct (IH (due - c) r w3) as [w' E]
      end.
      * exact Hnonneg.
      * right. lia.
      * exact Hlast.
      * exact Hnd.
      * cbn [crypto pairs]. apply Forall_forall. intros x Hx.
        rewrite dict_get_set_ne by (intros <-; contradiction).
        rewrite Forall_forall in Hfresh. apply Hfresh. exact Hx.
      * exists w'. exact E.
Qed.

(** C7, as stated, fails: the holder of "X" (balance 2), "Y" (balance -1)
    and "Z" (balance 5) asks for a transfer of 2; "X" covers it, the loop
    stops before it looks at "Y", and gives returns a sealed fork. *)
Lemma gives_past_negative_balance :
  value ((clone demo_ledger ;; balance demo_C demo_ledger) mixed_world)
  = Some (6, [("X", 2); ("Y", -1); ("Z", 5)])
  /\ exists fork recepient' w',
       gives 5 demo_C demo_ledger demo_B 2 mixed_world = Return (fork, recepient') w'
       /\ length (blists w' (chain fork)) = 3%nat.
Proof.
  split; [vm_compute; reflexivity |].
  eexists _, _, _. split; [vm_compute; reflexivity | vm_compute; reflexivity].
Qed.

(** C7, amended. gives raises the negative-balance exception for an address
    when it meets that address, in the order of the entity's keys, before
    the addresses ahead of it have covered the amount: they hold no negative
    balance, and they hold nothing at all or less than the amount together.
    The addresses minted for the payments made on the way are assumed new to
    the recipient's simulator. *)
Theorem gives_ledger_corruption fuel self blockchain recepient amount
  w held per_address w2 before payer coins after :
  allocated w blockchain ->
  (clone blockchain ;; balance self blockchain) w = Return (held, per_address) w2 ->
  amount <= held ->
  per_address = before ++ (payer, coins) :: after ->
  coins < 0 ->
  Forall (fun item : string * Z => 0 <= snd item) before ->
  (Forall (fun item : string * Z => snd item = 0) before \/ sum_coins before < amount) ->
  NoDup (minted w2 (payers before)) ->
  Forall (fun p => dict_get (pairs (crypto recepient)) p = None) (minted w2 (payers before)) ->
  exists w',
    gives fuel self blockchain recepient amount w = Raise (LedgerCorruption payer) w'.
Proof.
  intros Halloc Hheld Hle Hsplit Hneg Hnonneg Hcover Hnd Hfresh.
  apply bind_inv in Hheld as (copy & w1 & Hclone & Hbal).
  destruct (clone_spec blockchain w Halloc)
    as (w1' & Hclone' & (_ & _ & _ & Hblw) & _ & _ & _ & Hbl1 & _).
  rewrite Hclone' in Hclone. inversion Hclone; subst copy w1'. clear Hclone.
  pose proof (keeps_balance _ _ _ _ _ Hbal) as ((_ & _ & Hbl2 & _) & _).
  pose proof Halloc as (Hch & _).
  assert (Hlast : exists lb, last (blists w (chain blockchain)) = Some lb).
  { destruct (last (blists w (chain blockchain))) as [lb|] eqn:E; [eauto |].
    apply last_None in E. exfalso.
    assert (Hz : Forall (fun item : string * Z => snd item = 0) per_address).
    { eapply balance_empty_chain; [| exact Hbal]. rewrite (Hblw _ Hch). exact E. }
    rewrite Hsplit in Hz. apply Forall_app in Hz as [_ Hz].
    apply Forall_cons in Hz as [Hz _]. simpl in Hz. lia. }
  destruct Hlast as [lb Hlast].
  destruct (gives_loop_reaches self
              (MkBlockchain (S (S (tnext w))) (S (bnext w)) (nodes blockchain) 4 0 0)
              lb payer coins after Hneg before amount recepient w2)
    as [w' Hloop]; try assumption.
  { cbn [chain]. rewrite Hbl2, Hbl1. exact Hlast. }
  exists w'. unfold gives.
  rewrite (bind_Return _ _ _ _ _ Hclone'), (bind_Return _ _ _ _ _ Hbal).
  destruct (Z.gtb_spec amount held); [lia |].
  rewrite <- Hsplit in Hloop. apply bind_Raise. exact Hloop.
Qed.

Lemma mixed_allocated : allocated mixed_world demo_ledger.
Proof.
  unfold allocated. simpl. split; [lia | split; [lia |]].
  constructor; [simpl; lia | constructor; [simpl; lia | constructor]].
Qed.

Lemma gives_ledger_corruption_witness :
  exists w', gives 5 demo_C demo_ledger demo_B 4 mixed_world = Raise (LedgerCorruption "Y") w'.
Proof.
  eapply (gives_ledger_corruption 5 demo_C demo_ledger demo_B 4 mixed_world
            6 [("X", 2); ("Y", -1); ("Z", 5)] _ [("X", 2)] "Y" (-1) [("Z", 5)]).
  - exact mixed_allocated.
  - vm_compute. reflexivity.
  - lia.
  - reflexivity.
  - lia.
  - constructor; [simpl; lia | constructor].
  - right. simpl. lia.
  - apply NoDup_singleton.
  - constructor; [reflexivity | constructor].
Defined.

(** ** resolve_conflicts *)

(** C4. The local chain has two blocks. The first peer's candidate is
    acceptable: reported length 3, and valid_chain accepts its one-block
    chain. The second peer reports length 4 and sends an empty chain:
    valid_chain raises IndexError on it, resolve_conflicts ends with that
    exception, and the first peer's chain is not adopted. *)
Theorem resolve_conflicts_empty_candidate :
  length (blists demo_world (chain demo_node)) = 2%nat
  /\ acceptable demo_node 2 (demo_peers "peer1") = true
  /\ resolve_conflicts demo_node demo_peers demo_world = Raise IndexError demo_world.
Proof. repeat split; vm_compute; reflexivity. Qed.

Lemma valid_chain_Error self l silence e :
  valid_chain self l silence = Error e -> l = [].
Proof. destruct l; [reflexivity | discriminate]. Qed.

Lemma acceptable_mono self max max' r :
  max <= max' -> acceptable self max' r = true -> acceptable self max r = true.
Proof.
  unfold acceptable. intros Hle H.
  apply andb_prop in H as [H Hv]. apply andb_prop in H as [Hs Hl].
  rewrite Hs, Hv. destruct (Z.gtb_spec (json_length r) max'); [| discriminate].
  destruct (Z.gtb_spec (json_length r) max); [reflexivity | lia].
Qed.

(** The scan of the peers, when no candidate it examines is empty: it keeps
    what it had if no peer is acceptable, and otherwise ends with the chain
    of an acceptable peer that reports more than every acceptable peer
    before it and at least as much as every acceptable peer after it. *)
Lemma resolve_scan_spec self fetch neighbours :
  forall max_length new_chain,
  (forall n, In n neighbours -> status_code (fetch n) = 200 ->
             json_length (fetch n) > max_length -> json_chain (fetch n) <> []) ->
  exists res,
    resolve_scan self fetch neighbours max_length new_chain = Ok res
    /\ ((res = new_chain
         /\ forall n, In n neighbours -> acceptable self max_length (fetch n) = false)
        \/ exists pre n post,
             neighbours = pre ++ n :: post
             /\ res = Some (json_chain (fetch n))
             /\ acceptable self max_length (fetch n) = true
             /\ (forall m, In m pre -> acceptable self max_length (fetch m) = true ->
                           json_length (fetch m) < json_length (fetch n))
             /\ (forall m, In m post -> acceptable self max_length (fetch m) = true ->
                           json_length (fetch m) <= json_length (fetch n))).
Proof.
  induction neighbours as [|node rest IH]; intros max_length new_chain Hne.
  - exists new_chain. split; [reflexivity |]. left. split; [reflexivity | intros n []].
  - cbn [resolve_scan].
    destruct (acceptable self max_length (fetch node)) eqn:Hacc.
    + pose proof Hacc as Hacc'. unfold acceptable in Hacc'.
      apply andb_prop in Hacc' as [H Hv]. apply andb_prop in H as [Hs Hl].
      rewrite Hs, Hl.
      destruct (valid_chain self (json_chain (fetch node)) true) as [[|]|] eqn:Hvalid;
        try discriminate.
      apply Z.gtb_lt in Hl.
      destruct (IH (json_length (fetch node)) (Some (json_chain (fetch node))))
        as (res & Hres & Hcases).
      { intros n Hin H200 Hlen. apply Hne; [now right | assumption | lia]. }
      exists res. split; [exact Hres |]. right.
      destruct Hcases as [[-> Hnone] | (pre & n & post & -> & -> & Hn & Hpre & Hpost)].
      * exists [], node, rest. repeat split; try assumption.
        -- intros m [].
        -- intros m Hin Hm.
           destruct (Z.le_gt_cases (json_length (fetch m)) (json_length (fetch node)))
             as [Hle | Hgt]; [exact Hle |].
           exfalso. specialize (Hnone m Hin). unfold acceptable in *.
           apply andb_prop in Hm as [H Hv']. apply andb_prop in H as [Hs' _].
           rewrite Hs', Hv' in Hnone.
           destruct (Z.gtb_spec (json_length (fetch m)) (json_length (fetch node)));
             [discriminate | lia].
      * assert (Hlt : json_length (fetch node) < json_length (fetch n)).
        { unfold acceptable in Hn. apply andb_prop in Hn as [H _].
          apply andb_prop in H as [_ H]. apply Z.gtb_lt in H. exact H. }
        exists (node :: pre), n, post. repeat split.
        -- apply (acceptable_mono _ max_length) in Hn; [exact Hn | lia].
        -- intros m [<- | Hin] Hm; [exact Hlt |].
           destruct (Z.le_gt_cases (json_length (fetch m)) (json_length (fetch node)))
             as [Hle | Hgt]; [lia |].
           apply Hpre; [exact Hin |]. unfold acceptable in *.
           apply andb_prop in Hm as [H Hv']. apply andb_prop in H as [Hs' _].
           rewrite Hs', Hv'.
           destruct (Z.gtb_spec (json_length (fetch m)) (json_length (fetch node)));
             [reflexivity | lia].
        -- intros m Hin Hm.
           destruct (Z.le_gt_cases (json_length (fetch m)) (json_length (fetch node)))
             as [Hle | Hgt]; [lia |].
           apply Hpost; [exact Hin |]. unfold acceptable in *.
           apply andb_prop in Hm as [H Hv']. apply andb_prop in H as [Hs' _].
           rewrite Hs', Hv'.
           destruct (Z.gtb_spec (json_length (fetch m)) (json_length (fetch node)));
             [reflexivity | lia].
    + assert (Hsame : resolve_scan self fetch (node :: rest) max_length new_chain
                      = resolve_scan self fetch rest max_length new_chain).
      { cbn [resolve_scan]. unfold acceptable in Hacc.
        destruct (status_code (fetch node) =? 200) eqn:Hs; [| reflexivity].
        destruct (json_length (fetch node) >? max_length) eqn:Hl; [| reflexivity].
        simpl in Hacc.
        destruct (valid_chain self (json_chain (fetch node)) true) as [[|]|e] eqn:Hvalid;
          [discriminate | reflexivity |].
        exfalso. apply valid_chain_Error in Hvalid.
        apply (Hne node); [now left | now apply Z.eqb_eq | | exact Hvalid].
        apply Z.gtb_lt in Hl. lia. }
      cbn [resolve_scan] in Hsame. rewrite Hsame.
      destruct (IH max_length new_chain) as (res & Hres & Hcases).
      { intros n Hin. apply Hne. now right. }
      exists res. split; [exact Hres |].
      destruct Hcases as [[-> Hnone] | (pre & n & post & -> & -> & Hn & Hpre & Hpost)].
      * left. split; [reflexivity |]. intros n [<- | Hin]; auto.
      * right. exists (node :: pre), n, post. repeat split; try assumption.
        intros m [<- | Hin] Hm; [congruence | auto].
Qed.

Lemma alloc_blocks_spec (l : list blockv) :
  forall w, exists ds w',
    alloc_blocks l w = Return ds w'
    /\ store_le w w'
    /\ bnext w' = bnext w /\ blists w' = blists w
    /\ map (load_block w') ds = l.
Proof.
  induction l as [|b l IH]; intros w.
  - exists [], w. repeat split; auto using store_le_refl; apply store_le_refl.
  - cbn [alloc_blocks]. unfold bind at 1. unfold alloc_tlist at 1.
    set (w1 := World (<[tnext w := transactions b]> (tlists w)) (S (tnext w)) (blists w)
                     (bnext w) (clock w) (ticks w) (uuids w) (drawn w)).
    destruct (IH w1) as (ds & w2 & E & Hle & Hbn & Hbl & Hmap).
    unfold bind at 1. rewrite E. eexists _, w2. split; [reflexivity |].
    assert (Hle1 : store_le w w1).
    { unfold store_le, w1. simpl. repeat split; try lia.
      intros r Hr. rewrite fn_lookup_insert_ne by lia. reflexivity. }
    split; [eapply store_le_trans; eassumption |].
    split; [exact Hbn |]. split; [exact Hbl |].
    cbn [map]. rewrite Hmap. f_equal. unfold load_block. cbn [transactions index timestamp proof
                                                               previous_hash].
    destruct Hle as (_ & _ & Htl & _). rewrite Htl by (unfold w1; simpl; lia).
    unfold w1. simpl. rewrite fn_lookup_insert. destruct b; reflexivity.
Qed.

Lemma alloc_chain_spec (l : list blockv) w :
  exists w',
    alloc_chain l w = Return (bnext w) w'
    /\ store_le w w'
    /\ load_chain w' (bnext w) = l.
Proof.
  destruct (alloc_blocks_spec l w) as (ds & w1 & E & Hle & Hbn & Hbl & Hmap).
  unfold alloc_chain. rewrite (bind_Return _ _ _ _ _ E). unfold alloc_blist. rewrite Hbn.
  eexists. split; [reflexivity |]. split.
  - eapply store_le_trans; [exact Hle |]. unfold store_le. simpl. repeat split; try lia.
    intros r Hr. rewrite fn_lookup_insert_ne by lia. reflexivity.
  - unfold load_chain. simpl. rewrite fn_lookup_insert. unfold load_block in *. exact Hmap.
Qed.

(** resolve_conflicts, when no candidate it examines is empty: it returns
    False and changes nothing if no peer is acceptable; otherwise it returns
    True with the chain of the first acceptable peer that reports the
    greatest length as the new chain, written once. *)
Lemma resolve_conflicts_spec self fetch w :
  (forall n, In n (nodes self) -> status_code (fetch n) = 200 ->
             json_length (fetch n) > Z.of_nat (length (blists w (chain self))) ->
             json_chain (fetch n) <> []) ->
  ((forall n, In n (nodes self) ->
      acceptable self (Z.of_nat (length (blists w (chain self)))) (fetch n) = false)
   /\ resolve_conflicts self fetch w = Return (self, false) w)
  \/ exists pre n post w',
       nodes self = pre ++ n :: post
       /\ acceptable self (Z.of_nat (length (blists w (chain self)))) (fetch n) = true
       /\ (forall m, In m pre ->
             acceptable self (Z.of_nat (length (blists w (chain self)))) (fetch m) = true ->
             json_length (fetch m) < json_length (fetch n))
       /\ (forall m, In m post ->
             acceptable self (Z.of_nat (length (blists w (chain self)))) (fetch m) = true ->
             json_length (fetch m) <= json_length (fetch n))
       /\ resolve_conflicts self fetch w
          = Return (MkBlockchain (current_transactions self) (bnext w) (nodes self)
                                 (mining_rate self) (proof_sum self) (proof_cnt self),
                    true) w'
       /\ load_chain w' (bnext w) = json_chain (fetch n)
       /\ store_le w w'.
Proof.
  intros Hne.
  destruct (resolve_scan_spec self fetch (nodes self)
              (Z.of_nat (length (blists w (chain self)))) None Hne)
    as (res & Hres & [[-> Hnone] | (pre & n & post & Hsplit & -> & Hn & Hpre & Hpost)]).
  - left. split; [exact Hnone |].
    unfold resolve_conflicts, bind, get_blist. rewrite Hres. reflexivity.
  - right.
    assert (Hcons : exists b c, json_chain (fetch n) = b :: c).
    { unfold acceptable in Hn. apply andb_prop in Hn as [_ Hv].
      destruct (json_chain (fetch n)) as [|b c]; [discriminate | eauto]. }
    destruct Hcons as (b & c & Hbc).
    destruct (alloc_chain_spec (json_chain (fetch n)) w) as (w' & E & Hle & Hload).
    exists pre, n, post, w'.
    split; [exact Hsplit |]. split; [exact Hn |]. split; [exact Hpre |].
    split; [exact Hpost |]. split; [| split; [exact Hload | exact Hle]].
    unfold resolve_conflicts. unfold bind at 1. unfold get_blist at 1.
    unfold bind at 1. rewrite Hres. cbn [lift ret]. rewrite Hbc. rewrite Hbc in E.
    unfold bind. rewrite E. reflexivity.
Qed.

(** ** Two runs *)

(** An entity mines on the small ledger and then holds the reward. *)
Example mine_then_balance :
  value ((r <- mine 5 (new_Ent "E") demo_ledger false ;;
          match snd r with
          | Some fork => balance (fst r) fork
          | None => ret (0, [])
          end) demo_world)
  = Some (1, [("8f1c0", 1)]).
Proof. vm_compute. reflexivity. Qed.

(** The holder of "X" gives 2 of its 3 to another entity: on the fork the
    giver holds 1 and the recipient 2, and the ledger given is as before. *)
Example gives_then_balances :
  value (('(fork, b) <- gives 5 demo_A demo_ledger demo_B 2 ;;
          '(held_a, _) <- balance demo_A fork ;;
          '(held_b, _) <- balance b fork ;;
          '(held_a', _) <- balance demo_A demo_ledger ;;
          verdict <- validate_blockchain b fork ;;
          ret (held_a, held_b, held_a', verdict)) demo_world)
  = Some (1, 2, 3, "B accepts the blockchain").
Proof. vm_compute. reflexivity. Qed.

(** * Further properties *)

(** ** valid_proof, proof_of_work, valid_chain *)

(** X1. valid_proof returns True exactly when the mining rate is 4 and the
    digest of the two proofs starts with "0000": at any other rate no pair
    of proofs is valid. *)
Theorem valid_proof_needs_rate_four (last_proof proof mining_rate : Z) :
  valid_proof last_proof proof mining_rate
  = (mining_rate =? 4)
    && String.eqb
         (str_take 4 (SHA256.hexdigest (encode (str_of_int last_proof +:+ str_of_int proof))))
         "0000".
Proof.
  destruct (Z.eqb_spec mining_rate 4) as [-> | Hne]; [reflexivity |].
  simpl. destruct (valid_proof last_proof proof mining_rate) eqn:E; [| reflexivity].
  apply valid_proof_rate in E. contradiction.
Qed.

Lemma search_bound fuel last_proof rate p0 p :
  search fuel last_proof rate p0 = Some p -> p < p0 + Z.of_nat fuel.
Proof.
  revert p0. induction fuel as [|fuel IH]; intros p0; [discriminate |].
  cbn [search]. destruct (valid_proof last_proof p0 rate).
  - intros H. inversion H; subst. lia.
  - intros H. apply IH in H. lia.
Qed.

(** X2. proof_of_work returns [p] exactly when [p] is the least natural
    number that valid_proof accepts after [last_proof] (and the search is
    given the [p + 1] iterations it needs); it then has added [p] to
    proof_sum and 1 to proof_cnt, and touched nothing else. *)
Theorem proof_of_work_least fuel self last_proof w self' p w' :
  proof_of_work fuel self last_proof w = Return (self', p) w'
  <-> (0 <= p
       /\ (Z.to_nat p < fuel)%nat
       /\ valid_proof last_proof p (mining_rate self) = true
       /\ (forall q, 0 <= q < p -> valid_proof last_proof q (mining_rate self) = false)
       /\ self' = MkBlockchain (current_transactions self) (chain self) (nodes self)
                               (mining_rate self) (proof_sum self + p) (proof_cnt self + 1)
       /\ w' = w).
Proof.
  unfold proof_of_work. split.
  - destruct (search fuel last_proof (mining_rate self) 0) as [q|] eqn:E; [| discriminate].
    intros H. inversion H; subst. pose proof (search_bound _ _ _ _ _ E) as Hb.
    apply search_sound in E as (Hv & Hp & Hmin). repeat split; auto. lia.
  - intros (Hp & Hfuel & Hv & Hmin & -> & ->).
    rewrite (search_complete last_proof (mining_rate self) p Hp Hv Hmin fuel Hfuel).
    reflexivity.
Qed.

(** X3. On a ledger whose mining rate is not 4, proof_of_work never
    returns: however many iterations the search is given, it is still
    running. *)
Theorem proof_of_work_other_rate fuel self last_proof w :
  mining_rate self <> 4 -> proof_of_work fuel self last_proof w = OutOfFuel.
Proof.
  intros Hr. unfold proof_of_work. rewrite search_other_rate by assumption. reflexivity.
Qed.

Lemma proof_of_work_other_rate_witness :
  proof_of_work 1000 (MkBlockchain 2 0 [] 3 0 0) 8848 demo_world = OutOfFuel.
Proof. apply proof_of_work_other_rate. simpl. lia. Defined.

(** X4. A ledger whose mining rate is not 4 rejects every chain of two or
    more blocks. *)
Theorem valid_chain_other_rate self (a b : blockv) rest silence :
  mining_rate self <> 4 -> valid_chain self (a :: b :: rest) silence = Ok false.
Proof.
  intros Hr. simpl. destruct (String.eqb (previous_hash b) (hash a)); [| reflexivity].
  simpl. destruct (valid_proof (proof a) (proof b) (mining_rate self)) eqn:E; [| reflexivity].
  apply valid_proof_rate in E. contradiction.
Qed.

Lemma valid_chain_other_rate_witness :
  valid_chain (MkBlockchain 2 0 [] 5 0 0) (load_chain demo_world 0) true = Ok false.
Proof.
  apply (valid_chain_other_rate (MkBlockchain 2 0 [] 5 0 0)
           (load_block demo_world demo_genesis) (load_block demo_world demo_block2) [] true).
  simpl. lia.
Defined.

(** X5. valid_chain reads of the last block only its proof and its
    previous_hash: its index, its timestamp and its transactions can be
    replaced without changing the verdict. *)
Theorem valid_chain_last_block_unread self (l : list blockv) (b b' : blockv) silence :
  proof b' = proof b -> previous_hash b' = previous_hash b ->
  valid_chain self (l ++ [b']) silence = valid_chain self (l ++ [b]) silence.
Proof.
  intros Hp Hh. destruct l as [|g l]; [reflexivity |]. simpl. f_equal.
  revert g. induction l as [|a l IH]; intros g; simpl.
  - rewrite Hp, Hh. reflexivity.
  - rewrite IH. reflexivity.
Qed.

Lemma valid_chain_last_block_unread_witness :
  valid_chain demo_ledger
    ([load_block demo_world demo_genesis]
     ++ [Block 7 (PyFloat 0 "0") [Transaction "X" (PStr "thief") 1000 None None] 8848
               (previous_hash demo_block2)]) true
  = valid_chain demo_ledger
      ([load_block demo_world demo_genesis] ++ [load_block demo_world demo_block2]) true.
Proof. apply valid_chain_last_block_unread; reflexivity. Defined.

(** ** The constructor, new_block, new_transaction, transaction *)

(** X6. Blockchain(proof, mining_rate) always returns: a ledger with no
    nodes, no pending transaction and zeroed proof statistics, whose chain
    is the genesis block alone (index 1, previous_hash "1", the given proof,
    no transactions), which its own valid_chain accepts. *)
Theorem new_Blockchain_genesis p rate w :
  exists self w',
    new_Blockchain p rate w = Return self w'
    /\ store_le w w'
    /\ load_chain w' (chain self) = [Block 1 (clock w (ticks w)) [] p "1"]
    /\ tlists w' (current_transactions self) = []
    /\ nodes self = [] /\ mining_rate self = rate /\ proof_sum self = 0 /\ proof_cnt self = 0
    /\ valid_chain self (load_chain w' (chain self)) true = Ok true.
Proof.
  destruct (new_Blockchain_eq p rate w)
    as (w' & E & Hle & _ & _ & Ht0 & Ht1 & Hbl & _).
  eexists _, w'. split; [exact E |]. split; [exact Hle |].
  unfold load_chain, load_block. cbn [chain current_transactions]. rewrite Hbl. simpl.
  rewrite Ht0, Ht1. repeat split.
Qed.





(** ** transaction and mining_cost *)

Lemma list_index_last {A} (l : list A) (a : A) :
  list_index (l ++ [a]) (-1) = Ok a
  /\ list_index (l ++ [a]) (Z.of_nat (length l)) = Ok a.
Proof.
  assert (Hl : (l ++ [a]) !! length l = Some a).
  { rewrite lookup_app_r by apply Nat.le_refl. rewrite Nat.sub_diag. reflexivity. }
  unfold list_index. rewrite length_app. simpl. split.
  - replace (-1 + Z.of_nat (length l + 1)) with (Z.of_nat (length l)) by lia.
    destruct (Z.ltb_spec (Z.of_nat (length l)) 0); [lia |].
    rewrite Nat2Z.id, Hl. reflexivity.
  - assert (Hge : (Z.of_nat (length l) <? 0) = false) by (apply Z.ltb_ge; lia).
    rewrite Hge. cbv iota. rewrite Hge, Nat2Z.id, Hl. reflexivity.
Qed.

Lemma lift_Ok {A} (a : A) w : lift (Ok a) w = Return a w.
Proof. reflexivity. Qed.

(** X8. After new_transaction has returned, transaction(-1) returns the
    transaction it recorded, and so does transaction(n) for the number [n]
    of transactions that were pending before. The record holds the sender,
    the recipient and the amount, and the signature and the message only
    when both were given and neither is empty or zero. *)
Theorem transaction_after_new_transaction self from to coins sig msg w i w1 :
  new_transaction self from to coins sig msg w = Return i w1 ->
  exists t,
    Blockchain_transaction self (-1) w1 = Return (inr t) w1
    /\ Blockchain_transaction self
         (Z.of_nat (length (tlists w (current_transactions self)))) w1 = Return (inr t) w1
    /\ sender t = from /\ recipient t = to /\ amount t = coins
    /\ (signature t, message t)
       = if truthy_int msg && truthy_str sig then (sig, msg) else (None, None).
Proof.
  intros Htx.
  destruct (last (blists w (chain self))) as [lb|] eqn:Hlast.
  - rewrite (new_transaction_eq _ _ _ _ _ _ lb) in Htx by assumption.
    inversion Htx; subst; clear Htx.
    match goal with |- context [tlists w (current_transactions self) ++ [?x]] => set (t := x) end.
    exists t.
    destruct (list_index_last (tlists w (current_transactions self)) t) as [H1 H2].
    unfold Blockchain_transaction, bind, get_tlist. cbn [tlists].
    rewrite fn_lookup_insert.
    destruct (tlists w (current_transactions self) ++ [t]) as [|t0 l0] eqn:El.
    { destruct (tlists w (current_transactions self)); discriminate. }
    rewrite H1, H2, !lift_Ok. unfold ret.
    split; [reflexivity |]. split; [reflexivity |].
    subst t. destruct (truthy_int msg && truthy_str sig); repeat split.
  - unfold new_transaction, tlist_append, bind, get_tlist, set_tlist, last_block, bind,
      get_blist in Htx. simpl in Htx. rewrite Hlast in Htx. discriminate.
Qed.

Lemma transaction_after_new_transaction_witness :
  exists i w1,
    new_transaction demo_ledger "X" (PStr "bob") 2 (Some "") (Some 7) demo_world = Return i w1
    /\ exists t,
         Blockchain_transaction demo_ledger (-1) w1 = Return (inr t) w1
         /\ Blockchain_transaction demo_ledger
              (Z.of_nat (length (tlists demo_world (current_transactions demo_ledger)))) w1
            = Return (inr t) w1
         /\ sender t = "X" /\ recipient t = PStr "bob" /\ amount t = 2
         /\ (signature t, message t)
            = if truthy_int (Some 7) && truthy_str (Some "") then (Some "", Some 7)
              else (None, None).
Proof.
  eexists _, _. split; [vm_compute; reflexivity |].
  apply (transaction_after_new_transaction demo_ledger "X" (PStr "bob") 2 (Some "") (Some 7)
           demo_world 3).
  vm_compute. reflexivity.
Defined.

(** X9. transaction(index) with no pending transaction returns "N/A"
    whatever the index. With n > 0 pending transactions it returns the one
    at position index mod n when -n <= index < n, and raises IndexError for
    every other index. *)
Theorem transaction_index_bounds self index w :
  (tlists w (current_transactions self) = [] ->
   Blockchain_transaction self index w = Return (inl "N/A") w)
  /\ (tlists w (current_transactions self) <> [] ->
      - Z.of_nat (length (tlists w (current_transactions self))) <= index
        < Z.of_nat (length (tlists w (current_transactions self))) ->
      exists t,
        tlists w (current_transactions self)
          !! Z.to_nat (index mod Z.of_nat (length (tlists w (current_transactions self))))
        = Some t
        /\ Blockchain_transaction self index w = Return (inr t) w)
  /\ (tlists w (current_transactions self) <> [] ->
      index < - Z.of_nat (length (tlists w (current_transactions self)))
      \/ Z.of_nat (length (tlists w (current_transactions self))) <= index ->
      Blockchain_transaction self index w = Raise IndexError w).
Proof.
  unfold Blockchain_transaction, bind, get_tlist.
  set (l := tlists w (current_transactions self)).
  split; [intros ->; reflexivity |].
  split.
  - intros Hne Hrange. destruct l as [|t0 l0] eqn:El; [contradiction |]. rewrite <- El in *.
    unfold list_index.
    set (n := Z.of_nat (length l)) in *.
    assert (Hn : 0 < n) by (subst n; rewrite El; simpl; lia).
    assert (Hj : (if index <? 0 then index + n else index) = index mod n).
    { destruct (Z.ltb_spec index 0).
      - symmetry. rewrite <- (Z.mod_small (index + n) n) by lia.
        rewrite <- Z.add_mod_idemp_r, Z.mod_same, Z.add_0_r by lia. reflexivity.
      - symmetry. apply Z.mod_small. lia. }
    rewrite Hj.
    pose proof (Z.mod_pos_bound index n Hn) as Hb.
    destruct (Z.ltb_spec (index mod n) 0); [lia |].
    destruct (l !! Z.to_nat (index mod n)) as [t|] eqn:Et.
    + exists t. split; reflexivity.
    + apply lookup_ge_None in Et. subst n. lia.
  - intros Hne Hout. destruct l as [|t0 l0] eqn:El; [contradiction |]. rewrite <- El in *.
    unfold list_index.
    set (n := Z.of_nat (length l)) in *.
    destruct (Z.ltb_spec index 0).
    + destruct (Z.ltb_spec (index + n) 0); [reflexivity |].
      destruct Hout as [Hlow | Hhigh]; [lia |]. subst n. lia.
    + destruct (Z.ltb_spec index 0); [lia |].
      destruct (l !! Z.to_nat index) as [t|] eqn:Et; [| reflexivity].
      apply lookup_lt_Some in Et. destruct Hout as [Hlow | Hhigh]; subst n; lia.
Qed.

(** X10. Right after new_block, transaction(index) returns "N/A" whatever
    the index: the pending list is a new, empty one. *)
Theorem transaction_after_new_block self p ph w self' blk w' index :
  new_block self p ph w = Return (self', blk) w' ->
  Blockchain_transaction self' index w' = Return (inl "N/A") w'.
Proof.
  intros Hnew. apply new_block_inv in Hnew as (s & -> & -> & -> & _).
  unfold Blockchain_transaction, bind, get_tlist, resealed, sealed.
  cbn [current_transactions tlists]. rewrite fn_lookup_insert. reflexivity.
Qed.

Lemma transaction_after_new_block_witness :
  exists self' blk w',
    new_block demo_ledger 4 None demo_world = Return (self', blk) w'
    /\ Blockchain_transaction self' (-1) w' = Return (inl "N/A") w'.
Proof.
  eexists _, _, _. split; [vm_compute; reflexivity |].
  eapply (transaction_after_new_block demo_ledger 4 None demo_world).
  vm_compute. reflexivity.
Defined.

(** X11. mining_cost raises ZeroDivisionError on every ledger that comes
    from the constructor or from clone; once proof_of_work has returned on a
    ledger whose proof count is not negative, it no longer does. *)
Theorem mining_cost_before_any_proof :
  (forall p rate w, exists self w',
      new_Blockchain p rate w = Return self w' /\ mining_cost self = ZeroDivisionError)
  /\ (forall self w, exists copy w',
        clone self w = Return copy w' /\ mining_cost copy = ZeroDivisionError)
  /\ (forall fuel self last_proof w self' p w',
        0 <= proof_cnt self ->
        proof_of_work fuel self last_proof w = Return (self', p) w' ->
        mining_cost self' <> ZeroDivisionError).
Proof.
  split; [| split].
  - intros p rate w. destruct (new_Blockchain_eq p rate w) as (w' & E & _).
    eexists _, w'. split; [exact E | reflexivity].
  - intros self w. destruct (clone_fields self w) as (copy & w' & E & _ & Hs & Hc & _).
    exists copy, w'. split; [exact E |]. unfold mining_cost. rewrite Hs, Hc. reflexivity.
  - intros fuel self last_proof w self' p w' Hcnt H. unfold proof_of_work in H.
    destruct (search fuel last_proof (mining_rate self) 0); [| discriminate].
    inversion H; subst. unfold mining_cost. cbn [proof_sum proof_cnt].
    destruct (_ <=? _); [discriminate |]. destruct (_ <=? _); [discriminate |].
    destruct (Z.eqb_spec (proof_cnt self + 1) 0); [lia | discriminate].
Qed.

(** ** valid_vs_invalid *)

Lemma accepts_itself_eq w bc g rest :
  load_chain w (chain bc) = g :: rest ->
  valid_chain bc (load_chain w (chain bc)) true = Ok (accepts_itself w bc).
Proof.
  intros E. unfold accepts_itself. rewrite E. simpl.
  destruct (valid_chain_from bc g rest); reflexivity.
Qed.

Lemma load_chain_length w r : length (load_chain w r) = length (blists w r).
Proof. unfold load_chain. apply length_map. Qed.

Lemma load_chain_nil w r : load_chain w r = [] <-> blists w r = [].
Proof.
  unfold load_chain. split; [| intros ->; reflexivity].
  destruct (blists w r); [reflexivity | discriminate].
Qed.

(** The first loop, when no ledger has an empty chain. *)
Lemma longest_valid_spec w (blockchains : list Blockchain) :
  (forall bc, In bc blockchains -> blists w (chain bc) <> []) ->
  forall m0, exists m,
    longest_valid blockchains m0 w = Return m w
    /\ m0 <= m
    /\ (forall bc, In bc blockchains -> accepts_itself w bc = true -> chain_length w bc <= m)
    /\ (m = m0
        \/ exists bc, In bc blockchains /\ accepts_itself w bc = true /\ chain_length w bc = m).
Proof.
  induction blockchains as [|bc rest IH]; intros Hne m0.
  - exists m0. split; [reflexivity |]. split; [lia |]. split; [intros bc [] | now left].
  - assert (Hbc : load_chain w (chain bc) <> []).
    { rewrite load_chain_nil. apply Hne. now left. }
    destruct (load_chain w (chain bc)) as [|g c] eqn:Ec; [contradiction |].
    cbn [longest_valid]. unfold bind at 1. unfold read_chain at 1.
    unfold bind at 1.
    rewrite (accepts_itself_eq w bc g c Ec). cbn [lift ret].
    rewrite load_chain_length. fold (chain_length w bc).
    assert (Hrest : forall bc', In bc' rest -> blists w (chain bc') <> []).
    { intros bc' Hin. apply Hne. now right. }
    destruct (accepts_itself w bc) eqn:Hacc; cbn [negb].
    + destruct (Z.gtb_spec (chain_length w bc) m0) as [Hgt | Hle].
      * destruct (IH Hrest (chain_length w bc)) as (m & E & Hm & Hall & Hex).
        exists m. split; [exact E |]. split; [lia |]. split.
        -- intros bc' [<- | Hin] Hv; [lia | auto].
        -- right. destruct Hex as [-> | (bc' & Hin & Hv & Hl)].
           ++ exists bc. split; [now left | auto].
           ++ exists bc'. split; [now right | auto].
      * destruct (IH Hrest m0) as (m & E & Hm & Hall & Hex).
        exists m. split; [exact E |]. split; [lia |]. split.
        -- intros bc' [<- | Hin] Hv; [lia | auto].
        -- destruct Hex as [-> | (bc' & Hin & Hv & Hl)]; [now left |].
           right. exists bc'. split; [now right | auto].
    + destruct (IH Hrest m0) as (m & E & Hm & Hall & Hex).
      exists m. split; [exact E |]. split; [lia |]. split.
      * intros bc' [<- | Hin] Hv; [congruence | auto].
      * destruct Hex as [-> | (bc' & Hin & Hv & Hl)]; [now left |].
        right. exists bc'. split; [now right | auto].
Qed.

Lemma split_by_length_spec w (blockchains : list Blockchain) m :
  forall valid invalid,
    split_by_length blockchains m valid invalid w
    = Return (valid ++ List.filter (fun bc => chain_length w bc =? m) blockchains,
              invalid ++ List.filter (fun bc => negb (chain_length w bc =? m)) blockchains) w.
Proof.
  induction blockchains as [|bc rest IH]; intros valid invalid.
  - simpl. rewrite !app_nil_r. reflexivity.
  - cbn [split_by_length List.filter]. unfold bind at 1. unfold get_blist at 1.
    fold (chain_length w bc).
    destruct (chain_length w bc =? m); cbn [negb]; rewrite IH, <- app_assoc; reflexivity.
Qed.

(** X12. valid_vs_invalid, on ledgers none of which has an empty chain,
    changes nothing and returns the input split in two, order kept: first
    the ledgers whose chain has length [m], then all the others, where [m]
    is the greatest length of a chain that its own ledger's valid_chain
    accepts, and 0 when there is none. *)
Theorem valid_vs_invalid_spec w (blockchains : list Blockchain) :
  (forall bc, In bc blockchains -> blists w (chain bc) <> []) ->
  exists m,
    valid_vs_invalid blockchains w
    = Return (List.filter (fun bc => chain_length w bc =? m) blockchains,
              List.filter (fun bc => negb (chain_length w bc =? m)) blockchains) w
    /\ (forall bc, In bc blockchains -> accepts_itself w bc = true -> chain_length w bc <= m)
    /\ ((m = 0 /\ forall bc, In bc blockchains -> accepts_itself w bc = false)
        \/ exists bc, In bc blockchains /\ accepts_itself w bc = true /\ chain_length w bc = m).
Proof.
  intros Hne. destruct (longest_valid_spec w blockchains Hne 0) as (m & E & Hm & Hall & Hex).
  exists m. unfold valid_vs_invalid. rewrite (bind_Return _ _ _ _ _ E).
  rewrite split_by_length_spec. split; [reflexivity |]. split; [exact Hall |].
  destruct Hex as [-> | Hex]; [| now right].
  destruct (existsb (accepts_itself w) blockchains) eqn:Hany.
  - apply existsb_exists in Hany as (bc & Hin & Hv). right. exists bc.
    split; [exact Hin |]. split; [exact Hv |].
    pose proof (Hall bc Hin Hv) as Hle. pose proof (Hne bc Hin) as Hnil.
    unfold chain_length in *. destruct (blists w (chain bc)); [contradiction | simpl in *; lia].
  - left. split; [reflexivity |]. intros bc Hin.
    destruct (accepts_itself w bc) eqn:Hv; [| reflexivity].
    assert (existsb (accepts_itself w) blockchains = true)
      by (apply existsb_exists; eauto).
    congruence.
Qed.

Lemma three_world_nonempty :
  forall bc, In bc [ledger_at 0; ledger_at 1; ledger_at 2] ->
             blists three_world (chain bc) <> [].
Proof. intros bc [<- | [<- | [<- | []]]]; discriminate. Qed.

Lemma valid_vs_invalid_spec_witness :
  exists m,
    valid_vs_invalid [ledger_at 0; ledger_at 1; ledger_at 2] three_world
    = Return (List.filter (fun bc => chain_length three_world bc =? m)
                          [ledger_at 0; ledger_at 1; ledger_at 2],
              List.filter (fun bc => negb (chain_length three_world bc =? m))
                          [ledger_at 0; ledger_at 1; ledger_at 2]) three_world
    /\ (forall bc, In bc [ledger_at 0; ledger_at 1; ledger_at 2] ->
                   accepts_itself three_world bc = true -> chain_length three_world bc <= m)
    /\ ((m = 0 /\ forall bc, In bc [ledger_at 0; ledger_at 1; ledger_at 2] ->
                             accepts_itself three_world bc = false)
        \/ exists bc, In bc [ledger_at 0; ledger_at 1; ledger_at 2]
                      /\ accepts_itself three_world bc = true
                      /\ chain_length three_world bc = m).
Proof.
  apply (valid_vs_invalid_spec three_world [ledger_at 0; ledger_at 1; ledger_at 2]).
  exact three_world_nonempty.
Defined.

(** X13. valid_vs_invalid never checks the ledgers it returns as valid: a
    ledger whose chain its own valid_chain rejects is returned among the
    valid ones as soon as its chain is as long as the longest accepted
    chain, and a ledger whose chain is accepted but shorter is returned
    among the invalid ones. *)
Theorem valid_vs_invalid_by_length_only w (blockchains : list Blockchain) best bad short :
  (forall bc, In bc blockchains -> blists w (chain bc) <> []) ->
  In best blockchains -> accepts_itself w best = true ->
  (forall bc, In bc blockchains -> accepts_itself w bc = true ->
              chain_length w bc <= chain_length w best) ->
  In bad blockchains -> accepts_itself w bad = false ->
  chain_length w bad = chain_length w best ->
  In short blockchains -> accepts_itself w short = true ->
  chain_length w short < chain_length w best ->
  exists valid invalid,
    valid_vs_invalid blockchains w = Return (valid, invalid) w
    /\ In bad valid /\ In short invalid.
Proof.
  intros Hne Hbest Hvbest Hmax Hbad _ Hlen Hshort _ Hlt.
  destruct (longest_valid_spec w blockchains Hne 0) as (m & E & _ & Hall & Hex).
  assert (Hm : m = chain_length w best).
  { pose proof (Hall best Hbest Hvbest) as Hle.
    destruct Hex as [-> | (bc & Hin & Hv & Hl)].
    - pose proof (Hne best Hbest) as Hnil. unfold chain_length in Hle.
      destruct (blists w (chain best)); [contradiction | simpl in Hle; lia].
    - pose proof (Hmax bc Hin Hv). lia. }
  subst m. unfold valid_vs_invalid. rewrite (bind_Return _ _ _ _ _ E), split_by_length_spec.
  eexists _, _. split; [reflexivity |]. split.
  - apply filter_In. split; [exact Hbad |]. apply Z.eqb_eq. exact Hlen.
  - apply filter_In. split; [exact Hshort |].
    destruct (Z.eqb_spec (chain_length w short) (chain_length w best)); [lia | reflexivity].
Qed.

Lemma valid_vs_invalid_by_length_only_witness :
  exists valid invalid,
    valid_vs_invalid [ledger_at 0; ledger_at 1; ledger_at 2] three_world
    = Return (valid, invalid) three_world
    /\ In (ledger_at 1) valid /\ In (ledger_at 2) invalid.
Proof.
  apply (valid_vs_invalid_by_length_only three_world [ledger_at 0; ledger_at 1; ledger_at 2]
           (ledger_at 0) (ledger_at 1) (ledger_at 2)).
  - exact three_world_nonempty.
  - left. reflexivity.
  - vm_compute. reflexivity.
  - intros bc [<- | [<- | [<- | []]]] Hv; vm_compute; discriminate.
  - right. left. reflexivity.
  - vm_compute. reflexivity.
  - reflexivity.
  - right. right. left. reflexivity.
  - vm_compute. reflexivity.
  - vm_compute. reflexivity.
Defined.

(** X14. valid_vs_invalid raises IndexError as soon as one of the ledgers
    has an empty chain. *)
Theorem valid_vs_invalid_empty_chain w (blockchains : list Blockchain) bc :
  In bc blockchains -> blists w (chain bc) = [] ->
  valid_vs_invalid blockchains w = Raise IndexError w.
Proof.
  intros Hin Hnil. unfold valid_vs_invalid.
  enough (G : forall m0, longest_valid blockchains m0 w = Raise IndexError w)
    by (apply bind_Raise, G).
  induction blockchains as [|b rest IH]; [destruct Hin |]. intros m0.
  cbn [longest_valid]. unfold bind at 1. unfold read_chain at 1. unfold bind at 1.
  destruct (load_chain w (chain b)) as [|g c] eqn:Ec; [reflexivity |].
  assert (Hrest : In bc rest).
  { destruct Hin as [-> | Hin]; [| exact Hin].
    apply load_chain_nil in Hnil. congruence. }
  cbn [valid_chain lift ret].
  destruct (negb _); [apply IH; exact Hrest |].
  destruct (_ >? _); apply IH; exact Hrest.
Qed.

Lemma valid_vs_invalid_empty_chain_witness :
  valid_vs_invalid [ledger_at 0; ledger_at 7] three_world = Raise IndexError three_world.
Proof.
  apply (valid_vs_invalid_empty_chain three_world [ledger_at 0; ledger_at 7] (ledger_at 7)).
  - right. left. reflexivity.
  - reflexivity.
Defined.

(** ** clone and resolve_conflicts *)

(** X15. A clone reads like its source, and writing to it keeps away from
    the source: after new_transaction and new_block on the clone, the chain
    and the pending transactions of the source read as before the clone was
    made, and the clone's chain is the source's chain with the new block,
    which holds the source's pending transactions and the new one. *)
Theorem clone_writes_stay_apart self w copy w1 from to coins sig msg i w2 p ph copy' blk w3 :
  allocated w self ->
  clone self w = Return copy w1 ->
  new_transaction copy from to coins sig msg w1 = Return i w2 ->
  new_block copy p ph w2 = Return (copy', blk) w3 ->
  load_chain w1 (chain copy) = load_chain w (chain self)
  /\ tlists w1 (current_transactions copy) = tlists w (current_transactions self)
  /\ nodes copy = nodes self
  /\ load_chain w3 (chain self) = load_chain w (chain self)
  /\ tlists w3 (current_transactions self) = tlists w (current_transactions self)
  /\ load_chain w3 (chain copy') = load_chain w (chain self) ++ [load_block w3 blk]
  /\ exists t, tlists w3 (transactions blk) = tlists w (current_transactions self) ++ [t]
               /\ sender t = from /\ recipient t = to /\ amount t = coins.
Proof.
  intros Halloc Hc Htx Hnew.
  destruct (clone_spec self w Halloc)
    as (w1' & Hclone & Hle & Htn & Hbn & Htl1 & Hbl1 & _).
  rewrite Hclone in Hc. inversion Hc; subst copy w1'. clear Hc.
  pose proof Halloc as (Hch & Hct & Hall).
  pose proof Hle as (_ & _ & Htl & Hbl).
  assert (Hold : forall tl : ref -> list transaction,
                   (forall r, (r < tnext w)%nat -> tl r = tlists w r) ->
                   map (fun b : blockd => Block (index b) (timestamp b) (tl (transactions b))
                                                (proof b) (previous_hash b))
                       (blists w (chain self))
                   = load_chain w (chain self)).
  { intros tl Htl'. apply map_ext_in. intros b Hin. unfold load_block.
    rewrite Htl'; [reflexivity |]. rewrite Forall_forall in Hall.
    apply Hall, list_elem_of_In, Hin. }
  cbn [chain current_transactions nodes].
  split; [| split; [exact Htl1 | split; [reflexivity |]]].
  { unfold load_chain at 1. rewrite Hbl1. apply (Hold (tlists w1)). exact Htl. }
  apply new_transaction_inv in Htx as (t & -> & Hts & Htr & Hta).
  apply new_block_inv in Hnew as (s & -> & -> & -> & _).
  unfold sealed, resealed, next_block, load_chain at 1 3, load_block.
  cbn [chain current_transactions transactions tlists blists tnext index timestamp proof
       previous_hash].
  rewrite Htn.
  assert (Ht3 : forall r, (r < tnext w)%nat ->
                  (<[S (S (S (tnext w))) := []]>
                     (<[S (S (tnext w)) := tlists w1 (S (S (tnext w))) ++ [t]]> (tlists w1))) r
                  = tlists w r).
  { intros r Hlt. rewrite !fn_lookup_insert_ne by lia. apply Htl. exact Hlt. }
  split; [| split; [| split]].
  - rewrite fn_lookup_insert_ne by lia. rewrite (Hbl _ Hch).
    apply (Hold _ Ht3).
  - apply Ht3. exact Hct.
  - rewrite fn_lookup_insert, Hbl1, map_app. f_equal.
    apply (Hold _ Ht3).
  - exists t. rewrite fn_lookup_insert_ne by lia. rewrite fn_lookup_insert, Htl1. auto.
Qed.

Lemma clone_writes_stay_apart_witness :
  exists copy w1 i w2 copy' blk w3,
    clone demo_ledger demo_world = Return copy w1
    /\ new_transaction copy "X" (PStr "bob") 2 None None w1 = Return i w2
    /\ new_block copy 4 None w2 = Return (copy', blk) w3
    /\ load_chain w1 (chain copy) = load_chain demo_world (chain demo_ledger)
    /\ tlists w1 (current_transactions copy)
       = tlists demo_world (current_transactions demo_ledger)
    /\ nodes copy = nodes demo_ledger
    /\ load_chain w3 (chain demo_ledger) = load_chain demo_world (chain demo_ledger)
    /\ tlists w3 (current_transactions demo_ledger)
       = tlists demo_world (current_transactions demo_ledger)
    /\ load_chain w3 (chain copy')
       = load_chain demo_world (chain demo_ledger) ++ [load_block w3 blk]
    /\ exists t, tlists w3 (transactions blk)
                 = tlists demo_world (current_transactions demo_ledger) ++ [t]
                 /\ sender t = "X" /\ recipient t = PStr "bob" /\ amount t = 2.
Proof.
  eexists _, _, _, _, _, _, _.
  split; [vm_compute; reflexivity |].
  split; [vm_compute; reflexivity |].
  split; [vm_compute; reflexivity |].
  eapply (clone_writes_stay_apart demo_ledger demo_world _ _ "X" (PStr "bob") 2 None None
            _ _ 4 None).
  - exact demo_allocated.
  - vm_compute. reflexivity.
  - vm_compute. reflexivity.
  - vm_compute. reflexivity.
Defined.

(** The first peer is examined against the starting maximum, the others
    against the maximum the first one leaves. *)
Lemma examined_nonempty_head self fetch node rest max_length :
  examined_nonempty self fetch (node :: rest) max_length ->
  status_code (fetch node) = 200 ->
  json_length (fetch node) > max_length ->
  json_chain (fetch node) <> [].
Proof. intros H. apply (H [] node rest). reflexivity. Qed.

Lemma examined_nonempty_tail self fetch node rest max_length :
  examined_nonempty self fetch (node :: rest) max_length ->
  examined_nonempty self fetch rest
    (if acceptable self max_length (fetch node) then json_length (fetch node) else max_length).
Proof.
  intros H pre n post Hsplit. apply (H (node :: pre) n post). rewrite Hsplit. reflexivity.
Qed.

(** The scan of the peers, when no candidate it examines is empty. *)
Lemma resolve_scan_examined self fetch neighbours :
  forall max_length new_chain,
  examined_nonempty self fetch neighbours max_length ->
  exists res,
    resolve_scan self fetch neighbours max_length new_chain = Ok res
    /\ ((res = new_chain
         /\ forall n, In n neighbours -> acceptable self max_length (fetch n) = false)
        \/ exists pre n post,
             neighbours = pre ++ n :: post
             /\ res = Some (json_chain (fetch n))
             /\ acceptable self max_length (fetch n) = true
             /\ (forall m, In m pre -> acceptable self max_length (fetch m) = true ->
                           json_length (fetch m) < json_length (fetch n))
             /\ (forall m, In m post -> acceptable self max_length (fetch m) = true ->
                           json_length (fetch m) <= json_length (fetch n))).
Proof.
  induction neighbours as [|node rest IH]; intros max_length new_chain Hne.
  - exists new_chain. split; [reflexivity |]. left. split; [reflexivity | intros n []].
  - pose proof (examined_nonempty_tail _ _ _ _ _ Hne) as Htail.
    cbn [resolve_scan].
    destruct (acceptable self max_length (fetch node)) eqn:Hacc.
    + pose proof Hacc as Hacc'. unfold acceptable in Hacc'.
      apply andb_prop in Hacc' as [H Hv]. apply andb_prop in H as [Hs Hl].
      rewrite Hs, Hl.
      destruct (valid_chain self (json_chain (fetch node)) true) as [[|]|] eqn:Hvalid;
        try discriminate.
      apply Z.gtb_lt in Hl.
      destruct (IH (json_length (fetch node)) (Some (json_chain (fetch node))) Htail)
        as (res & Hres & Hcases).
      exists res. split; [exact Hres |]. right.
      destruct Hcases as [[-> Hnone] | (pre & n & post & -> & -> & Hn & Hpre & Hpost)].
      * exists [], node, rest. split; [reflexivity |]. split; [reflexivity |].
        split; [exact Hacc |]. split; [intros m [] |].
        intros m Hin Hm.
        destruct (Z.le_gt_cases (json_length (fetch m)) (json_length (fetch node)))
          as [Hle | Hgt]; [exact Hle |].
        exfalso. specialize (Hnone m Hin). unfold acceptable in *.
        apply andb_prop in Hm as [H Hv']. apply andb_prop in H as [Hs' _].
        rewrite Hs', Hv' in Hnone.
        destruct (Z.gtb_spec (json_length (fetch m)) (json_length (fetch node)));
          [discriminate | lia].
      * assert (Hlt : json_length (fetch node) < json_length (fetch n)).
        { unfold acceptable in Hn. apply andb_prop in Hn as [H _].
          apply andb_prop in H as [_ H]. apply Z.gtb_lt in H. exact H. }
        exists (node :: pre), n, post. split; [reflexivity |]. split; [reflexivity |].
        split; [apply (acceptable_mono _ max_length) in Hn; [exact Hn | lia] |].
        split.
        -- intros m [<- | Hin] Hm; [exact Hlt |].
           destruct (Z.le_gt_cases (json_length (fetch m)) (json_length (fetch node)))
             as [Hle | Hgt]; [lia |].
           apply Hpre; [exact Hin |]. unfold acceptable in *.
           apply andb_prop in Hm as [H Hv']. apply andb_prop in H as [Hs' _].
           rewrite Hs', Hv'.
           destruct (Z.gtb_spec (json_length (fetch m)) (json_length (fetch node)));
             [reflexivity | lia].
        -- intros m Hin Hm.
           destruct (Z.le_gt_cases (json_length (fetch m)) (json_length (fetch node)))
             as [Hle | Hgt]; [lia |].
           apply Hpost; [exact Hin |]. unfold acceptable in *.
           apply andb_prop in Hm as [H Hv']. apply andb_prop in H as [Hs' _].
           rewrite Hs', Hv'.
           destruct (Z.gtb_spec (json_length (fetch m)) (json_length (fetch node)));
             [reflexivity | lia].
    + assert (Hsame : resolve_scan self fetch (node :: rest) max_length new_chain
                      = resolve_scan self fetch rest max_length new_chain).
      { cbn [resolve_scan]. unfold acceptable in Hacc.
        destruct (status_code (fetch node) =? 200) eqn:Hs; [| reflexivity].
        destruct (json_length (fetch node) >? max_length) eqn:Hl; [| reflexivity].
        simpl in Hacc.
        destruct (valid_chain self (json_chain (fetch node)) true) as [[|]|e] eqn:Hvalid;
          [discriminate | reflexivity |].
        exfalso. apply valid_chain_Error in Hvalid.
        apply (examined_nonempty_head _ _ _ _ _ Hne); [now apply Z.eqb_eq | | exact Hvalid].
        apply Z.gtb_lt in Hl. lia. }
      cbn [resolve_scan] in Hsame. rewrite Hsame.
      destruct (IH max_length new_chain Htail) as (res & Hres & Hcases).
      exists res. split; [exact Hres |].
      destruct Hcases as [[-> Hnone] | (pre & n & post & -> & -> & Hn & Hpre & Hpost)].
      * left. split; [reflexivity |]. intros n [<- | Hin]; auto.
      * right. exists (node :: pre), n, post. split; [reflexivity |]. split; [reflexivity |].
        split; [exact Hn |]. split; [| exact Hpost].
        intros m [<- | Hin] Hm; [congruence | auto].
Qed.

(** X16. resolve_conflicts, when no candidate it examines is empty,
    returns; a peer's chain is examined when the peer answers 200 and
    reports more than the running maximum at its turn. It returns False,
    having changed nothing, exactly when no peer answers 200 with a reported
    length above the local one and a chain that valid_chain accepts. When it
    returns True, the new chain is the chain sent by such a peer,
    valid_chain accepts it, and no such peer reports a greater length; the
    list objects that existed are left as they were. *)
Theorem resolve_conflicts_adopts_longest self fetch w :
  examined_nonempty self fetch (nodes self) (Z.of_nat (length (blists w (chain self)))) ->
  exists self' replaced w',
    resolve_conflicts self fetch w = Return (self', replaced) w'
    /\ store_le w w'
    /\ (replaced = false <->
        forall n, In n (nodes self) ->
                  acceptable self (Z.of_nat (length (blists w (chain self)))) (fetch n) = false)
    /\ (replaced = false -> self' = self /\ w' = w)
    /\ (replaced = true ->
        exists n,
          In n (nodes self)
          /\ acceptable self (Z.of_nat (length (blists w (chain self)))) (fetch n) = true
          /\ load_chain w' (chain self') = json_chain (fetch n)
          /\ valid_chain self (load_chain w' (chain self')) true = Ok true
          /\ current_transactions self' = current_transactions self
          /\ forall m, In m (nodes self) ->
                acceptable self (Z.of_nat (length (blists w (chain self)))) (fetch m) = true ->
                json_length (fetch m) <= json_length (fetch n)).
Proof.
  intros Hne.
  destruct (resolve_scan_examined self fetch (nodes self)
              (Z.of_nat (length (blists w (chain self)))) None Hne)
    as (res & Hres & [[-> Hnone] | (pre & n & post & Hsplit & -> & Hn & Hpre & Hpost)]).
  - exists self, false, w. split.
    { unfold resolve_conflicts, bind, get_blist. rewrite Hres. reflexivity. }
    split; [apply store_le_refl |].
    split; [split; [intros _; exact Hnone | reflexivity] |].
    split; [intros _; split; reflexivity | discriminate].
  - assert (Hcons : exists b c, json_chain (fetch n) = b :: c).
    { unfold acceptable in Hn. apply andb_prop in Hn as [_ Hv].
      destruct (json_chain (fetch n)) as [|b c]; [discriminate | eauto]. }
    destruct Hcons as (b & c & Hbc).
    destruct (alloc_chain_spec (json_chain (fetch n)) w) as (w' & E & Hle & Hload).
    eexists _, true, w'. split.
    { unfold resolve_conflicts. unfold bind at 1. unfold get_blist at 1.
      unfold bind at 1. rewrite Hres. cbn [lift ret]. rewrite Hbc. rewrite Hbc in E.
      unfold bind. rewrite E. reflexivity. }
    split; [exact Hle |].
    assert (Hin : In n (nodes self)).
    { rewrite Hsplit. apply in_app_iff. right. now left. }
    split; [split; [discriminate |] |].
    { intros Hnone. rewrite (Hnone n Hin) in Hn. discriminate. }
    split; [discriminate |]. intros _. exists n. cbn [chain current_transactions].
    split; [exact Hin |]. split; [exact Hn |]. split; [exact Hload |].
    split; [| split; [reflexivity |]].
    + rewrite Hload. unfold acceptable in Hn. apply andb_prop in Hn as [_ Hv].
      destruct (valid_chain self (json_chain (fetch n)) true) as [[|]|]; try discriminate.
      reflexivity.
    + intros m Hm Hacc. rewrite Hsplit in Hm.
      apply in_app_iff in Hm as [Hm | [<- | Hm]].
      * pose proof (Hpre m Hm Hacc). lia.
      * lia.
      * exact (Hpost m Hm Hacc).
Qed.

Lemma late_empty_examined :
  examined_nonempty (MkBlockchain 2 0 ["peer1"; "peer2"] 4 0 0) late_empty_peers
    ["peer1"; "peer2"] 2.
Proof.
  intros pre n post Hsplit Hs Hl.
  destruct pre as [|p1 pre]; [inversion Hsplit; subst; discriminate |].
  destruct pre as [|p2 pre].
  - inversion Hsplit; subst. exfalso. vm_compute in Hl. discriminate.
  - exfalso. inversion Hsplit as [[H1 H2]]. destruct pre; discriminate.
Qed.

Lemma resolve_conflicts_adopts_longest_witness :
  exists self' replaced w',
    resolve_conflicts (MkBlockchain 2 0 ["peer1"; "peer2"] 4 0 0) late_empty_peers demo_world
    = Return (self', replaced) w'
    /\ store_le demo_world w'
    /\ (replaced = false <->
        forall n, In n ["peer1"; "peer2"] ->
                  acceptable (MkBlockchain 2 0 ["peer1"; "peer2"] 4 0 0) 2
                             (late_empty_peers n) = false)
    /\ (replaced = false ->
        self' = MkBlockchain 2 0 ["peer1"; "peer2"] 4 0 0 /\ w' = demo_world)
    /\ (replaced = true ->
        exists n,
          In n ["peer1"; "peer2"]
          /\ acceptable (MkBlockchain 2 0 ["peer1"; "peer2"] 4 0 0) 2 (late_empty_peers n)
             = true
          /\ load_chain w' (chain self') = json_chain (late_empty_peers n)
          /\ valid_chain (MkBlockchain 2 0 ["peer1"; "peer2"] 4 0 0)
                         (load_chain w' (chain self')) true = Ok true
          /\ current_transactions self' = 2%nat
          /\ forall m, In m ["peer1"; "peer2"] ->
                acceptable (MkBlockchain 2 0 ["peer1"; "peer2"] 4 0 0) 2 (late_empty_peers m)
                = true ->
                json_length (late_empty_peers m) <= json_length (late_empty_peers n)).
Proof.
  apply (resolve_conflicts_adopts_longest (MkBlockchain 2 0 ["peer1"; "peer2"] 4 0 0)
           late_empty_peers demo_world).
  exact late_empty_examined.
Defined.

(** X17. resolve_conflicts compares the length a peer reports, never the
    length of the chain the peer sends: a single peer that answers 200,
    reports more than the local length and sends one block has that block
    adopted as the whole chain, however long the local chain is. *)
Theorem resolve_conflicts_trusts_reported_length self fetch w n b :
  nodes self = [n] ->
  status_code (fetch n) = 200 ->
  json_length (fetch n) > Z.of_nat (length (blists w (chain self))) ->
  json_chain (fetch n) = [b] ->
  exists w',
    resolve_conflicts self fetch w
    = Return (MkBlockchain (current_transactions self) (bnext w) (nodes self)
                           (mining_rate self) (proof_sum self) (proof_cnt self),
              true) w'
    /\ load_chain w' (bnext w) = [b]
    /\ store_le w w'.
Proof.
  intros Hn Hs Hl Hc.
  destruct (alloc_chain_spec [b] w) as (w' & E & Hle & Hload).
  exists w'. split; [| split; assumption].
  unfold resolve_conflicts. unfold bind at 1. unfold get_blist at 1. unfold bind at 1.
  rewrite Hn. cbn [resolve_scan]. rewrite Hs, Hc. cbn [Z.eqb Pos.eqb].
  destruct (Z.gtb_spec (json_length (fetch n)) (Z.of_nat (length (blists w (chain self)))));
    [| lia].
  cbn [valid_chain valid_chain_from lift ret]. unfold bind. rewrite E. reflexivity.
Qed.

Lemma resolve_conflicts_trusts_reported_length_witness :
  exists w',
    resolve_conflicts (MkBlockchain 2 0 ["peer1"] 4 0 0) demo_peers demo_world
    = Return (MkBlockchain 2 1 ["peer1"] 4 0 0, true) w'
    /\ load_chain w' 1 = [Block 1 (PyFloat 1699999990 "25") [] 84390 "1"]
    /\ store_le demo_world w'.
Proof.
  apply (resolve_conflicts_trusts_reported_length (MkBlockchain 2 0 ["peer1"] 4 0 0)
           demo_peers demo_world "peer1").
  - reflexivity.
  - reflexivity.
  - simpl. lia.
  - reflexivity.
Defined.

(** ** PyCryptoSim *)

(** X18. key_pair never raises. When the public key it draws is already
    registered it never returns: the loop has no other exit. Otherwise it
    registers the pair, without touching the pairs already there, and
    returns it; both keys are uuids with the hyphens removed, followed by
    the message, hyphens removed as well. *)
Theorem key_pair_returns_or_hangs self msg w :
  key_pair self msg w
  = match dict_get (pairs self) (str_remove "-" (uuids w (drawn w) +:+ default "" msg)) with
    | Some _ => Hang
    | None =>
        Return (MkPyCryptoSim
                  (dict_set (pairs self)
                            (str_remove "-" (uuids w (drawn w) +:+ default "" msg))
                            (str_remove "-" (uuids w (S (drawn w)) +:+ default "" msg))),
                (str_remove "-" (uuids w (drawn w) +:+ default "" msg),
                 str_remove "-" (uuids w (S (drawn w)) +:+ default "" msg)))
               (World (tlists w) (tnext w) (blists w) (bnext w)
                      (clock w) (ticks w) (uuids w) (S (S (drawn w))))
    end.
Proof.
  unfold key_pair, bind, uuid4. simpl.
  destruct (dict_get (pairs self) _) eqn:E; [reflexivity |].
  rewrite dict_get_set, String.eqb_refl. reflexivity.
Qed.

(** X19. The pair that key_pair returns verifies: verify accepts, for the
    public key, the commitment of any message under the private key. The
    public key was not registered before, and verify answers for every
    other public key as it did before. *)
Theorem key_pair_verifies self msg w sim public private w' :
  key_pair self msg w = Return (sim, (public, private)) w' ->
  (forall m, verify sim public m (commit private m) = true)
  /\ dict_get (pairs self) public = None
  /\ (forall pk m c, pk <> public -> verify sim pk m c = verify self pk m c).
Proof.
  unfold key_pair, bind, uuid4. simpl.
  destruct (dict_get (pairs self) _) eqn:E; [discriminate |].
  rewrite dict_get_set, String.eqb_refl. simpl.
  intros H. inversion H; subst; clear H. split; [| split].
  - intros m. unfold verify. cbn [pairs]. rewrite dict_get_set. apply String.eqb_refl.
  - exact E.
  - intros pk m c Hne. unfold verify. cbn [pairs].
    rewrite dict_get_set_ne by congruence. reflexivity.
Qed.

Lemma key_pair_verifies_witness :
  exists sim public private w',
    key_pair (crypto demo_A) (Some "-salt") demo_world = Return (sim, (public, private)) w'
    /\ (forall m, verify sim public m (commit private m) = true)
    /\ dict_get (pairs (crypto demo_A)) public = None
    /\ (forall pk m c, pk <> public -> verify sim pk m c = verify (crypto demo_A) pk m c).
Proof.
  eexists _, _, _, _. split; [vm_compute; reflexivity |].
  eapply (key_pair_verifies (crypto demo_A) (Some "-salt") demo_world).
  vm_compute. reflexivity.
Defined.

Lemma list_ascii_of_string_app (a b : string) :
  list_ascii_of_string (a +:+ b) = list_ascii_of_string a ++ list_ascii_of_string b.
Proof.
  induction a as [|c a IH]; [reflexivity |].
  change (c :: list_ascii_of_string (a +:+ b) = c :: (list_ascii_of_string a ++ list_ascii_of_string b)).
  now f_equal.
Qed.

Lemma encode_app (a b : string) : encode (a +:+ b) = encode a ++ encode b.
Proof. unfold encode. rewrite list_ascii_of_string_app. apply flat_map_app. Qed.

(** X20. commit reads the first 64 bytes of the private key followed by the
    message, and nothing after them: two messages whose encodings agree on
    the bytes that are left after the key have the same commitment, and
    verify accepts the commitment of the one for the other. With a key of 64
    bytes or more the message is not read at all. *)
Theorem commit_reads_64_bytes sim public private m1 m2 :
  dict_get (pairs sim) public = Some private ->
  firstn (64 - length (encode private)) (encode m1)
  = firstn (64 - length (encode private)) (encode m2) ->
  commit private m1 = commit private m2
  /\ verify sim public m2 (commit private m1) = true.
Proof.
  intros Hget Hagree.
  assert (Hc : commit private m1 = commit private m2).
  { unfold commit. rewrite !encode_app, !firstn_app, Hagree. reflexivity. }
  split; [exact Hc |]. unfold verify. rewrite Hget, Hc. apply String.eqb_refl.
Qed.

Lemma commit_reads_64_bytes_witness :
  commit "0123456789abcdef0123456789abcdef" "8f1c2e3a-aaaa-bbbb-cccc-dddddddddddd-pay-1"
  = commit "0123456789abcdef0123456789abcdef" "8f1c2e3a-aaaa-bbbb-cccc-dddddddddddd-pay-9"
  /\ verify (MkPyCryptoSim [("pub", "0123456789abcdef0123456789abcdef")]) "pub"
            "8f1c2e3a-aaaa-bbbb-cccc-dddddddddddd-pay-9"
            (commit "0123456789abcdef0123456789abcdef"
                    "8f1c2e3a-aaaa-bbbb-cccc-dddddddddddd-pay-1") = true.
Proof.
  apply (commit_reads_64_bytes (MkPyCryptoSim [("pub", "0123456789abcdef0123456789abcdef")])
           "pub").
  - reflexivity.
  - vm_compute. reflexivity.
Defined.

(** ** Ent: new_address and balance *)

Lemma dict_set_new {V} (d : list (string * V)) (k : string) (v : V) :
  dict_get d k = None -> dict_set d k v = d ++ [(k, v)].
Proof.
  induction d as [|[k0 v0] d IH]; simpl; [reflexivity |].
  destruct (String.eqb k0 k); [discriminate |]. intros H. f_equal. auto.
Qed.

Lemma dict_get_None_keys {V} (d : list (string * V)) (k : string) :
  dict_get d k = None <-> ~ In k (map fst d).
Proof.
  induction d as [|[k0 v0] d IH]; simpl; [tauto |].
  destruct (String.eqb_spec k0 k) as [-> | Hne].
  - split; [discriminate | tauto].
  - rewrite IH. tauto.
Qed.

(** Minting an address that is new to the simulator keeps the addresses
    registered and puts the new one last. *)
Lemma registered_mint self pub priv :
  registered self ->
  dict_get (pairs (crypto self)) pub = None ->
  registered (MkEnt (name self) (dict_set (keys self) pub priv)
                    (MkPyCryptoSim (dict_set (pairs (crypto self)) pub priv)))
  /\ dict_set (keys self) pub priv = keys self ++ [(pub, priv)]
  /\ ~ In pub (map fst (keys self)).
Proof.
  intros [Hnd Hreg] Hget.
  assert (Hk : dict_get (keys self) pub = None).
  { destruct (dict_get (keys self) pub) eqn:E; [| reflexivity].
    apply dict_get_Some_In, Hreg in E. congruence. }
  assert (Hnew : ~ In pub (map fst (keys self))) by (apply dict_get_None_keys; exact Hk).
  split; [| split; [apply dict_set_new; exact Hk | exact Hnew]].
  unfold registered. cbn [keys crypto pairs]. rewrite (dict_set_new (keys self)) by exact Hk.
  split.
  - rewrite map_app. apply NoDup_app. repeat split.
    + exact Hnd.
    + intros k Hin Hin'. apply list_elem_of_In in Hin'. destruct Hin' as [<- | []].
      apply Hnew. apply list_elem_of_In. exact Hin.
    + apply NoDup_singleton.
  - intros pk sk Hin. apply in_app_iff in Hin as [Hin | [Heq | []]].
    + destruct (String.eqb_spec pub pk) as [<- | Hne].
      * exfalso. apply Hnew. apply (in_map fst _ _ Hin).
      * rewrite dict_get_set_ne by assumption. auto.
    + inversion Heq; subst. apply dict_get_set.
Qed.

(** X21. new_address on an entity whose addresses are registered returns
    an address the entity did not hold, appends it with its private key to
    the entity's keys, and keeps every address registered: verify accepts,
    for the new address as for the old ones, the commitment of any message
    under the private key the entity holds. No list object is touched. *)
Theorem new_address_registers self w self' address w' :
  registered self ->
  new_address self w = Return (self', address) w' ->
  registered self'
  /\ ~ In address (map fst (keys self))
  /\ (exists sk, keys self' = keys self ++ [(address, sk)])
  /\ (forall pk sk msg, In (pk, sk) (keys self') ->
                        verify (crypto self') pk msg (commit sk msg) = true)
  /\ name self' = name self
  /\ only_draws w w'.
Proof.
  intros Hreg H.
  pose proof (keeps_new_address self w _ w' H) as Hdraw.
  rewrite new_address_eq in H.
  destruct (dict_get (pairs (crypto self)) _) eqn:Hget; [discriminate |].
  inversion H; subst; clear H.
  destruct (registered_mint self _ (str_remove "-" (uuids w (S (drawn w)))) Hreg Hget)
    as (Hreg' & Hkeys & Hnew).
  split; [exact Hreg' |]. split; [exact Hnew |].
  split; [eexists; cbn [keys]; exact Hkeys |].
  split; [| split; [reflexivity | exact Hdraw]].
  intros pk sk msg Hin. apply registered_verify; assumption.
Qed.

Lemma new_address_registers_witness :
  exists self' address w',
    new_address demo_A demo_world = Return (self', address) w'
    /\ registered self'
    /\ ~ In address (map fst (keys demo_A))
    /\ (exists sk, keys self' = keys demo_A ++ [(address, sk)])
    /\ (forall pk sk msg, In (pk, sk) (keys self') ->
                          verify (crypto self') pk msg (commit sk msg) = true)
    /\ name self' = name demo_A
    /\ only_draws demo_world w'.
Proof.
  eexists _, _, _. split; [vm_compute; reflexivity |].
  eapply (new_address_registers demo_A demo_world).
  - exact registered_demo_A.
  - vm_compute. reflexivity.
Defined.

Lemma dict_add_known (b : list (string * Z)) (pk : string) (delta : Z) w :
  In pk (map fst b) ->
  exists b', dict_add b pk delta w = Return b' w /\ map fst b' = map fst b.
Proof.
  intros Hin. unfold dict_add. destruct (dict_get b pk) as [v|] eqn:E.
  - eexists. split; [reflexivity |]. rewrite dict_set_keys, E. reflexivity.
  - apply dict_get_None_keys in E. contradiction.
Qed.

Lemma balance_tx_returns self pk sk b t w :
  In pk (map fst b) ->
  exists b' w', balance_tx self pk sk b t w = Return b' w'
                /\ map fst b' = map fst b /\ only_draws w w'.
Proof.
  intros Hin. unfold balance_tx.
  assert (H1 : exists b1 w1,
             (if String.eqb pk (sender t)
              then bind time (fun t0 =>
                     if verify (crypto self) (sender t) (repr_float t0)
                               (commit sk (repr_float t0))
                     then dict_add b pk (- amount t)
                     else ret b)
              else ret b) w = Return b1 w1
             /\ map fst b1 = map fst b /\ only_draws w w1).
  { destruct (String.eqb pk (sender t)).
    - unfold bind, time. destruct (verify _ _ _ _).
      + destruct (dict_add_known b pk (- amount t) (tick w) Hin) as (b' & E & Hk).
        unfold tick in E. rewrite E. eexists _, _. split; [reflexivity |].
        split; [exact Hk | apply only_draws_tick].
      + eexists _, _. split; [reflexivity |]. split; [reflexivity | apply only_draws_tick].
    - exists b, w. split; [reflexivity |]. split; [reflexivity | apply only_draws_refl]. }
  destruct H1 as (b1 & w1 & E1 & Hk1 & Hd1). rewrite (bind_Return _ _ _ _ _ E1).
  assert (Hin1 : In pk (map fst b1)) by (rewrite Hk1; exact Hin).
  destruct (recipient t) as [r | r].
  - destruct (String.eqb pk r).
    + unfold bind, uuid4. destruct (verify _ _ _ _).
      * match goal with |- context [dict_add b1 pk (amount t) ?W] =>
          destruct (dict_add_known b1 pk (amount t) W Hin1) as (b' & E & Hk)
        end.
        rewrite E. eexists _, _. split; [reflexivity |]. split; [congruence |].
        eapply only_draws_trans; [exact Hd1 | apply only_draws_draw].
      * eexists _, _. split; [reflexivity |]. split; [exact Hk1 |].
        eapply only_draws_trans; [exact Hd1 | apply only_draws_draw].
    + exists b1, w1. auto.
  - exists b1, w1. auto.
Qed.

Lemma foldM_returns {A B} (f : B -> A -> M B) (P : B -> Prop) (R : world -> world -> Prop) :
  (forall w, R w w) -> (forall w1 w2 w3, R w1 w2 -> R w2 w3 -> R w1 w3) ->
  (forall b a w, P b -> exists b' w', f b a w = Return b' w' /\ P b' /\ R w w') ->
  forall l b w, P b -> exists b' w', foldM f l b w = Return b' w' /\ P b' /\ R w w'.
Proof.
  intros Hrefl Htrans Hf. induction l as [|a l IH]; intros b w Hb; simpl.
  - exists b, w. auto.
  - destruct (Hf b a w Hb) as (b1 & w1 & E1 & Hb1 & Hr1).
    rewrite (bind_Return _ _ _ _ _ E1).
    destruct (IH b1 w1 Hb1) as (b2 & w2 & E2 & Hb2 & Hr2).
    exists b2, w2. eauto.
Qed.

Lemma zero_balance_keys (items : list (string * string)) :
  forall b0 : list (string * Z),
  forall pk, In pk (map fst (fold_left (fun b item => dict_set b (fst item) 0) items b0))
             <-> In pk (map fst b0) \/ In pk (map fst items).
Proof.
  induction items as [|[k sk] items IH]; intros b0 pk; simpl; [tauto |].
  rewrite IH, dict_set_keys. destruct (dict_get b0 k) eqn:E.
  - split; [tauto |]. intros [H | [<- | H]]; auto.
    left. apply dict_get_Some_In in E. apply (in_map fst _ _ E).
  - rewrite in_app_iff. simpl. tauto.
Qed.

(** balance returns whatever the chain and the keys. *)
Lemma balance_returns self blockchain w :
  exists total per_address w',
    balance self blockchain w = Return (total, per_address) w'
    /\ (forall pk, In pk (map fst per_address) <-> In pk (map fst (keys self))).
Proof.
  unfold balance.
  set (b0 := fold_left (fun b item => dict_set b (fst item) 0) (keys self) []).
  assert (Hkeys : forall pk, In pk (map fst b0) <-> In pk (map fst (keys self))).
  { intros pk. unfold b0. rewrite zero_balance_keys. simpl. tauto. }
  assert (Hfold : forall items b w0,
             (forall item, In item items -> In (fst item) (map fst b0)) ->
             map fst b = map fst b0 ->
             exists b' w', foldM (balance_key self blockchain) items b w0 = Return b' w'
                           /\ map fst b' = map fst b0 /\ only_draws w0 w').
  { induction items as [|[pk sk] items IH]; intros b w0 Hitems Hb; simpl.
    - exists b, w0. split; [reflexivity |]. split; [exact Hb | apply only_draws_refl].
    - assert (Hpk : In pk (map fst b0)) by (apply (Hitems (pk, sk)); now left).
      destruct (foldM_returns (balance_block self pk sk)
                  (fun b => map fst b = map fst b0) only_draws
                  only_draws_refl only_draws_trans) with (l := blists w0 (chain blockchain))
                  (b := b) (w := w0) as (b1 & w1 & E1 & Hb1 & Hd1).
      + intros b2 blk w2 Hb2. unfold balance_block, bind, get_tlist.
        destruct (tlists w2 (transactions blk)) as [|t txs] eqn:Etx.
        * exists b2, w2. split; [reflexivity |]. split; [exact Hb2 | apply only_draws_refl].
        * apply (foldM_returns (balance_tx self pk sk)
                   (fun b => map fst b = map fst b0) only_draws
                   only_draws_refl only_draws_trans); [| exact Hb2].
          intros b3 t3 w3 Hb3.
          destruct (balance_tx_returns self pk sk b3 t3 w3) as (b4 & w4 & E4 & Hk4 & Hd4).
          { rewrite Hb3. exact Hpk. }
          exists b4, w4. split; [exact E4 |]. split; [congruence | exact Hd4].
      + exact Hb.
      + unfold balance_key at 1. unfold bind at 1. unfold get_blist at 1. unfold bind at 1.
        cbn [fst snd]. rewrite E1.
        destruct (IH b1 w1) as (b2 & w2 & E2 & Hb2 & Hd2).
        * intros item Hin. apply Hitems. now right.
        * exact Hb1.
        * exists b2, w2. split; [exact E2 |]. split; [exact Hb2 |].
          eapply only_draws_trans; eassumption. }
  destruct (Hfold (keys self) b0 w) as (b' & w' & E & Hb' & Hd).
  { intros item Hin. apply Hkeys. apply (in_map fst _ _ Hin). }
  { reflexivity. }
  rewrite (bind_Return _ _ _ _ _ E). eexists _, b', w'. split; [reflexivity |].
  intros pk. rewrite Hb'. apply Hkeys.
Qed.

(** X22. balance always returns, and it only reads: whatever the chain and
    the keys, it raises nothing and leaves every list object as it was. It
    reports one balance for each address the entity holds, and the total is
    their sum. *)
Theorem balance_reads_only self blockchain w :
  exists total per_address w',
    balance self blockchain w = Return (total, per_address) w'
    /\ only_draws w w'
    /\ total = sum_coins per_address
    /\ (forall pk, In pk (map fst per_address) <-> In pk (map fst (keys self))).
Proof.
  destruct (balance_returns self blockchain w) as (total & per & w' & E & Hkeys).
  exists total, per, w'. split; [exact E |].
  split; [exact (keeps_balance self blockchain w _ w' E) |].
  split; [| exact Hkeys].
  unfold balance in E. apply bind_inv in E as (b & w0 & _ & Hret).
  inversion Hret; subst. rewrite fold_left_sum. lia.
Qed.

Lemma balance_registered self blockchain w :
  registered self ->
  exists w',
    balance self blockchain w
    = Return (sum_coins (balances_of self (all_transactions w blockchain)),
              balances_of self (all_transactions w blockchain)) w'
    /\ only_draws w w'.
Proof.
  intros Hreg. pose proof Hreg as [Hnd _].
  unfold balance. rewrite zero_balance_eq by assumption.
  destruct (balance_keys_spec self blockchain (fun _ => true) (map fst (keys self)) w Hnd
              (keys self) Hnd)
    with (f := fun _ : string => 0) (w := w) as (f' & w' & E & Hd & Hf & _).
  { intros pk sk Hin. split; [apply (in_map fst _ _ Hin) |].
    intros msg. apply registered_verify; assumption. }
  { apply only_draws_refl. }
  rewrite (bind_Return _ _ _ _ _ E). exists w'. split; [| assumption].
  assert (Heq : dict_of (map fst (keys self)) f'
                = balances_of self (all_transactions w blockchain)).
  { unfold dict_of, balances_of. rewrite map_map. apply map_ext_in. intros [pk sk] Hin.
    simpl. rewrite Hf by apply (in_map fst _ _ Hin). reflexivity. }
  rewrite Heq, fold_left_sum. reflexivity.
Qed.

Lemma all_transactions_load w self :
  all_transactions w self = concat (map transactions (load_chain w (chain self))).
Proof. unfold all_transactions, load_chain. rewrite map_map. reflexivity. Qed.

(** X23. balance counts the transactions of the chain only: a transaction
    that new_transaction has put in the pending list changes no balance
    until a block holds it. *)
Theorem balance_ignores_pending self blockchain w from to coins sig msg i w1 :
  registered self -> pending_apart w blockchain ->
  new_transaction blockchain from to coins sig msg w = Return i w1 ->
  value (balance self blockchain w1) = value (balance self blockchain w).
Proof.
  intros Hreg Hapart Htx.
  destruct (balance_registered self blockchain w Hreg) as (w' & E & _).
  destruct (balance_registered self blockchain w1 Hreg) as (w1' & E1 & _).
  rewrite E, E1. simpl. f_equal.
  assert (Hall : all_transactions w1 blockchain = all_transactions w blockchain).
  { apply new_transaction_inv in Htx as (t & -> & _). unfold all_transactions. simpl.
    f_equal. apply map_ext_in. intros b Hin. unfold pending_apart in Hapart.
    rewrite Forall_forall in Hapart.
    rewrite fn_lookup_insert_ne; [reflexivity |].
    intros Heq. eapply Hapart; [apply list_elem_of_In; exact Hin | now symmetry]. }
  rewrite Hall. reflexivity.
Qed.

Lemma balance_ignores_pending_witness :
  exists i w1,
    new_transaction demo_ledger "X" (PStr "bob") 2 None None demo_world = Return i w1
    /\ value (balance demo_A demo_ledger w1) = value (balance demo_A demo_ledger demo_world).
Proof.
  eexists _, _. split; [vm_compute; reflexivity |].
  eapply (balance_ignores_pending demo_A demo_ledger demo_world "X" (PStr "bob") 2 None None).
  - exact registered_demo_A.
  - unfold pending_apart. simpl.
    constructor; [simpl; lia | constructor; [simpl; lia | constructor]].
  - vm_compute. reflexivity.
Defined.

(** ** Ent: mine *)

Lemma valid_chain_from_snoc v (g : blockv) rest lb nb :
  valid_chain_from v g rest = true ->
  last (g :: rest) = Some lb ->
  previous_hash nb = hash lb ->
  valid_proof (proof lb) (proof nb) (mining_rate v) = true ->
  valid_chain_from v g (rest ++ [nb]) = true.
Proof.
  revert g. induction rest as [|a rest IH]; intros g Hv Hlast Hh Hp.
  - simpl in Hlast. inversion Hlast; subst lb. simpl.
    rewrite Hh, String.eqb_refl, Hp. reflexivity.
  - simpl in Hv |- *.
    destruct (negb (String.eqb (previous_hash a) (hash g))); [discriminate |].
    destruct (negb (valid_proof (proof g) (proof a) (mining_rate v))); [discriminate |].
    apply IH; assumption.
Qed.

Lemma valid_chain_snoc v (l : list blockv) lb nb silence :
  valid_chain v l silence = Ok true ->
  last l = Some lb ->
  previous_hash nb = hash lb ->
  valid_proof (proof lb) (proof nb) (mining_rate v) = true ->
  valid_chain v (l ++ [nb]) silence = Ok true.
Proof.
  destruct l as [|g rest]; [discriminate |]. simpl. intros Hv Hlast Hh Hp.
  f_equal. eapply valid_chain_from_snoc; eauto. congruence.
Qed.

(** What mine does when it is not skipped, the chain is not empty, the
    search ends and the address drawn is new to the miner's simulator. *)
Lemma mine_run fuel self blockchain w lb p :
  allocated w blockchain ->
  last (blists w (chain blockchain)) = Some lb ->
  search fuel (proof lb) 4 0 = Some p ->
  dict_get (pairs (crypto self)) (str_remove "-" (uuids w (drawn w))) = None ->
  exists w',
    mine fuel self blockchain false w
    = Return (MkEnt (name self)
                    (dict_set (keys self) (str_remove "-" (uuids w (drawn w)))
                              (str_remove "-" (uuids w (S (drawn w)))))
                    (MkPyCryptoSim
                       (dict_set (pairs (crypto self)) (str_remove "-" (uuids w (drawn w)))
                                 (str_remove "-" (uuids w (S (drawn w)))))),
              Some (MkBlockchain (S (S (S (tnext w)))) (S (bnext w)) (nodes blockchain) 4 p 1))
             w'
    /\ store_le w w'
    /\ load_chain w' (S (bnext w))
       = load_chain w (chain blockchain)
         ++ [Block (Z.of_nat (length (blists w (chain blockchain))) + 1)
                   (clock w (S (ticks w)))
                   (tlists w (current_transactions blockchain)
                    ++ [Transaction "from mine" (PStr (str_remove "-" (uuids w (drawn w)))) 1
                                    None None])
                   p (hash (load_block w lb))]
    /\ tlists w' (S (S (S (tnext w)))) = [].
Proof.
  intros Halloc Hlast Hsearch Hfresh.
  destruct (clone_spec blockchain w Halloc)
    as (w1 & Hclone & Hle & Htn & Hbn & Htl1 & Hbl1 & Hc & Hu & Hti & Hd).
  pose proof Halloc as (Hch & Hct & Hall).
  pose proof Hle as (_ & _ & Htl & Hbl).
  assert (Hlbt : (transactions lb < tnext w)%nat).
  { rewrite Forall_forall in Hall. apply Hall.
    apply last_Some in Hlast as [l0 ->]. apply elem_of_app. right. apply list_elem_of_In. now left. }
  unfold mine. rewrite (bind_Return _ _ _ _ _ Hclone).
  unfold bind at 1. unfold last_block at 1. unfold bind at 1. unfold get_blist at 1.
  cbn [chain]. rewrite Hbl1, Hlast. cbn [ret].
  unfold bind at 1. unfold work_for_proof at 1. unfold bind at 1. unfold last_block at 1.
  unfold bind at 1. unfold get_blist at 1. cbn [chain]. rewrite Hbl1, Hlast. cbn [ret].
  unfold proof_of_work. cbn [mining_rate]. rewrite Hsearch. cbn [ret].
  unfold bind at 1. rewrite new_address_eq, Hu, Hd, Hfresh.
  unfold bind at 1.
  rewrite (new_transaction_eq _ _ _ _ _ _ lb) by (cbn [blists chain]; rewrite Hbl1; exact Hlast).
  cbn [andb truthy_int current_transactions chain nodes mining_rate proof_sum proof_cnt
       tlists tnext blists bnext clock ticks uuids drawn].
  unfold bind at 1. unfold hash_of at 1.
  match goal with |- context [hash (load_block ?W lb)] =>
    replace (load_block W lb) with (load_block w lb)
      by (unfold load_block; cbn [tlists]; rewrite fn_lookup_insert_ne by lia;
          rewrite (Htl _ Hlbt); reflexivity)
  end.
  unfold bind at 1. rewrite new_block_given by apply hash_nonempty.
  unfold ret, sealed, resealed, next_block.
  cbn [current_transactions chain nodes mining_rate proof_sum proof_cnt
       tlists tnext blists bnext clock ticks uuids drawn].
  rewrite Htn, Hbl1, Hc, Hti, Htl1. eexists. split; [reflexivity |].
  assert (Ht3 : forall r, (r < tnext w)%nat ->
            (<[S (S (S (tnext w))) := []]>
               (<[S (S (tnext w)) :=
                    tlists w (current_transactions blockchain)
                    ++ [Transaction "from mine" (PStr (str_remove "-" (uuids w (drawn w)))) 1
                                    None None]]> (tlists w1))) r
            = tlists w r).
  { intros r Hlt. rewrite !fn_lookup_insert_ne by lia. apply Htl. exact Hlt. }
  split; [| split].
  - unfold store_le. cbn [tlists tnext blists bnext]. rewrite Hbn.
    split; [lia |]. split; [lia |]. split; [exact Ht3 |].
    intros r Hlt. rewrite fn_lookup_insert_ne by lia. apply Hbl. exact Hlt.
  - unfold load_chain at 1. cbn [blists]. rewrite fn_lookup_insert, map_app.
    apply (f_equal2 (@app blockv)).
    + apply map_ext_in. intros b Hin. unfold load_block. cbn [tlists]. rewrite Ht3; [reflexivity |].
      rewrite Forall_forall in Hall. apply Hall, list_elem_of_In, Hin.
    + cbn [map]. unfold load_block at 1.
      cbn [tlists index timestamp transactions proof previous_hash].
      rewrite fn_lookup_insert_ne by lia. rewrite fn_lookup_insert. reflexivity.
  - cbn [tlists]. apply fn_lookup_insert.
Qed.

(** X24. mine, when it is not skipped, the chain is not empty, the search
    for a proof at rate 4 ends and the address drawn is new to the miner:
    it returns a fork whose chain is the chain of the ledger with one more
    block. The block holds what was pending in the ledger followed by the
    reward, 1 from "from mine" to the new address; its proof is the proof
    found and its previous_hash the hash of the block that was last. The
    fork has nothing pending, mining rate 4 and the proof as its only
    statistic. The ledger given reads as before. *)
Theorem mine_extends_chain fuel self blockchain w lb p :
  allocated w blockchain ->
  last (blists w (chain blockchain)) = Some lb ->
  search fuel (proof lb) 4 0 = Some p ->
  dict_get (pairs (crypto self)) (str_remove "-" (uuids w (drawn w))) = None ->
  exists self' fork w',
    mine fuel self blockchain false w = Return (self', Some fork) w'
    /\ load_chain w' (chain fork)
       = load_chain w (chain blockchain)
         ++ [Block (Z.of_nat (length (blists w (chain blockchain))) + 1)
                   (clock w (S (ticks w)))
                   (tlists w (current_transactions blockchain)
                    ++ [Transaction "from mine" (PStr (str_remove "-" (uuids w (drawn w)))) 1
                                    None None])
                   p (hash (load_block w lb))]
    /\ tlists w' (current_transactions fork) = []
    /\ mining_rate fork = 4 /\ proof_sum fork = p /\ proof_cnt fork = 1
    /\ nodes fork = nodes blockchain
    /\ load_chain w' (chain blockchain) = load_chain w (chain blockchain)
    /\ tlists w' (current_transactions blockchain) = tlists w (current_transactions blockchain)
    /\ keys self' = dict_set (keys self) (str_remove "-" (uuids w (drawn w)))
                             (str_remove "-" (uuids w (S (drawn w)))).
Proof.
  intros Halloc Hlast Hsearch Hfresh.
  destruct (mine_run fuel self blockchain w lb p Halloc Hlast Hsearch Hfresh)
    as (w' & E & Hle & Hload & Hpend).
  eexists _, _, w'. split; [exact E |]. cbn [chain current_transactions mining_rate proof_sum
                                            proof_cnt nodes keys].
  split; [exact Hload |]. split; [exact Hpend |].
  split; [reflexivity |]. split; [reflexivity |]. split; [reflexivity |].
  split; [reflexivity |].
  split; [apply load_chain_store_le; assumption |].
  split; [| reflexivity].
  destruct Hle as (_ & _ & Htl & _). apply Htl. apply Halloc.
Qed.

Lemma mine_extends_chain_witness :
  exists self' fork w',
    mine 5 (new_Ent "E") demo_ledger false demo_world = Return (self', Some fork) w'
    /\ load_chain w' (chain fork)
       = load_chain demo_world (chain demo_ledger)
         ++ [Block (Z.of_nat (length (blists demo_world (chain demo_ledger))) + 1)
                   (clock demo_world (S (ticks demo_world)))
                   (tlists demo_world (current_transactions demo_ledger)
                    ++ [Transaction "from mine"
                          (PStr (str_remove "-" (uuids demo_world (drawn demo_world)))) 1
                          None None])
                   4 (hash (load_block demo_world demo_block2))]
    /\ tlists w' (current_transactions fork) = []
    /\ mining_rate fork = 4 /\ proof_sum fork = 4 /\ proof_cnt fork = 1
    /\ nodes fork = nodes demo_ledger
    /\ load_chain w' (chain demo_ledger) = load_chain demo_world (chain demo_ledger)
    /\ tlists w' (current_transactions demo_ledger)
       = tlists demo_world (current_transactions demo_ledger)
    /\ keys self' = dict_set (keys (new_Ent "E"))
                             (str_remove "-" (uuids demo_world (drawn demo_world)))
                             (str_remove "-" (uuids demo_world (S (drawn demo_world)))).
Proof.
  apply (mine_extends_chain 5 (new_Ent "E") demo_ledger demo_world demo_block2 4).
  - exact demo_allocated.
  - reflexivity.
  - vm_compute. reflexivity.
  - reflexivity.
Defined.

(** X25. mine keeps a valid chain valid: when the chain of the ledger is
    accepted by the valid_chain of a ledger of mining rate 4, so is the
    chain of the fork; the fork, whose mining rate is 4, accepts its own
    chain, and validate_blockchain answers that the fork is accepted. *)
Theorem mine_keeps_chain_valid fuel self blockchain w lb p validator (checker : Ent) :
  allocated w blockchain ->
  last (blists w (chain blockchain)) = Some lb ->
  search fuel (proof lb) 4 0 = Some p ->
  dict_get (pairs (crypto self)) (str_remove "-" (uuids w (drawn w))) = None ->
  mining_rate validator = 4 ->
  valid_chain validator (load_chain w (chain blockchain)) true = Ok true ->
  exists self' fork w',
    mine fuel self blockchain false w = Return (self', Some fork) w'
    /\ valid_chain validator (load_chain w' (chain fork)) true = Ok true
    /\ valid_chain fork (load_chain w' (chain fork)) true = Ok true
    /\ validate_blockchain checker fork w'
       = Return (name checker +:+ " accepts the blockchain") w'.
Proof.
  intros Halloc Hlast Hsearch Hfresh Hrate Hvalid.
  destruct (mine_run fuel self blockchain w lb p Halloc Hlast Hsearch Hfresh)
    as (w' & E & Hle & Hload & Hpend).
  eexists _, _, w'. split; [exact E |]. cbn [chain].
  assert (Hsnoc : forall v, mining_rate v = 4 ->
             valid_chain v (load_chain w (chain blockchain)) true = Ok true ->
             valid_chain v (load_chain w' (S (bnext w))) true = Ok true).
  { intros v Hv Hok. rewrite Hload.
    apply (valid_chain_snoc v _ (load_block w lb)).
    - exact Hok.
    - unfold load_chain. rewrite last_map, Hlast. reflexivity.
    - reflexivity.
    - cbn [proof load_block]. rewrite Hv. apply search_sound in Hsearch. apply Hsearch. }
  assert (Hsame : forall v v', mining_rate v = mining_rate v' ->
             forall l, valid_chain v l true = valid_chain v' l true).
  { intros v v' Hvv [|g l]; [reflexivity |]. simpl. f_equal.
    revert g. induction l as [|a l IH]; intros g; simpl; [reflexivity |].
    rewrite Hvv, IH. reflexivity. }
  assert (Hfork : valid_chain (MkBlockchain (S (S (S (tnext w)))) (S (bnext w))
                                            (nodes blockchain) 4 p 1)
                              (load_chain w' (S (bnext w))) true = Ok true).
  { rewrite (Hsame _ validator) by (symmetry; exact Hrate). apply Hsnoc; assumption. }
  split; [apply Hsnoc; assumption |]. split; [exact Hfork |].
  unfold validate_blockchain, bind, read_chain. cbn [chain]. rewrite Hfork. reflexivity.
Qed.

Lemma mine_keeps_chain_valid_witness :
  exists self' fork w',
    mine 5 (new_Ent "E") demo_ledger false demo_world = Return (self', Some fork) w'
    /\ valid_chain demo_ledger (load_chain w' (chain fork)) true = Ok true
    /\ valid_chain fork (load_chain w' (chain fork)) true = Ok true
    /\ validate_blockchain demo_B fork w'
       = Return (name demo_B +:+ " accepts the blockchain") w'.
Proof.
  apply (mine_keeps_chain_valid 5 (new_Ent "E") demo_ledger demo_world demo_block2 4
           demo_ledger demo_B).
  - exact demo_allocated.
  - reflexivity.
  - vm_compute. reflexivity.
  - reflexivity.
  - reflexivity.
  - vm_compute. reflexivity.
Defined.

Lemma net_unmentioned pk (txs : list transaction) :
  Forall (fun t => mentions pk t = false) txs -> net pk txs = 0.
Proof.
  induction 1 as [|t txs Ht _ IH]; [reflexivity |]. simpl. rewrite IH.
  unfold mentions in Ht. unfold tx_effect. apply orb_false_elim in Ht as [Hs Hr].
  rewrite Hs. destruct (recipient t); [rewrite Hr |]; reflexivity.
Qed.

Lemma sum_coins_app (l1 l2 : list (string * Z)) :
  sum_coins (l1 ++ l2) = sum_coins l1 + sum_coins l2.
Proof. induction l1 as [|x l1 IH]; simpl; [reflexivity | rewrite IH; lia]. Qed.

(** X26. mine pays the miner exactly 1. For a miner whose addresses are
    registered and who holds no address "from mine", on a ledger with
    nothing pending whose chain does not name the address drawn: balance on
    the fork reports, for the miner after mining, the balances it reported
    on the ledger before, then 1 for the new address, and a total greater
    by 1. *)
Theorem mine_pays_the_miner fuel self blockchain w lb p held per_address :
  allocated w blockchain ->
  last (blists w (chain blockchain)) = Some lb ->
  search fuel (proof lb) 4 0 = Some p ->
  dict_get (pairs (crypto self)) (str_remove "-" (uuids w (drawn w))) = None ->
  registered self ->
  tlists w (current_transactions blockchain) = [] ->
  Forall (fun t => mentions (str_remove "-" (uuids w (drawn w))) t = false)
         (all_transactions w blockchain) ->
  ~ In "from mine" (map fst (keys self)) ->
  str_remove "-" (uuids w (drawn w)) <> "from mine" ->
  value (balance self blockchain w) = Some (held, per_address) ->
  exists self' fork w',
    mine fuel self blockchain false w = Return (self', Some fork) w'
    /\ value (balance self' fork w')
       = Some (held + 1, per_address ++ [(str_remove "-" (uuids w (drawn w)), 1)]).
Proof.
  intros Halloc Hlast Hsearch Hfresh Hreg Hpending Hunnamed Hmine Hpub Hbal.
  destruct (mine_run fuel self blockchain w lb p Halloc Hlast Hsearch Hfresh)
    as (w' & E & Hle & Hload & Hpend).
  set (pub := str_remove "-" (uuids w (drawn w))) in *.
  set (priv := str_remove "-" (uuids w (S (drawn w)))) in *.
  destruct (registered_mint self pub priv Hreg Hfresh) as (Hreg' & Hkeys & Hnew).
  eexists _, _, w'. split; [exact E |].
  destruct (balance_registered self blockchain w Hreg) as (w0 & E0 & _).
  rewrite E0 in Hbal. simpl in Hbal. inversion Hbal; subst held per_address; clear Hbal.
  match goal with |- value (balance ?e ?f w') = _ =>
    destruct (balance_registered e f w' Hreg') as (w1 & E1 & _)
  end.
  rewrite E1. simpl. f_equal.
  set (reward := Transaction "from mine" (PStr pub) 1 None None) in *.
  assert (Hall : all_transactions w' (MkBlockchain (S (S (S (tnext w)))) (S (bnext w))
                                                   (nodes blockchain) 4 p 1)
                 = all_transactions w blockchain ++ [reward]).
  { rewrite !all_transactions_load. cbn [chain]. rewrite Hload, Hpending, map_app, concat_app.
    simpl. reflexivity. }
  rewrite Hall.
  assert (Hper : balances_of (MkEnt (name self) (dict_set (keys self) pub priv)
                                    (MkPyCryptoSim (dict_set (pairs (crypto self)) pub priv)))
                             (all_transactions w blockchain ++ [reward])
                 = balances_of self (all_transactions w blockchain) ++ [(pub, 1)]).
  { unfold balances_of. cbn [keys]. rewrite Hkeys, map_app. f_equal.
    - apply map_ext_in. intros [pk sk] Hin. cbn [fst]. f_equal.
      rewrite net_app. simpl. unfold tx_effect. cbn [sender recipient amount reward].
      destruct (String.eqb_spec pk "from mine") as [-> | _].
      { exfalso. apply Hmine. apply (in_map fst _ _ Hin). }
      destruct (String.eqb_spec pk pub) as [-> | _].
      { exfalso. apply Hnew. apply (in_map fst _ _ Hin). }
      lia.
    - simpl. f_equal. f_equal. rewrite net_app, (net_unmentioned pub _ Hunnamed). simpl.
      unfold tx_effect. cbn [sender recipient amount reward].
      destruct (String.eqb_spec pub "from mine"); [contradiction |].
      rewrite String.eqb_refl. lia. }
  rewrite Hper, sum_coins_app. simpl. f_equal; lia.
Qed.

Lemma mine_pays_the_miner_witness :
  exists self' fork w',
    mine 5 demo_A demo_ledger false demo_world = Return (self', Some fork) w'
    /\ value (balance self' fork w')
       = Some (3 + 1, [("X", 3)] ++ [(str_remove "-" (uuids demo_world (drawn demo_world)), 1)]).
Proof.
  apply (mine_pays_the_miner 5 demo_A demo_ledger demo_world demo_block2 4 3 [("X", 3)]).
  - exact demo_allocated.
  - reflexivity.
  - vm_compute. reflexivity.
  - reflexivity.
  - exact registered_demo_A.
  - reflexivity.
  - vm_compute. constructor; [reflexivity | constructor].
  - simpl. intros [H | []]. discriminate.
  - vm_compute. discriminate.
  - vm_compute. reflexivity.
Defined.

(** ** Ent: gives *)

Lemma dict_set_In_key {V} (d : list (string * V)) (k : string) (v : V) :
  In k (map fst (dict_set d k v)).
Proof.
  rewrite dict_set_keys. destruct (dict_get d k) eqn:E.
  - apply dict_get_Some_In in E. apply (in_map fst _ _ E).
  - apply in_app_iff. right. now left.
Qed.

Lemma dict_set_keeps_keys {V} (d : list (string * V)) (k k' : string) (v : V) :
  In k' (map fst d) -> In k' (map fst (dict_set d k v)).
Proof.
  rewrite dict_set_keys. destruct (dict_get d k); [tauto |].
  intros H. apply in_app_iff. now left.
Qed.

Lemma payment_of_weaken items items' r r' t :
  (forall x, In x items -> In x items') ->
  (forall a, In a (map fst (keys r)) -> In a (map fst (keys r'))) ->
  payment_of items r t -> payment_of items' r' t.
Proof.
  intros Hi Hr ((c & Hin & Hc) & (a & Ha & Hk) & Hs).
  split; [exists c; auto | split; [exists a; auto | exact Hs]].
Qed.

(** The loop of gives, when it returns: it has appended payments to the
    pending list of the copy and touched no other list. Either it left by
    its break, and the payments add up to what was due; or it went through
    every balance, none of them negative, and paid each in full. *)
Lemma gives_loop_returns self copy lb items :
  forall due recepient w recepient' w',
  last (blists w (chain copy)) = Some lb ->
  gives_loop self copy items due recepient w = Return recepient' w' ->
  exists pays,
    tlists w' (current_transactions copy) = tlists w (current_transactions copy) ++ pays
    /\ (forall r, r <> current_transactions copy -> tlists w' r = tlists w r)
    /\ blists w' = blists w /\ tnext w' = tnext w /\ bnext w' = bnext w
    /\ clock w' = clock w
    /\ (forall a, In a (map fst (keys recepient)) -> In a (map fst (keys recepient')))
    /\ Forall (payment_of items recepient') pays
    /\ (sum_amounts pays = due
        \/ (Forall (fun item : string * Z => 0 <= snd item) items
            /\ sum_amounts pays = sum_coins items
            /\ (sum_coins items < due \/ pays = []))).
Proof.
  induction items as [|[payer coins] items IH]; intros due recepient w recepient' w' Hlast H.
  - simpl in H. inversion H; subst. exists []. rewrite app_nil_r.
    split; [reflexivity |]. split; [reflexivity |]. split; [reflexivity |].
    split; [reflexivity |]. split; [reflexivity |]. split; [reflexivity |].
    split; [auto |]. split; [constructor |].
    right. split; [constructor |]. split; [reflexivity |]. now right.
  - cbn [gives_loop] in H.
    destruct (Z.ltb_spec coins 0) as [Hneg | Hnonneg]; [discriminate |].
    destruct (Z.eqb_spec coins 0) as [-> | Hnz].
    + destruct (IH due recepient w recepient' w' Hlast H)
        as (pays & Ht & Hother & Hb & Htn & Hbn & Hc & Hk & Hpays & Hsum).
      exists pays. split; [exact Ht |]. split; [exact Hother |].
      split; [exact Hb |]. split; [exact Htn |]. split; [exact Hbn |]. split; [exact Hc |].
      split; [exact Hk |]. split.
      * eapply Forall_impl; [exact Hpays |]. intros t Hp.
        eapply payment_of_weaken; [| | exact Hp]; [intros x Hx; now right | auto].
      * destruct Hsum as [Hs | (Hall & Hs & Hd)]; [now left |]. right.
        split; [constructor; [simpl; lia | exact Hall] |]. simpl. split; [lia |].
        destruct Hd; [left; lia | now right].
    + apply bind_inv in H as (t0 & w1 & Htime & H).
      unfold time in Htime. inversion Htime; subst t0 w1; clear Htime.
      apply bind_inv in H as ([r1 address] & w2 & Haddr & H).
      rewrite new_address_eq in Haddr. cbn [uuids drawn] in Haddr.
      destruct (dict_get (pairs (crypto recepient)) _) eqn:Hget; [discriminate |].
      inversion Haddr; subst r1 address w2; clear Haddr.
      apply bind_inv in H as (i & w3 & Htx & H).
      rewrite (new_transaction_eq _ _ _ _ _ _ lb) in Htx by exact Hlast.
      inversion Htx; subst i w3; clear Htx.
      set (pay := if due >? coins then coins else due) in *.
      set (pub := str_remove "-" (uuids w (drawn w))) in *.
      set (r1 := MkEnt (name recepient) (dict_set (keys recepient) pub _) _) in *.
      match type of H with context [tlists w (current_transactions copy) ++ [?x]] =>
        set (t := x) in * end.
      assert (Hpt : payment_of ((payer, coins) :: items) r1 t).
      { assert (Hsender : sender t = payer) by (subst t; destruct (_ && _); reflexivity).
        assert (Hamount : amount t = pay) by (subst t; destruct (_ && _); reflexivity).
        assert (Hrecipient : recipient t = PStr pub) by (subst t; destruct (_ && _); reflexivity).
        split; [| split].
        - exists coins. rewrite Hsender, Hamount. split; [now left |]. split; [lia |].
          subst pay. destruct (Z.gtb_spec due coins); lia.
        - exists pub. split; [exact Hrecipient |]. subst r1. cbn [keys]. apply dict_set_In_key.
        - subst t. destruct (_ && _); cbn [signature message sender]; [| now left].
          right. eexists. split; reflexivity. }
      assert (Hkeys1 : forall a, In a (map fst (keys recepient)) -> In a (map fst (keys r1))).
      { intros a Ha. subst r1. cbn [keys]. apply dict_set_keeps_keys. exact Ha. }
      destruct (Z.eqb_spec (due - pay) 0) as [Hzero | Hmore].
      * inversion H; subst recepient' w'; clear H. exists [t].
        cbn [tlists tnext blists bnext clock]. rewrite fn_lookup_insert.
        split; [reflexivity |].
        split; [intros r Hr; rewrite fn_lookup_insert_ne by congruence; reflexivity |].
        split; [reflexivity |]. split; [reflexivity |]. split; [reflexivity |].
        split; [reflexivity |]. split; [exact Hkeys1 |].
        split; [constructor; [exact Hpt | constructor] |].
        left. simpl. assert (amount t = pay) by (subst t; destruct (_ && _); reflexivity). lia.
      * destruct (Z.ltb_spec (due - pay) 0) as [Hover | Hleft]; [discriminate |].
        assert (Hpay : pay = coins /\ due > coins).
        { subst pay. destruct (Z.gtb_spec due coins); lia. }
        destruct Hpay as [Hpay Hgt].
        apply IH in H as (pays & Ht & Hother & Hb & Htn & Hbn & Hc & Hk & Hpays & Hsum);
          [| exact Hlast].
        cbn [tlists tnext blists bnext clock] in *. rewrite fn_lookup_insert in Ht.
        exists (t :: pays). rewrite Ht, <- app_assoc.
        split; [reflexivity |].
        split; [intros r Hr; rewrite (Hother r Hr), fn_lookup_insert_ne by congruence;
                reflexivity |].
        split; [exact Hb |]. split; [exact Htn |]. split; [exact Hbn |]. split; [exact Hc |].
        split; [auto |].
        split.
        -- constructor.
           ++ eapply payment_of_weaken; [| | exact Hpt]; [auto | exact Hk].
           ++ eapply Forall_impl; [exact Hpays |]. intros t' Hp.
              eapply payment_of_weaken; [| | exact Hp]; [intros x Hx; now right | auto].
        -- assert (Hamount : amount t = coins)
             by (subst t; destruct (_ && _); cbn [amount]; exact Hpay).
           simpl. rewrite Hamount.
           destruct Hsum as [Hs | (Hall & Hs & Hd)]; [left; lia |]. right.
           split; [constructor; [simpl; lia | exact Hall] |]. split; [lia |].
           left. destruct Hd as [Hd | ->]; [lia |]. simpl in Hs. lia.
Qed.

(** What gives has done when it returns. *)
Lemma gives_returns fuel self blockchain recepient amount w fork recepient' w' held per_address :
  allocated w blockchain ->
  value ((clone blockchain ;; balance self blockchain) w) = Some (held, per_address) ->
  gives fuel self blockchain recepient amount w = Return (fork, recepient') w' ->
  exists lb pays nb,
    last (blists w (chain blockchain)) = Some lb
    /\ load_chain w' (chain fork) = load_chain w (chain blockchain) ++ [nb]
    /\ transactions nb = tlists w (current_transactions blockchain) ++ pays
    /\ previous_hash nb = hash (load_block w lb)
    /\ valid_proof (proof lb) (proof nb) 4 = true
    /\ mining_rate fork = 4
    /\ Forall (payment_of per_address recepient') pays
    /\ (sum_amounts pays = amount \/ (pays = [] /\ held = 0 /\ amount < 0))
    /\ store_le w w'.
Proof.
  intros Halloc Hheld H.
  destruct (clone_spec blockchain w Halloc)
    as (w1 & Hclone & Hle & Htn & Hbn & Htl1 & Hbl1 & _).
  pose proof Halloc as (Hch & Hct & Hall).
  pose proof Hle as (_ & _ & Htl & Hbl).
  rewrite (bind_Return _ _ _ _ _ Hclone) in Hheld.
  apply value_inv in Hheld as [w2 Hbal].
  unfold gives in H.
  rewrite (bind_Return _ _ _ _ _ Hclone), (bind_Return _ _ _ _ _ Hbal) in H.
  destruct (Z.gtb_spec amount held) as [Hgt | Hle_amount]; [discriminate |].
  pose proof (keeps_balance _ _ _ _ _ Hbal) as ((Ht2 & Htn2 & Hb2 & Hbn2) & _).
  assert (Hheld : held = sum_coins per_address).
  { unfold balance in Hbal. apply bind_inv in Hbal as (b & w0 & _ & Hret).
    inversion Hret; subst. rewrite fold_left_sum. lia. }
  apply bind_inv in H as (r1 & w3 & Hloop & H).
  apply bind_inv in H as (lb & w4 & Hlb & H).
  apply last_block_inv in Hlb as [-> Hlast3].
  apply bind_inv in H as (ph & w5 & Hph & H).
  unfold hash_of in Hph. inversion Hph; subst ph w5; clear Hph.
  apply bind_inv in H as ([copy' p] & w6 & Hwork & H).
  apply work_for_proof_inv in Hwork as (-> & -> & lb' & Hlast' & Hv).
  rewrite Hlast3 in Hlast'. inversion Hlast'; subst lb'; clear Hlast'.
  apply bind_inv in H as ([copy'' blk] & w7 & Hnew & H).
  inversion H; subst copy'' r1 w7; clear H.
  rewrite new_block_given in Hnew by apply hash_nonempty.
  inversion Hnew; subst fork blk w'; clear Hnew.
  cbn [chain current_transactions mining_rate] in *.
  assert (Hb3' : blists w3 = blists w2)
    by (apply (keeps_blists_gives_loop _ _ _ _ _ _ _ _ Hloop)).
  assert (Hlast1 : last (blists w2 (S (bnext w))) = Some lb)
    by (rewrite <- Hb3'; exact Hlast3).
  destruct (gives_loop_returns self
              (MkBlockchain (S (S (tnext w))) (S (bnext w)) (nodes blockchain) 4 0 0)
              lb per_address amount recepient w2 recepient' w3 Hlast1 Hloop)
    as (pays & Ht3 & Hother3 & Hb3 & Htn3 & Hbn3 & _ & _ & Hpays & Hsum).
  cbn [chain current_transactions] in *.
  assert (Hlast : last (blists w (chain blockchain)) = Some lb).
  { rewrite <- Hbl1, <- Hb2. exact Hlast1. }
  assert (Hlbt : (transactions lb < tnext w)%nat).
  { rewrite Forall_forall in Hall. apply Hall.
    apply last_Some in Hlast as [l0 ->]. apply elem_of_app. right. apply list_elem_of_In.
    now left. }
  assert (Hold : forall r, (r < tnext w)%nat -> tlists w3 r = tlists w r).
  { intros r Hr. rewrite Hother3 by lia. rewrite Ht2. apply Htl. exact Hr. }
  assert (Hlb : load_block w3 lb = load_block w lb).
  { unfold load_block. rewrite (Hold _ Hlbt). reflexivity. }
  rewrite Hlb in *.
  exists lb, pays.
  eexists (Block (Z.of_nat (length (blists w (chain blockchain))) + 1) (clock w3 (ticks w3))
                 (tlists w (current_transactions blockchain) ++ pays) p
                 (hash (load_block w lb))).
  split; [exact Hlast |].
  unfold sealed, resealed, next_block, load_chain.
  cbn [chain current_transactions mining_rate blists tlists tnext bnext transactions
       previous_hash proof].
  rewrite Hb3, Hb2, Hbl1, Htn3, Htn2, Htn.
  split; [| split; [reflexivity | split; [reflexivity | split; [exact Hv | split;
            [reflexivity | split; [exact Hpays | split]]]]]].
  - rewrite fn_lookup_insert, map_app. apply (f_equal2 (@app blockv)).
    + apply map_ext_in. intros b Hin. unfold load_block. cbn [tlists].
      assert (Hbt : (transactions b < tnext w)%nat).
      { rewrite Forall_forall in Hall. apply Hall, list_elem_of_In, Hin. }
      rewrite fn_lookup_insert_ne by lia. rewrite (Hold _ Hbt). reflexivity.
    + cbn [map]. unfold load_block.
      cbn [tlists index timestamp transactions proof previous_hash].
      rewrite fn_lookup_insert_ne by lia. rewrite Ht3, Ht2, Htl1. reflexivity.
  - destruct Hsum as [Hs | (Hnonneg & Hs & [Hlt | ->])]; [now left | lia |].
    simpl in Hs. destruct (Z.eq_dec amount 0) as [-> | Hne]; [now left |].
    right. split; [reflexivity |]. lia.
  - unfold store_le. cbn [tlists tnext blists bnext]. rewrite Hbn3, Hbn2, Hbn.
    split; [lia |]. split; [lia |]. split.
    + intros r Hr. rewrite fn_lookup_insert_ne by lia. apply Hold. exact Hr.
    + intros r Hr. rewrite fn_lookup_insert_ne by lia. apply Hbl. exact Hr.
Qed.

(** X27. What a fork returned by gives holds. Its chain is the chain of
    the ledger with one more block; the block holds what was pending in the
    ledger followed by the payments. Each payment is sent from an address
    to which balance reported a positive balance, for no more than that
    balance, to an address of the recipient, and the signature it records
    is the commitment of the message under the sender's public address, not
    under a private key. The payments add up to the amount, unless the
    amount is negative and the giver holds nothing, when there is no
    payment. The ledger given reads as before. *)
Theorem gives_records_payments fuel self blockchain recepient amount w fork recepient' w'
  held per_address :
  allocated w blockchain ->
  value ((clone blockchain ;; balance self blockchain) w) = Some (held, per_address) ->
  gives fuel self blockchain recepient amount w = Return (fork, recepient') w' ->
  exists pays nb,
    load_chain w' (chain fork) = load_chain w (chain blockchain) ++ [nb]
    /\ transactions nb = tlists w (current_transactions blockchain) ++ pays
    /\ Forall (payment_of per_address recepient') pays
    /\ (sum_amounts pays = amount \/ (pays = [] /\ held = 0 /\ amount < 0))
    /\ load_chain w' (chain blockchain) = load_chain w (chain blockchain)
    /\ tlists w' (current_transactions blockchain) = tlists w (current_transactions blockchain).
Proof.
  intros Halloc Hheld H.
  destruct (gives_returns _ _ _ _ _ _ _ _ _ _ _ Halloc Hheld H)
    as (lb & pays & nb & _ & Hload & Htx & _ & _ & _ & Hpays & Hsum & Hle).
  exists pays, nb. split; [exact Hload |]. split; [exact Htx |]. split; [exact Hpays |].
  split; [exact Hsum |]. split; [apply load_chain_store_le; assumption |].
  destruct Hle as (_ & _ & Htl & _). apply Htl. apply Halloc.
Qed.

Lemma gives_records_payments_witness :
  exists fork recepient' w' pays nb,
    gives 5 demo_A demo_ledger demo_B 2 demo_world = Return (fork, recepient') w'
    /\ load_chain w' (chain fork) = load_chain demo_world (chain demo_ledger) ++ [nb]
    /\ transactions nb = tlists demo_world (current_transactions demo_ledger) ++ pays
    /\ Forall (payment_of [("X", 3)] recepient') pays
    /\ (sum_amounts pays = 2 \/ (pays = [] /\ 3 = 0 /\ 2 < 0))
    /\ load_chain w' (chain demo_ledger) = load_chain demo_world (chain demo_ledger)
    /\ tlists w' (current_transactions demo_ledger)
       = tlists demo_world (current_transactions demo_ledger).
Proof.
  assert (Hrun : exists fork recepient' w',
             gives 5 demo_A demo_ledger demo_B 2 demo_world = Return (fork, recepient') w')
    by (eexists _, _, _; vm_compute; reflexivity).
  destruct Hrun as (fork & recepient' & w' & Hrun).
  destruct (gives_records_payments 5 demo_A demo_ledger demo_B 2 demo_world fork recepient' w'
              3 [("X", 3)])
    as (pays & nb & Hconcl).
  - exact demo_allocated.
  - vm_compute. reflexivity.
  - exact Hrun.
  - exists fork, recepient', w', pays, nb. split; [exact Hrun | exact Hconcl].
Defined.

Lemma valid_chain_same_rate v v' (l : list blockv) silence :
  mining_rate v = mining_rate v' -> valid_chain v l silence = valid_chain v' l silence.
Proof.
  intros Hvv. destruct l as [|g l]; [reflexivity |]. simpl. f_equal.
  revert g. induction l as [|a l IH]; intros g; simpl; [reflexivity |].
  rewrite Hvv, IH. reflexivity.
Qed.

(** X28. gives keeps a valid chain valid: when the chain of the ledger is
    accepted by the valid_chain of a ledger of mining rate 4, so is the
    chain of the fork that gives returns; the fork accepts its own chain,
    and validate_blockchain answers that the fork is accepted. *)
Theorem gives_keeps_chain_valid fuel self blockchain recepient amount w fork recepient' w'
  validator (checker : Ent) :
  allocated w blockchain ->
  gives fuel self blockchain recepient amount w = Return (fork, recepient') w' ->
  mining_rate validator = 4 ->
  valid_chain validator (load_chain w (chain blockchain)) true = Ok true ->
  valid_chain validator (load_chain w' (chain fork)) true = Ok true
  /\ valid_chain fork (load_chain w' (chain fork)) true = Ok true
  /\ validate_blockchain checker fork w' = Return (name checker +:+ " accepts the blockchain") w'.
Proof.
  intros Halloc H Hrate Hvalid.
  assert (Hheld : exists held per_address,
             value ((clone blockchain ;; balance self blockchain) w)
             = Some (held, per_address)).
  { unfold gives in H. apply bind_inv in H as (copy & w1 & Hclone & H).
    apply bind_inv in H as ([held per] & w2 & Hbal & _).
    exists held, per. rewrite (bind_Return _ _ _ _ _ Hclone), Hbal. reflexivity. }
  destruct Hheld as (held & per_address & Hheld).
  destruct (gives_returns _ _ _ _ _ _ _ _ _ _ _ Halloc Hheld H)
    as (lb & pays & nb & Hlast & Hload & _ & Hprev & Hproof & Hfork & _).
  assert (Hsnoc : forall v, mining_rate v = 4 ->
             valid_chain v (load_chain w' (chain fork)) true = Ok true).
  { intros v Hv. rewrite Hload.
    apply (valid_chain_snoc v _ (load_block w lb)).
    - rewrite <- Hvalid. apply valid_chain_same_rate. congruence.
    - unfold load_chain. rewrite last_map, Hlast. reflexivity.
    - exact Hprev.
    - cbn [proof load_block]. rewrite Hv. exact Hproof. }
  split; [apply Hsnoc; exact Hrate |]. split; [apply Hsnoc; exact Hfork |].
  unfold validate_blockchain, bind, read_chain. rewrite (Hsnoc fork Hfork). reflexivity.
Qed.

Lemma gives_keeps_chain_valid_witness :
  exists fork recepient' w',
    gives 5 demo_A demo_ledger demo_B 2 demo_world = Return (fork, recepient') w'
    /\ valid_chain demo_ledger (load_chain w' (chain fork)) true = Ok true
    /\ valid_chain fork (load_chain w' (chain fork)) true = Ok true
    /\ validate_blockchain demo_B fork w'
       = Return (name demo_B +:+ " accepts the blockchain") w'.
Proof.
  assert (Hrun : exists fork recepient' w',
             gives 5 demo_A demo_ledger demo_B 2 demo_world = Return (fork, recepient') w')
    by (eexists _, _, _; vm_compute; reflexivity).
  destruct Hrun as (fork & recepient' & w' & Hrun).
  exists fork, recepient', w'. split; [exact Hrun |].
  apply (gives_keeps_chain_valid 5 demo_A demo_ledger demo_B 2 demo_world fork recepient' w'
           demo_ledger demo_B).
  - exact demo_allocated.
  - exact Hrun.
  - reflexivity.
  - vm_compute. reflexivity.
Defined.

Lemma bind_Raise_inv {A B} (c : M A) (k : A -> M B) w e w' :
  bind c k w = Raise e w' ->
  c w = Raise e w' \/ exists a w1, c w = Return a w1 /\ k a w1 = Raise e w'.
Proof.
  unfold bind. destruct (c w) as [a w1|e1 w1| |]; try discriminate.
  - intros H. right. exists a, w1. split; [reflexivity | exact H].
  - intros H. left. inversion H. reflexivity.
Qed.

Lemma string_length_append (a b : string) :
  String.length (a +:+ b) = (String.length a + String.length b)%nat.
Proof.
  induction a as [|c a IH]; [reflexivity |].
  change (S (String.length (a +:+ b)) = S (String.length a + String.length b)). now f_equal.
Qed.

Lemma new_block_raises self p ph w e w' :
  new_block self p ph w = Raise e w' -> e = IndexError.
Proof.
  destruct (truthy_str ph) eqn:Hph.
  - destruct ph as [s|]; [| discriminate]. simpl in Hph.
    rewrite new_block_given by (intros ->; discriminate). discriminate.
  - destruct (last (blists w (chain self))) as [lb|] eqn:Hlast.
    + rewrite (new_block_fallback _ _ _ lb) by assumption. discriminate.
    + apply last_None in Hlast. destruct (new_block_empty self p ph w Hph Hlast) as [w1 E].
      rewrite E. intros H. inversion H. reflexivity.
Qed.

Lemma gives_loop_never_overpays self copy items :
  forall due recepient w w',
    gives_loop self copy items due recepient w <> Raise AccountingInvariantViolation w'.
Proof.
  induction items as [|[payer coins] items IH]; intros due recepient w w' H.
  - discriminate.
  - cbn [gives_loop] in H.
    destruct (Z.ltb_spec coins 0) as [Hneg | Hnonneg].
    { unfold LedgerCorruption, AccountingInvariantViolation in H. inversion H. }
    destruct (Z.eqb_spec coins 0) as [-> | Hnz]; [exact (IH _ _ _ _ H) |].
    apply bind_Raise_inv in H as [H | (t0 & w1 & _ & H)]; [discriminate |].
    apply bind_Raise_inv in H as [H | ([r1 address] & w2 & _ & H)].
    { rewrite new_address_eq in H. destruct (dict_get _ _); discriminate. }
    apply bind_Raise_inv in H as [H | (i & w3 & _ & H)].
    { unfold new_transaction, tlist_append, bind, get_tlist, set_tlist, last_block, bind,
        get_blist in H. simpl in H. destruct (last _); discriminate. }
    destruct (Z.eqb_spec (due - (if due >? coins then coins else due)) 0); [discriminate |].
    destruct (Z.ltb_spec (due - (if due >? coins then coins else due)) 0) as [Hover | _].
    + destruct (Z.gtb_spec due coins); lia.
    + exact (IH _ _ _ _ H).
Qed.

(** X29. gives never raises its "overpayed!" exception: what is still due
    after a payment is never negative, so the check that raises it cannot
    succeed. *)
Theorem gives_never_overpays fuel self blockchain recepient amount w w' :
  gives fuel self blockchain recepient amount w <> Raise AccountingInvariantViolation w'.
Proof.
  unfold gives. intros H.
  apply bind_Raise_inv in H as [H | (copy & w1 & _ & H)].
  { destruct (clone_fields blockchain w) as (c & w0 & E & _). rewrite E in H. discriminate. }
  apply bind_Raise_inv in H as [H | ([held per] & w2 & _ & H)].
  { destruct (balance_returns self blockchain w1) as (t & p & w0 & E & _).
    rewrite E in H. discriminate. }
  destruct (amount >? held).
  { unfold InsufficientFunds, AccountingInvariantViolation, raise in H.
    assert (Hs : name self +:+ ": insufficient balance" = "overpayed!") by congruence.
    apply (f_equal String.length) in Hs. rewrite string_length_append in Hs. simpl in Hs. lia. }
  apply bind_Raise_inv in H as [H | (r1 & w3 & _ & H)].
  { exact (gives_loop_never_overpays _ _ _ _ _ _ _ H). }
  apply bind_Raise_inv in H as [H | (lb & w4 & _ & H)].
  { unfold last_block, bind, get_blist in H. destruct (last _); discriminate. }
  apply bind_Raise_inv in H as [H | (ph & w5 & _ & H)]; [discriminate |].
  apply bind_Raise_inv in H as [H | ([copy' p] & w6 & _ & H)].
  { unfold work_for_proof in H. apply bind_Raise_inv in H as [H | (lb' & w0 & _ & H)].
    - unfold last_block, bind, get_blist in H. destruct (last _); discriminate.
    - unfold proof_of_work in H. destruct (search _ _ _ _); discriminate. }
  apply bind_Raise_inv in H as [H | ([copy'' blk] & w7 & _ & H)]; [| discriminate].
  apply new_block_raises in H. discriminate.
Qed.

(** ** Ent: some_fake *)

Lemma some_fake_loop_skips self faked (pre rest : list blockd) w :
  Forall (fun b : blockd =>
            find (fun t => truthy_addr (recipient t)) (tlists w (transactions b)) = None) pre ->
  forall i,
    some_fake_loop self faked i (pre ++ rest) w
    = some_fake_loop self faked (i + length pre) rest w.
Proof.
  induction 1 as [|b pre Hb _ IH]; intros i.
  - simpl. rewrite Nat.add_0_r. reflexivity.
  - change ((b :: pre) ++ rest) with (b :: (pre ++ rest)).
    rewrite some_fake_loop_skip by exact Hb. rewrite IH. f_equal. simpl. lia.
Qed.

(** X30. some_fake changes one block only: the first block, in chain
    order, that holds a transaction with a recipient. In the fork that
    block carries, after its own transactions, a copy of the first such
    transaction made out to a new address of the faker, held in a
    one-element tuple; every other block, before or after, is as in the
    ledger, and the ledger given reads as before. *)
Theorem some_fake_first_recipient self blockchain w pre b post t :
  allocated w blockchain ->
  blists w (chain blockchain) = pre ++ b :: post ->
  Forall (fun b' : blockd =>
            find (fun t => truthy_addr (recipient t)) (tlists w (transactions b')) = None) pre ->
  find (fun t => truthy_addr (recipient t)) (tlists w (transactions b)) = Some t ->
  dict_get (pairs (crypto self)) (str_remove "-" (uuids w (drawn w))) = None ->
  exists self' faked w',
    some_fake self blockchain w = Return (self', faked) w'
    /\ load_chain w' (chain faked)
       = map (load_block w) pre
         ++ Block (index b) (timestamp b)
                  (tlists w (transactions b)
                   ++ [Transaction (sender t) (PTuple1 (str_remove "-" (uuids w (drawn w))))
                                   (amount t) (signature t) (message t)])
                  (proof b) (previous_hash b)
            :: map (load_block w) post
    /\ load_chain w' (chain blockchain) = load_chain w (chain blockchain)
    /\ keys self' = dict_set (keys self) (str_remove "-" (uuids w (drawn w)))
                             (str_remove "-" (uuids w (S (drawn w)))).
Proof.
  intros Halloc Hchain Hpre Hfind Hfresh.
  destruct (clone_spec blockchain w Halloc)
    as (w1 & Hclone & Hle & Htn & Hbn & _ & Hbl1 & _ & Hu & _ & Hd).
  pose proof Halloc as (Hch & Hct & Hall).
  pose proof Hle as (_ & _ & Htl1 & Hblw).
  assert (Hlt : forall b', In b' (pre ++ b :: post) -> (transactions b' < tnext w)%nat).
  { intros b' Hin. rewrite Forall_forall in Hall. apply Hall. rewrite Hchain.
    apply list_elem_of_In. exact Hin. }
  assert (Hbt : (transactions b < tnext w)%nat).
  { apply Hlt. apply in_app_iff. right. now left. }
  assert (Hpre1 : Forall (fun b' : blockd =>
                    find (fun t => truthy_addr (recipient t)) (tlists w1 (transactions b'))
                    = None) pre).
  { rewrite Forall_forall in Hpre |- *. intros b' Hin.
    rewrite Htl1; [apply Hpre; exact Hin |].
    apply Hlt. apply in_app_iff. left. apply list_elem_of_In. exact Hin. }
  unfold some_fake. rewrite (bind_Return _ _ _ _ _ Hclone).
  unfold bind at 1. unfold get_blist at 1. cbn [chain]. rewrite Hbl1, Hchain.
  rewrite (some_fake_loop_skips _ _ _ _ _ Hpre1). cbn [Nat.add].
  rewrite (some_fake_loop_hit _ _ _ _ _ _ t)
    by (rewrite ?(Htl1 _ Hbt), ?Hu, ?Hd; assumption).
  cbn [chain]. rewrite Hbl1, Hchain, (Htl1 _ Hbt), Hu, Hd.
  eexists _, _, _. split; [reflexivity |]. cbn [chain keys].
  assert (Hins : <[length pre :=
                     Block (index b) (timestamp b) (tnext w1) (proof b) (previous_hash b)]>
                   (pre ++ b :: post)
                 = pre ++ Block (index b) (timestamp b) (tnext w1) (proof b) (previous_hash b)
                          :: post).
  { rewrite <- (Nat.add_0_r (length pre)) at 1. rewrite insert_app_r. reflexivity. }
  split; [| split; [| reflexivity]].
  - unfold load_chain. cbn [blists]. rewrite fn_lookup_insert, Hins, map_app. cbn [map].
    apply (f_equal2 (@app blockv)); [| apply (f_equal2 (@cons blockv))].
    + apply map_ext_in. intros b' Hin. unfold load_block. cbn [tlists].
      assert (Hb' : (transactions b' < tnext w)%nat)
        by (apply Hlt; apply in_app_iff; now left).
      rewrite !fn_lookup_insert_ne by lia. rewrite (Htl1 _ Hb'). reflexivity.
    + unfold load_block. cbn [tlists index timestamp transactions proof previous_hash].
      rewrite fn_lookup_insert. reflexivity.
    + apply map_ext_in. intros b' Hin. unfold load_block. cbn [tlists].
      assert (Hb' : (transactions b' < tnext w)%nat)
        by (apply Hlt; apply in_app_iff; right; now right).
      rewrite !fn_lookup_insert_ne by lia. rewrite (Htl1 _ Hb'). reflexivity.
  - unfold load_chain. cbn [blists]. rewrite fn_lookup_insert_ne by lia.
    rewrite (Hblw _ Hch). apply map_ext_in. intros b' Hin. unfold load_block. cbn [tlists].
    assert (Hb' : (transactions b' < tnext w)%nat).
    { rewrite Forall_forall in Hall. apply Hall, list_elem_of_In, Hin. }
    rewrite !fn_lookup_insert_ne by lia. rewrite (Htl1 _ Hb'). reflexivity.
Qed.

Lemma some_fake_first_recipient_witness :
  exists self' faked w',
    some_fake demo_A demo_ledger demo_world = Return (self', faked) w'
    /\ load_chain w' (chain faked)
       = map (load_block demo_world) [demo_genesis]
         ++ Block (index demo_block2) (timestamp demo_block2)
                  (tlists demo_world (transactions demo_block2)
                   ++ [Transaction (sender demo_reward)
                         (PTuple1 (str_remove "-" (uuids demo_world (drawn demo_world))))
                         (amount demo_reward) (signature demo_reward) (message demo_reward)])
                  (proof demo_block2) (previous_hash demo_block2)
            :: map (load_block demo_world) []
    /\ load_chain w' (chain demo_ledger) = load_chain demo_world (chain demo_ledger)
    /\ keys self' = dict_set (keys demo_A)
                             (str_remove "-" (uuids demo_world (drawn demo_world)))
                             (str_remove "-" (uuids demo_world (S (drawn demo_world)))).
Proof.
  apply (some_fake_first_recipient demo_A demo_ledger demo_world [demo_genesis] demo_block2 []
           demo_reward).
  - exact demo_allocated.
  - reflexivity.
  - constructor; [reflexivity | constructor].
  - reflexivity.
  - vm_compute. reflexivity.
Defined.
